(** * Masked Diffusion Transformer: index bookkeeping, masking and guidance

  A shallow embedding of [models/build_models.py].  Tensors are nested
  lists, outermost axis first.  Tensor entries are real numbers (the
  arithmetic of the floating-point entries is read exactly, so what is
  proved of them are facts that do not depend on rounding: shapes,
  which entry goes where, products with [0] and [1]).  The mask ratio
  is a binary64 float and [int(L * (1 - mask_ratio))] is computed with
  the roundings of the machine; the uniform draws of [torch.rand] and
  the other configured ratios are held by their exact values, as
  rationals; index tensors hold natural numbers. *)

From Stdlib Require Import List Arith ZArith QArith Qround Reals Lia Psatz.
From Stdlib Require Import Permutation Sorted Bool Floats.SpecFloat.
Import ListNotations.

Close Scope Q_scope.
Close Scope R_scope.
Local Open Scope nat_scope.

Set Implicit Arguments.

(** ** Tensor primitives *)

(** [torch.gather] along the token axis of one sample:
  [out[j] = src[index[j]]]; an index outside [src] raises. *)
Fixpoint gather {A : Type} (src : list A) (index : list nat) : option (list A) :=
match index with
| [] => Some []
| i :: rest =>
    match nth_error src i, gather src rest with
    | Some v, Some vs => Some (v :: vs)
    | _, _ => None
    end
end.

(** Sequencing of per-sample results: the batched call raises as soon as
  one sample does. *)
Fixpoint sequence {A : Type} (l : list (option A)) : option (list A) :=
match l with
| [] => Some []
| Some a :: rest =>
    match sequence rest with
    | Some r => Some (a :: r)
    | None => None
    end
| None :: _ => None
end.

(** [enumerate]: every sample paired with its position in the batch. *)
Definition enumerate {A : Type} (l : list A) : list (nat * A) :=
combine (seq 0 (length l)) l.

Section Argsort.
Context {K : Type}.
Variable leb : K -> K -> bool.

(** Insertion of one (index, key) pair in front of the first pair whose
    key is not smaller. *)
Fixpoint insert_by (p : nat * K) (l : list (nat * K)) : list (nat * K) :=
  match l with
  | [] => [p]
  | q :: l' =>
      if leb (snd p) (snd q) then p :: q :: l' else q :: insert_by p l'
  end.

Fixpoint sort_by (l : list (nat * K)) : list (nat * K) :=
  match l with
  | [] => []
  | p :: l' => insert_by p (sort_by l')
  end.

(** [torch.argsort(keys, dim=1)] on one row: the positions of [keys]
    listed by ascending key.  Equal keys keep their order here; the
    library leaves that order open. *)
Definition argsort (keys : list K) : list nat :=
  map fst (sort_by (enumerate keys)).
End Argsort.

(** [int(q)] of Python on a float with the exact value [q]: truncation
  toward zero. *)
Definition py_int (q : Q) : Z := Z.quot (Qnum q) (Zpos (Qden q)).

(** ** Python floats *)

(** A Python [float] is an IEEE 754 binary64 number: 53 bits of
  precision, exponents below 1024, every operation rounded to nearest
  with ties to even. *)
Definition float64 : Type := spec_float.

(** The conversion of an [int] operand of a mixed operation. *)
Definition float_of_int (z : Z) : float64 := binary_normalize 53 1024 z 0 false.

Definition float_sub (a b : float64) : float64 := SFsub 53 1024 a b.
Definition float_mul (a b : float64) : float64 := SFmul 53 1024 a b.
Definition float_div (a b : float64) : float64 := SFdiv 53 1024 a b.

(** The float that the decimal literal of [num / den] denotes ([0.9] for
  [9 / 10]): the binary64 number nearest to the quotient. *)
Definition float_lit (num den : Z) : float64 :=
float_div (float_of_int num) (float_of_int den).

(** [int(x)] on a float: truncation toward zero; on an infinity or a NaN
  it raises. *)
Definition int_of_float (x : float64) : option Z :=
match x with
| S754_zero _ => Some 0%Z
| S754_finite s m e =>
    let a := if (0 <=? e)%Z then (Zpos m * 2 ^ e)%Z else (Zpos m / 2 ^ (- e))%Z in
    Some (if s then (- a)%Z else a)
| S754_infinity _ | S754_nan => None
end.

(** The exact value of a finite float (zero for the others). *)
Definition float_value (x : float64) : Q :=
match x with
| S754_finite s m e =>
    let v := (inject_Z (Zpos m) * Qpower 2 e)%Q in
    if s then (- v)%Q else v
| _ => 0%Q
end.

(** Stop position of the Python slice [[:k]] on a sequence of length [n]:
  a negative [k] counts from the end. *)
Definition slice_stop (k : Z) (n : nat) : nat :=
if (k <? 0)%Z then n - Z.to_nat (- k) else Nat.min (Z.to_nat k) n.

(** ** MDT.random_masking *)

Section RandomMasking.
(** [rand n l]: the draw of [torch.rand(N, L)] at sample [n],
    position [l]. *)
Variable rand : nat -> nat -> Q.

(** [len_keep = int(L * (1 - mask_ratio))], in binary64. *)
Definition len_keep_of (L : nat) (mask_ratio : float64) : option Z :=
  int_of_float (float_mul (float_of_int (Z.of_nat L))
                          (float_sub (float_of_int 1) mask_ratio)).

Definition noise_row (n L : nat) : list Q := map (rand n) (seq 0 L).

Definition ids_shuffle (n L : nat) : list nat :=
  argsort Qle_bool (noise_row n L).

Definition ids_restore (n L : nat) : list nat :=
  argsort Nat.leb (ids_shuffle n L).

Definition ids_keep (n L : nat) (len_keep : Z) : list nat :=
  firstn (slice_stop len_keep L) (ids_shuffle n L).

(** [mask = ones([N, L]); mask[:, :len_keep] = 0], one row. *)
Definition mask_pattern (L : nat) (len_keep : Z) : list R :=
  repeat 0%R (slice_stop len_keep L) ++ repeat 1%R (L - slice_stop len_keep L).

(** One sample of [random_masking]: [(x_masked, mask, ids_restore, ids_keep)]. *)
Definition random_masking_row (L : nat) (len_keep : Z) (n : nat)
    (x : list (list R)) : option (list (list R) * list R * list nat * list nat) :=
  match gather x (ids_keep n L len_keep),
        gather (mask_pattern L len_keep) (ids_restore n L) with
  | Some x_masked, Some mask =>
      Some (x_masked, mask, ids_restore n L, ids_keep n L len_keep)
  | _, _ => None
  end.

(** [random_masking(x, mask_ratio)] on a batch [x : [N, L, D]]; the
    four results are kept per sample. *)
Definition random_masking (x : list (list (list R))) (mask_ratio : float64)
    : option (list (list (list R) * list R * list nat * list nat)) :=
  let L := length (hd [] x) in
  match len_keep_of L mask_ratio with
  | Some len_keep =>
      sequence (map (fun nx => random_masking_row L len_keep (fst nx) (snd nx))
                    (enumerate x))
  | None => None
  end.
End RandomMasking.


(** ** Results that may raise *)

Definition bind {A B : Type} (o : option A) (f : A -> option B) : option B :=
match o with
| Some a => f a
| None => None
end.

Notation "x <- e ;; k" := (bind e (fun x => k))
  (at level 61, e at next level, right associativity).
Notation "' p <- e ;; k" := (bind e (fun p => k))
  (at level 61, p pattern, e at next level, right associativity).

(** Element-wise combination of two sequences along one axis with the
    broadcasting rule of the tensor library: equal sizes pair up, a
    size-one operand is repeated, anything else raises. *)
Definition broadcast2 {A B C : Type} (f : A -> B -> C) (a : list A) (b : list B)
    : option (list C) :=
if length a =? length b then Some (map (fun ab => f (fst ab) (snd ab)) (combine a b))
else match a, b with
     | [x], _ => Some (map (f x) b)
     | _, [y] => Some (map (fun x => f x y) a)
     | _, _ => None
     end.

(** Two vectors, element by element. *)
Definition vec_op (f : R -> R -> R) (u v : list R) : option (list R) :=
broadcast2 f u v.

(** Two [[L, D]] matrices, element by element, broadcasting on both axes. *)
Definition mat_op (f : R -> R -> R) (a b : list (list R)) : option (list (list R)) :=
rows <- broadcast2 (vec_op f) a b ;; sequence rows.

(** Pairing of two batches sample by sample; batch sizes must agree. *)
Definition zip_batch {A B : Type} (a : list A) (b : list B) : option (list (A * B)) :=
if length a =? length b then Some (combine a b) else None.

(** ** RelativePositionBias *)

Record RelativePositionBias : Type := {
  window_size : nat * nat;
  num_relative_distance : Z;
  relative_position_bias_table : list (list R);
  relative_position_index : list (list Z)
}.

(** [torch.flatten(torch.stack(torch.meshgrid([arange(h), arange(w)])), 1)]:
    for every token of the [h x w] grid, row-major, its grid row and its
    grid column. *)
Definition coords_flatten (h w : nat) : list (Z * Z) :=
flat_map (fun a => map (fun b => (Z.of_nat a, Z.of_nat b)) (seq 0 w)) (seq 0 h).

(** [coords_flatten[:, :, None] - coords_flatten[:, None, :]], permuted to
    [[i][j][axis]]. *)
Definition relative_coords (h w : nat) : list (list (Z * Z)) :=
map (fun ci => map (fun cj => (fst ci - fst cj, snd ci - snd cj)%Z)
                   (coords_flatten h w))
    (coords_flatten h w).

(** The three in-place updates of [relative_coords] followed by
    [sum(-1)]. *)
Definition build_relative_position_index (h w : nat) : list (list Z) :=
let Wh := Z.of_nat h in
let Ww := Z.of_nat w in
map (map (fun rc =>
       let r0 := (fst rc + (Wh - 1))%Z in
       let r1 := (snd rc + (Ww - 1))%Z in
       let r0 := (r0 * (2 * Ww - 1))%Z in
       (r0 + r1)%Z))
    (relative_coords h w).

(** [__init__]: [table_values r k] is the entry of row [r], head [k] of
    the learned table (any values: the truncated-normal start and every
    later training step keep the table's shape). *)
Definition RelativePositionBias_init (window : nat * nat) (num_heads : nat)
    (table_values : nat -> nat -> R) : RelativePositionBias :=
let nrd := ((2 * Z.of_nat (fst window) - 1) * (2 * Z.of_nat (snd window) - 1) + 3)%Z in
{| window_size := window;
   num_relative_distance := nrd;
   relative_position_bias_table :=
     map (fun r => map (table_values r) (seq 0 num_heads)) (seq 0 (Z.to_nat nrd));
   relative_position_index :=
     build_relative_position_index (fst window) (snd window) |}.

(** Row [i] of a table under tensor indexing: a negative index counts
    from the end, an index outside the table raises. *)
Definition table_row (table : list (list R)) (i : Z) : option (list R) :=
if (i <? 0)%Z
then (if (- i <=? Z.of_nat (length table))%Z
      then nth_error table (length table - Z.to_nat (- i)) else None)
else nth_error table (Z.to_nat i).

(** [permute(2, 0, 1)] of an [[L, L, nH]] tensor: heads first. *)
Definition heads_first (nH : nat) (t : list (list (list R))) : list (list (list R)) :=
map (fun k => map (map (fun entry => nth k entry 0%R)) t) (seq 0 nH).

(** [RelativePositionBias.forward]: the table rows picked by the fixed
    index, laid out [[nH, L, L]].  [view(L, L, -1)] cannot infer the last
    axis of an empty tensor and raises. *)
Definition RelativePositionBias_forward (rpb : RelativePositionBias)
    : option (list (list (list R))) :=
let L := (fst (window_size rpb) * snd (window_size rpb))%nat in
let nH := length (hd [] (relative_position_bias_table rpb)) in
picked <- sequence (map (fun row =>
            sequence (map (table_row (relative_position_bias_table rpb)) row))
            (relative_position_index rpb)) ;;
if (L * L * nH =? 0)%nat then None else Some (heads_first nH picked).

(** [torch.gather(src, dim=2, index)] with the index built from
    [ids_keep]: sample [b], head [k] keeps the rows listed in
    [ids_keep[b]]. *)
Definition gather_dim2 (src : list (list (list (list R)))) (ids_keep : list (list nat))
    : option (list (list (list (list R)))) :=
sequence (map (fun sb => sequence (map (fun m => gather m (snd sb)) (fst sb)))
              (combine src ids_keep)).

(** [torch.gather(src, dim=3, index)]: every kept row keeps the columns
    listed in [ids_keep[b]]. *)
Definition gather_dim3 (src : list (list (list (list R)))) (ids_keep : list (list nat))
    : option (list (list (list (list R)))) :=
sequence (map (fun sb =>
            sequence (map (fun m => sequence (map (fun row => gather row (snd sb)) m))
                          (fst sb)))
              (combine src ids_keep)).

(** [Attention.get_masked_rel_bias(B, ids_keep)].  The index tensor may
    not have more samples than the repeated bias. *)
Definition get_masked_rel_bias (rpb : RelativePositionBias) (B : nat)
    (ids_keep : list (list nat)) : option (list (list (list (list R)))) :=
bias <- RelativePositionBias_forward rpb ;;
let rel_pos_bias := repeat bias B in
if (length ids_keep <=? B)%nat then
  masked <- gather_dim2 rel_pos_bias ids_keep ;;
  gather_dim3 masked ids_keep
else None.

(** Replacement of the learned table of an instance. *)
Definition with_table (rpb : RelativePositionBias) (t : list (list R))
    : RelativePositionBias :=
{| window_size := window_size rpb;
   num_relative_distance := num_relative_distance rpb;
   relative_position_bias_table := t;
   relative_position_index := relative_position_index rpb |}.

(** Number of table rows the index can address. *)
Definition addressed_rows (h w : nat) : nat :=
Z.to_nat ((2 * Z.of_nat h - 1) * (2 * Z.of_nat w - 1)).

(** ** LabelEmbedder *)

Record LabelEmbedder : Type := {
  embedding_table : list (list R);
  num_classes : Z;
  dropout_prob : Q
}.

(** [__init__]: one more table row (the null class) exactly when
    [dropout_prob > 0]. *)
Definition LabelEmbedder_init (n_classes : nat) (hidden : nat) (p : Q)
    (table_values : nat -> nat -> R) : LabelEmbedder :=
let use_cfg_embedding := if Qle_bool p 0 then 0 else 1 in
{| embedding_table :=
     map (fun r => map (table_values r) (seq 0 hidden))
         (seq 0 (n_classes + use_cfg_embedding));
   num_classes := Z.of_nat n_classes;
   dropout_prob := p |}.

(** [torch.where(drop_ids, num_classes, labels)]. *)
Definition where_drop (drop_ids : list bool) (null_class : Z) (labels : list Z)
    : option (list Z) :=
broadcast2 (fun (d : bool) (l : Z) => if d then null_class else l) drop_ids labels.

(** [token_drop]: [draw i] is entry [i] of [torch.rand(labels.shape[0])]. *)
Definition token_drop (le : LabelEmbedder) (draw : nat -> Q) (labels : list Z)
    (force_drop_ids : option (list Z)) : option (list Z) :=
let drop_ids :=
  match force_drop_ids with
  | None => map (fun i => negb (Qle_bool (dropout_prob le) (draw i)))
                (seq 0 (length labels))
  | Some ids => map (fun v => (v =? 1)%Z) ids
  end in
where_drop drop_ids (num_classes le) labels.

(** The labels [forward] hands to the embedding table. *)
Definition LabelEmbedder_labels (le : LabelEmbedder) (draw : nat -> Q)
    (labels : list Z) (train : bool) (force_drop_ids : option (list Z))
    : option (list Z) :=
let use_dropout := negb (Qle_bool (dropout_prob le) 0) in
if (train && use_dropout) || (match force_drop_ids with Some _ => true | None => false end)
then token_drop le draw labels force_drop_ids
else Some labels.

(** [nn.Embedding] lookup: a label outside the table raises. *)
Definition embedding (table : list (list R)) (label : Z) : option (list R) :=
if (label <? 0)%Z then None else nth_error table (Z.to_nat label).

(** [LabelEmbedder.forward]. *)
Definition LabelEmbedder_forward (le : LabelEmbedder) (draw : nat -> Q)
    (labels : list Z) (train : bool) (force_drop_ids : option (list Z))
    : option (list (list R)) :=
labels' <- LabelEmbedder_labels le draw labels train force_drop_ids ;;
sequence (map (embedding (embedding_table le)) labels').

(** ** Layers *)

Definition tokens : Type := list (list R).
Definition image : Type := list (list (list R)).

(** [nn.Linear]: [weight] is [[out_features, in_features]]. *)
Record Linear : Type := {
  in_features : nat;
  weight : list (list R);
  bias : list R
}.

Definition dot (w x : list R) : R :=
fold_right Rplus 0%R (map (fun wx => (fst wx * snd wx)%R) (combine w x)).

(** [F.linear] on one vector; a vector of the wrong width raises. *)
Definition linear (l : Linear) (x : list R) : option (list R) :=
if length x =? in_features l
then Some (map (fun wb => (dot (fst wb) x + snd wb)%R) (combine (weight l) (bias l)))
else None.

(** [nn.init.constant_(weight, 0); nn.init.constant_(bias, 0)]. *)
Definition zero_out (l : Linear) : Linear :=
{| in_features := in_features l;
   weight := map (map (fun _ => 0%R)) (weight l);
   bias := map (fun _ => 0%R) (bias l) |}.

(** A linear layer after [_basic_init]: Xavier values [w], zero bias. *)
Definition Linear_init (n_in n_out : nat) (w : nat -> nat -> R) : Linear :=
{| in_features := n_in;
   weight := map (fun o => map (w o) (seq 0 n_in)) (seq 0 n_out);
   bias := repeat 0%R n_out |}.

Definition silu (v : R) : R := (v / (1 + exp (- v)))%R.

Definition mean (x : list R) : R := (fold_right Rplus 0 x / INR (length x))%R.

(** [nn.LayerNorm(elementwise_affine=False, eps=1e-6)] on one token. *)
Definition layer_norm (x : list R) : list R :=
let mu := mean x in
let var := mean (map (fun v => ((v - mu) * (v - mu))%R) x) in
map (fun v => ((v - mu) / sqrt (var + / 1000000))%R) x.

(** [chunk(2, dim=1)] unpacked into two names: a width of one gives a
    single chunk and the unpacking raises. *)
Definition chunk2 (v : list R) : option (list R * list R) :=
let s := (length v + 1) / 2 in
if length v =? 1 then None else Some (firstn s v, skipn s v).

(** [modulate(x, shift, scale)] on one sample. *)
Definition modulate (x : tokens) (shift scale : list R) : option tokens :=
sequence (map (fun tok =>
  scaled <- vec_op Rmult tok (map (fun s => (1 + s)%R) scale) ;;
  vec_op Rplus scaled shift) x).

Record FinalLayer : Type := {
  fl_linear : Linear;
  fl_adaLN_modulation : Linear
}.

(** [FinalLayer.forward] on one sample. *)
Definition FinalLayer_forward (fl : FinalLayer) (x : tokens) (c : list R) : option tokens :=
mods <- linear (fl_adaLN_modulation fl) (map silu c) ;;
'(shift, scale) <- chunk2 mods ;;
x <- modulate (map layer_norm x) shift scale ;;
sequence (map (linear (fl_linear fl)) x).

(** A transformer block on one sample: tokens, conditioning vector and
    the optional kept-token indices.  Its attention and feed-forward
    networks are not unfolded here. *)
Definition MDTBlock : Type := tokens -> list R -> option (list nat) -> option tokens.

(** ** MDT *)

Record MDT : Type := {
  learn_sigma : bool;
  in_channels : nat;
  out_channels : nat;
  patch_size : nat;
  num_heads : nat;
  x_embedder : image -> option tokens;
  num_patches : nat;
  t_embedder : R -> option (list R);
  y_embedder : LabelEmbedder;
  pos_embed : tokens;
  blocks : list MDTBlock;
  sideblocks : list MDTBlock;
  final_layer : FinalLayer;
  decoder_pos_embed : tokens;
  mask_token : list R;
  mask_ratio : option float64;
  decode_layer : Z;
  training : bool
}.

(** The random draws of one forward call. *)
Record Rng : Type := {
  label_draw : nat -> Q;
  noise_draw : nat -> nat -> Q
}.

(** [unpatchify] on one sample:
    [imgs[c][h*p + i][w*p + j] = x[h*w_grid + w][(i*p + j)*C + c]]. *)
Definition unpatchify (m : MDT) (x : tokens) : option image :=
let c := out_channels m in
let p := patch_size m in
let h := Nat.sqrt (length x) in
if negb (h * h =? length x) then None
else if negb (forallb (fun tok => length tok =? p * p * c) x) then None
else Some (map (fun ch =>
       map (fun row =>
         map (fun col =>
           nth ((row mod p * p + col mod p) * c + ch)
               (nth (row / p * h + col / p) x []) 0%R)
           (seq 0 (h * p)))
         (seq 0 (h * p)))
       (seq 0 c)).

(** [torch.cat([a, b], dim=1)] on one sample; token widths must agree. *)
Definition cat_tokens (a b : tokens) : option tokens :=
match a, b with
| ta :: _, tb :: _ => if length ta =? length tb then Some (a ++ b) else None
| _, _ => Some (a ++ b)
end.

(** [for sideblock in self.sideblocks: x = sideblock(x, c, ids_keep=None)]. *)
Definition run_sideblocks (bs : list MDTBlock) (x : tokens) (c : list R) : option tokens :=
fold_left (fun acc sideblock => x <- acc ;; sideblock x c None) bs (Some x).

(** The value entering the side block: mask tokens appended, tokens put
    back in grid order, decoder position embedding added. *)
Definition side_input (m : MDT) (x : tokens) (ids_restore : list nat) : option tokens :=
if length ids_restore <? length x then None
else
  let mask_tokens := repeat (mask_token m) (length ids_restore - length x) in
  x_ <- cat_tokens x mask_tokens ;;
  x <- gather x_ ids_restore ;;
  mat_op Rplus x (decoder_pos_embed m).

(** [x * mask + (1 - mask) * x_before], with [mask] unsqueezed on the
    feature axis. *)
Definition masked_shortcut (x x_before : tokens) (mask : list R) : option tokens :=
let mask := map (fun v => [v]) mask in
a <- mat_op Rmult x mask ;;
b <- mat_op Rmult (map (map (fun v => (1 - v)%R)) mask) x_before ;;
mat_op Rplus a b.

(** [forward_side_interpolater] on one sample. *)
Definition forward_side_interpolater (m : MDT) (x : tokens) (c : list R)
    (mask : list R) (ids_restore : list nat) : option tokens :=
x <- side_input m x ids_restore ;;
let x_before := x in
x <- run_sideblocks (sideblocks m) x c ;;
masked_shortcut x x_before mask.

(** One turn of the loop over [self.blocks] on one sample; the state is
    the token sequence and [masked_stage]. *)
Definition block_step (m : MDT) (masking : bool) (c mask : list R)
    (ids_restore ids_keep : list nat)
    (st : option (tokens * bool)) (ib : nat * MDTBlock) : option (tokens * bool) :=
'(x, masked_stage) <- st ;;
'(x, masked_stage) <-
  (if (Z.of_nat (fst ib) =? Z.of_nat (length (blocks m)) - decode_layer m)%Z
   then if masking
        then x <- forward_side_interpolater m x c mask ids_restore ;; Some (x, false)
        else x <- mat_op Rplus x (decoder_pos_embed m) ;; Some (x, masked_stage)
   else Some (x, masked_stage)) ;;
x <- snd ib x c (if masked_stage then Some ids_keep else None) ;;
Some (x, masked_stage).

Definition run_blocks (m : MDT) (masking : bool) (x : tokens) (c mask : list R)
    (ids_restore ids_keep : list nat) : option tokens :=
st <- fold_left (block_step m masking c mask ids_restore ids_keep)
                (enumerate (blocks m)) (Some (x, masking)) ;;
Some (fst st).

(** [MDT.forward(x, t, y, enable_mask)]. *)
Definition forward (m : MDT) (rng : Rng) (x : list image) (t : list R) (y : list Z)
    (enable_mask : bool) : option (list image) :=
x <- sequence (map (fun img => e <- x_embedder m img ;; mat_op Rplus e (pos_embed m)) x) ;;
t <- sequence (map (t_embedder m) t) ;;
y <- LabelEmbedder_forward (y_embedder m) (label_draw rng) y (training m) None ;;
c <- mat_op Rplus t y ;;
let masking := match mask_ratio m with Some _ => enable_mask | None => false end in
samples <- match mask_ratio m with
           | Some r =>
               if enable_mask then random_masking (noise_draw rng) x r
               else Some (map (fun x => (x, [], [], [])) x)
           | None => Some (map (fun x => (x, [], [], [])) x)
           end ;;
paired <- broadcast2 (fun s c => (s, c)) samples c ;;
x <- sequence (map (fun sc =>
       match sc with
       | ((x, mask, ids_restore, ids_keep), c) =>
           x <- run_blocks m masking x c mask ids_restore ids_keep ;;
           x <- FinalLayer_forward (final_layer m) x c ;;
           unpatchify m x
       end) paired) ;;
Some x.

(** ** Classifier-free guidance *)

(** Element-wise combination of two tensors of one shape. *)
Definition zip_with {A B C : Type} (f : A -> B -> C) (a : list A) (b : list B) : list C :=
map (fun ab => f (fst ab) (snd ab)) (combine a b).

(** [uncond + scale * (cond - uncond)] on one sample. *)
Definition extrapolate (scale : R) (cond uncond : image) : image :=
zip_with (zip_with (zip_with (fun c u => (u + scale * (c - u))%R))) cond uncond.

(** The same expression on one entry as the tensor library evaluates
    it in its default type, binary32: 24 bits of precision, exponents
    below 128, every operation rounded to nearest with ties to even. *)
Definition float32 : Type := spec_float.

(** The binary32 number nearest to [m * 2 ^ e]. *)
Definition float32_of (m e : Z) : float32 := binary_normalize 24 128 m e false.

Definition extrapolate_float32 (scale cond uncond : float32) : float32 :=
SFadd 24 128 uncond (SFmul 24 128 scale (SFsub 24 128 cond uncond)).

(** [a, b = torch.split(l, len(l) // 2, dim=0)]: exactly two chunks come
    out only for a non-empty batch of even size. *)
Definition split_halves {A : Type} (l : list A) : option (list A * list A) :=
let k := length l / 2 in
if (0 <? k) && (length l =? 2 * k) then Some (firstn k l, skipn k l) else None.

(** [torch.cat([eps, rest], dim=1)]. *)
Definition cat_channels (eps rest : list image) : option (list image) :=
er <- zip_batch eps rest ;;
Some (map (fun p => fst p ++ snd p) er).

Section Guidance.
(** The element-wise power [**] of the tensor library. *)
Variable tensor_pow : R -> R -> R.

Definition scale_step (t diffusion_steps scale_pow : R) : R :=
((1 - cos (tensor_pow (1 - t / diffusion_steps) scale_pow * PI)) * 1 / 2)%R.

Definition real_cfg_scale (cfg_scale t diffusion_steps scale_pow : R) : R :=
((cfg_scale - 1) * scale_step t diffusion_steps scale_pow + 1)%R.

(** The body of [forward_with_cfg] with the channel index of the split
    as a parameter [k]. *)
Definition guidance_at (k : nat) (m : MDT) (rng : Rng) (x : list image) (t : list R)
    (y : list Z) (cfg_scale : option R) (diffusion_steps scale_pow : R)
    : option (list image) :=
match cfg_scale with
| Some cfg_scale =>
    let half := firstn (length x / 2) x in
    let combined := half ++ half in
    model_out <- forward m rng combined t y false ;;
    let eps := map (firstn k) model_out in
    let rest := map (skipn k) model_out in
    '(cond_eps, uncond_eps) <- split_halves eps ;;
    let real_cfg_scale :=
      firstn (length x / 2)
             (map (fun ti => real_cfg_scale cfg_scale ti diffusion_steps scale_pow) t) in
    half_eps <- broadcast2 (fun s cu => extrapolate s (fst cu) (snd cu))
                           real_cfg_scale (combine cond_eps uncond_eps) ;;
    let eps := half_eps ++ half_eps in
    cat_channels eps rest
| None =>
    model_out <- forward m rng x t y false ;;
    let eps := map (firstn k) model_out in
    let rest := map (skipn k) model_out in
    cat_channels eps rest
end.

(** [MDT.forward_with_cfg]: the source slices at the literal channel
    index [3] in both branches. *)
Definition forward_with_cfg := guidance_at 3.

(** The split as the specification words it: at [in_channels]. *)
Definition forward_with_cfg_spec (m : MDT) := guidance_at (in_channels m) m.
End Guidance.

(** ** Sine/cosine position embeddings *)

(** [get_1d_sincos_pos_embed_from_grid]; an odd [embed_dim] fails the
    assertion. *)
Definition get_1d_sincos_pos_embed_from_grid (embed_dim : nat) (pos : list R)
    : option tokens :=
if negb (embed_dim mod 2 =? 0) then None
else
  let omega := map (fun i => (1 / Rpower 10000 (INR i / (INR embed_dim / 2)))%R)
                   (seq 0 (embed_dim / 2)) in
  Some (map (fun p => map (fun o => sin (p * o)) omega ++ map (fun o => cos (p * o)) omega)
            pos).

Definition get_2d_sincos_pos_embed_from_grid (embed_dim : nat) (grid : list R * list R)
    : option tokens :=
if negb (embed_dim mod 2 =? 0) then None
else
  emb_h <- get_1d_sincos_pos_embed_from_grid (embed_dim / 2) (fst grid) ;;
  emb_w <- get_1d_sincos_pos_embed_from_grid (embed_dim / 2) (snd grid) ;;
  Some (zip_with (@app R) emb_h emb_w).

(** [get_2d_sincos_pos_embed(embed_dim, grid_size)]: [np.meshgrid] puts
    the column coordinate first. *)
Definition get_2d_sincos_pos_embed (embed_dim grid_size : nat) : option tokens :=
let grid0 := flat_map (fun _ => map INR (seq 0 grid_size)) (seq 0 grid_size) in
let grid1 := flat_map (fun i => repeat (INR i) grid_size) (seq 0 grid_size) in
get_2d_sincos_pos_embed_from_grid embed_dim (grid0, grid1).

(** ** Attention.__init__ *)

Record Attention : Type := {
  attn_num_heads : nat;
  attn_head_dim : nat;
  rel_pos_bias : RelativePositionBias
}.

(** [Attention.__init__]: [dim // num_heads] raises on a zero head
    count and [head_dim ** -0.5] raises on a zero [head_dim]; nothing
    else about the two numbers is examined. *)
Definition Attention_init (dim heads n_patches : nat) (table_values : nat -> nat -> R)
    : option Attention :=
if heads =? 0 then None
else
  let head_dim := dim / heads in
  if head_dim =? 0 then None
  else Some {| attn_num_heads := heads;
               attn_head_dim := head_dim;
               rel_pos_bias :=
                 RelativePositionBias_init (Nat.sqrt n_patches, Nat.sqrt n_patches)
                                           heads table_values |}.

(** ** TimestepEmbedder *)

(** [TimestepEmbedder.timestep_embedding(t, dim, max_period)]: cosines,
    then sines, of [t] times [half] geometric frequencies, and one zero
    column (a copy of the shape of [embedding[:, :1]]) for an odd
    [dim].  [math.log] raises on a non-positive [max_period]. *)
Definition timestep_embedding (t : list R) (dim : nat) (max_period : R) : option tokens :=
if Rle_dec max_period 0 then None
else
  let half := dim / 2 in
  let freqs := map (fun k => exp (- ln max_period * INR k / INR half)%R) (seq 0 half) in
  Some (map (fun ti =>
          let args := map (fun f => (ti * f)%R) freqs in
          let embedding := map cos args ++ map sin args in
          if negb (dim mod 2 =? 0)
          then embedding ++ map (fun _ => 0%R) (firstn 1 embedding)
          else embedding) t).

(** The two linear layers of [self.mlp] (a SiLU sits between them). *)
Record TimestepEmbedder : Type := {
  mlp_0 : Linear;
  mlp_2 : Linear;
  frequency_embedding_size : nat
}.

(** [TimestepEmbedder.forward(t)]. *)
Definition TimestepEmbedder_forward (te : TimestepEmbedder) (t : list R) : option tokens :=
t_freq <- timestep_embedding t (frequency_embedding_size te) 10000%R ;;
sequence (map (fun row => h <- linear (mlp_0 te) row ;; linear (mlp_2 te) (map silu h))
              t_freq).

(** The embedder on the timestep of one sample. *)
Definition TimestepEmbedder_forward_one (te : TimestepEmbedder) (ti : R) : option (list R) :=
emb <- TimestepEmbedder_forward te [ti] ;; hd_error emb.

(** ** Attention.forward *)

(** The two linear layers of [Attention] ([qkv] has a bias inside an
    [MDTBlock]). *)
Record AttentionWeights : Type := {
  qkv : Linear;
  proj : Linear
}.

(** [softmax(dim=-1)] on one row. *)
Definition softmax (row : list R) : list R :=
let z := fold_right Rplus 0%R (map exp row) in
map (fun v => (exp v / z)%R) row.

(** The in-place [a += b] along one axis: [b] has the size of [a] or
    size one; [a] keeps its size. *)
Definition iadd_axis {A B : Type} (f : A -> B -> option A) (a : list A) (b : list B)
    : option (list A) :=
if length b =? length a
then sequence (map (fun ab => f (fst ab) (snd ab)) (combine a b))
else match b with
     | [y] => sequence (map (fun x => f x y) a)
     | _ => None
     end.

(** [attn += rp_bias] on one sample: both are [[heads, rows, columns]]. *)
Definition iadd_bias (attn rp_bias : list (list (list R))) : option (list (list (list R))) :=
iadd_axis (iadd_axis (iadd_axis (fun u v => Some (u + v)%R))) attn rp_bias.

(** [self.scale = head_dim ** -0.5]. *)
Definition attn_scale (a : Attention) : R := Rpower (INR (attn_head_dim a)) (- (1 / 2)).

(** [Attention.forward(x, ids_keep)] on one sample [x : [N, C]].
    [reshape(B, N, 3, num_heads, C // num_heads)] raises unless the
    element count is kept; entry [(s, h, d)] of a reshaped row sits at
    [(s * num_heads + h) * head_dim + d].  With [ids_keep] the bias of
    the sample is its slice of [get_masked_rel_bias], computed here for
    a batch of this one sample.  The two dropouts have rate zero. *)
Definition Attention_forward (a : Attention) (w : AttentionWeights) (x : tokens)
    (ids_keep : option (list nat)) : option tokens :=
let N := length x in
let C := length (hd [] x) in
let nH := attn_num_heads a in
if nH =? 0 then None
else
  let head_dim := C / nH in
  rows <- sequence (map (linear (qkv w)) x) ;;
  if negb (forallb (fun r => length r =? 3 * nH * head_dim) rows) then None
  else
    let part (s h : nat) :=
      map (fun r => firstn head_dim (skipn ((s * nH + h) * head_dim) r)) rows in
    let attn :=
      map (fun h => map (fun qi => map (fun kj => (dot qi kj * attn_scale a)%R) (part 1 h))
                        (part 0 h))
          (seq 0 nH) in
    rp_bias <- match ids_keep with
               | Some ids =>
                   b <- get_masked_rel_bias (rel_pos_bias a) 1 [ids] ;; hd_error b
               | None => RelativePositionBias_forward (rel_pos_bias a)
               end ;;
    attn <- iadd_bias attn rp_bias ;;
    let attn := map (map softmax) attn in
    let out :=
      map (fun ha =>
             map (fun arow =>
                    map (fun d => dot arow (map (fun vj => nth d vj 0%R) (part 2 (fst ha))))
                        (seq 0 head_dim))
                 (snd ha))
          (combine (seq 0 nH) attn) in
    let merged := map (fun i => flat_map (fun oh => nth i oh []) out) (seq 0 N) in
    sequence (map (linear (proj w)) merged).

(** ** MDTBlock.forward *)

(** [tensor.chunk(chunks, dim=1)] on one row: pieces of
    [ceil(n / chunks)] entries, as many as are needed; an empty row
    gives [chunks] empty pieces. *)
Definition chunk (chunks : nat) (v : list R) : list (list R) :=
let n := length v in
let s := (n + chunks - 1) / chunks in
if n =? 0 then repeat [] chunks
else map (fun i => firstn s (skipn (i * s) v)) (seq 0 ((n + s - 1) / s)).

(** The parts of one [MDTBlock]; the feed-forward network [Mlp] of the
    [timm] library is a function on one sample. *)
Record MDTBlockLayers : Type := {
  blk_hidden_size : nat;
  blk_attn : Attention;
  blk_attn_weights : AttentionWeights;
  blk_mlp : tokens -> option tokens;
  blk_adaLN_modulation : Linear
}.

(** [nn.LayerNorm(hidden_size)] on every token of one sample: a token
    of another width raises. *)
Definition norm_tokens (hidden_size : nat) (x : tokens) : option tokens :=
if forallb (fun tok => length tok =? hidden_size) x then Some (map layer_norm x) else None.

(** [MDTBlock.forward(x, c, ids_keep)] on one sample. *)
Definition MDTBlock_forward (b : MDTBlockLayers) : MDTBlock :=
fun x c ids_keep =>
  mods <- linear (blk_adaLN_modulation b) (map silu c) ;;
  match chunk 6 mods with
  | [shift_msa; scale_msa; gate_msa; shift_mlp; scale_mlp; gate_mlp] =>
      n1 <- norm_tokens (blk_hidden_size b) x ;;
      h <- modulate n1 shift_msa scale_msa ;;
      h <- Attention_forward (blk_attn b) (blk_attn_weights b) h ids_keep ;;
      h <- mat_op Rmult [gate_msa] h ;;
      x <- mat_op Rplus x h ;;
      n2 <- norm_tokens (blk_hidden_size b) x ;;
      h <- modulate n2 shift_mlp scale_mlp ;;
      h <- blk_mlp b h ;;
      h <- mat_op Rmult [gate_mlp] h ;;
      mat_op Rplus x h
  | _ => None
  end.

(** [initialize_weights] on one block:
    [constant_(block.adaLN_modulation[-1].weight, 0)] and the same for
    its bias. *)
Definition zero_adaLN (b : MDTBlockLayers) : MDTBlockLayers :=
{| blk_hidden_size := blk_hidden_size b;
   blk_attn := blk_attn b;
   blk_attn_weights := blk_attn_weights b;
   blk_mlp := blk_mlp b;
   blk_adaLN_modulation := zero_out (blk_adaLN_modulation b) |}.

(** ** MDT.__init__ *)

(** The constructor arguments of [MDT]. *)
Record Config : Type := {
  cfg_input_size : nat;
  cfg_patch_size : nat;
  cfg_in_channels : nat;
  cfg_hidden_size : nat;
  cfg_depth : nat;
  cfg_num_heads : nat;
  cfg_mlp_ratio : Q;
  cfg_class_dropout_prob : Q;
  cfg_num_classes : nat;
  cfg_learn_sigma : bool;
  cfg_mask_ratio : option float64;
  cfg_decode_layer : option Z
}.

(** The parameter tensors that construction fills with random draws.
    The flag tells the side block from the blocks of the main stack,
    the number is the index of the block. *)
Inductive Param : Type :=
| P_t_mlp_0
| P_t_mlp_2
| P_embedding_table
| P_mask_token
| P_qkv (side : bool) (k : nat)
| P_proj (side : bool) (k : nat)
| P_rel_pos_table (side : bool) (k : nat)
| P_adaLN (side : bool) (k : nat)
| P_final_linear
| P_final_adaLN.

(** What construction draws or borrows from the libraries: the patch
    embedding ([PatchEmbed] of [timm]) as a function of one image, the
    feed-forward network ([Mlp] of [timm]) of every block as a function
    of one sample, and the value that the random initializers put at
    row [r], column [c] of every other parameter tensor. *)
Record Initializer : Type := {
  patch_embed : image -> option tokens;
  mlp_forward : bool -> nat -> tokens -> option tokens;
  initial_values : Param -> nat -> nat -> R
}.

(** Modelled from the spec: the patch embedding of the [timm] library is
    not in the repository; its token count is the square of the grid
    size "derived from input resolution / patch size". *)
Definition PatchEmbed_num_patches (input_size patch : nat) : option nat :=
if patch =? 0 then None
else Some ((input_size / patch) * (input_size / patch)).

(** [Mlp(in_features, hidden_features, ...)] of the [timm] library
    builds [nn.Linear(in_features, hidden_features)], which refuses a
    negative feature count; what the network computes is [fwd]. *)
Definition Mlp_init (hidden_features : Z) (fwd : tokens -> option tokens)
    : option (tokens -> option tokens) :=
if (hidden_features <? 0)%Z then None else Some fwd.

(** [MDTBlock.__init__] followed by [_basic_init]: the attention
    module, the feed-forward network of width
    [int(hidden_size * mlp_ratio)], and linear layers with Xavier
    weights and zero bias.  [mlp_ratio] is held by its exact value; for
    a ratio that is not negative the rounded product is not negative
    either, and the network is built. *)
Definition MDTBlock_init (ini : Initializer) (side : bool) (k : nat)
    (hidden heads : nat) (mlp_ratio : Q) (n_patches : nat) : option MDTBlockLayers :=
attn <- Attention_init hidden heads n_patches (initial_values ini (P_rel_pos_table side k)) ;;
let mlp_hidden_dim := py_int (inject_Z (Z.of_nat hidden) * mlp_ratio)%Q in
mlp <- Mlp_init mlp_hidden_dim (mlp_forward ini side k) ;;
Some {| blk_hidden_size := hidden;
        blk_attn := attn;
        blk_attn_weights :=
          {| qkv := Linear_init hidden (hidden * 3) (initial_values ini (P_qkv side k));
             proj := Linear_init hidden hidden (initial_values ini (P_proj side k)) |};
        blk_mlp := mlp;
        blk_adaLN_modulation :=
          Linear_init hidden (6 * hidden) (initial_values ini (P_adaLN side k)) |}.

(** [TimestepEmbedder.__init__] with the default
    [frequency_embedding_size = 256]. *)
Definition TimestepEmbedder_init (ini : Initializer) (hidden : nat) : TimestepEmbedder :=
{| mlp_0 := Linear_init 256 hidden (initial_values ini P_t_mlp_0);
   mlp_2 := Linear_init hidden hidden (initial_values ini P_t_mlp_2);
   frequency_embedding_size := 256 |}.

(** [MDT.__init__] followed by [initialize_weights], which zeroes the
    modulation layer of every block and the final layer.  A fresh
    module is in training mode. *)
Definition MDT_init (ini : Initializer) (cfg : Config) : option MDT :=
let hidden := cfg_hidden_size cfg in
let out_ch := if cfg_learn_sigma cfg then cfg_in_channels cfg * 2 else cfg_in_channels cfg in
n_patches <- PatchEmbed_num_patches (cfg_input_size cfg) (cfg_patch_size cfg) ;;
blks <- sequence (map (fun k => MDTBlock_init ini false k hidden (cfg_num_heads cfg)
                                  (cfg_mlp_ratio cfg) n_patches)
                      (seq 0 (cfg_depth cfg))) ;;
sblks <- sequence (map (fun k => MDTBlock_init ini true k hidden (cfg_num_heads cfg)
                                   (cfg_mlp_ratio cfg) n_patches)
                       (seq 0 1)) ;;
dl <- cfg_decode_layer cfg ;;
pe <- get_2d_sincos_pos_embed hidden (Nat.sqrt n_patches) ;;
dpe <- get_2d_sincos_pos_embed hidden (Nat.sqrt n_patches) ;;
Some {| learn_sigma := cfg_learn_sigma cfg;
        in_channels := cfg_in_channels cfg;
        out_channels := out_ch;
        patch_size := cfg_patch_size cfg;
        num_heads := cfg_num_heads cfg;
        x_embedder := patch_embed ini;
        num_patches := n_patches;
        t_embedder := TimestepEmbedder_forward_one (TimestepEmbedder_init ini hidden);
        y_embedder := LabelEmbedder_init (cfg_num_classes cfg) hidden
                        (cfg_class_dropout_prob cfg) (initial_values ini P_embedding_table);
        pos_embed := pe;
        blocks := map (fun b => MDTBlock_forward (zero_adaLN b)) blks;
        sideblocks := map (fun b => MDTBlock_forward (zero_adaLN b)) sblks;
        final_layer :=
          {| fl_linear :=
               zero_out (Linear_init hidden
                           (cfg_patch_size cfg * cfg_patch_size cfg * out_ch)
                           (initial_values ini P_final_linear));
             fl_adaLN_modulation :=
               zero_out (Linear_init hidden (2 * hidden)
                           (initial_values ini P_final_adaLN)) |};
        decoder_pos_embed := dpe;
        mask_token :=
          match cfg_mask_ratio cfg with
          | Some _ => map (initial_values ini P_mask_token 0) (seq 0 hidden)
          | None => repeat 0%R hidden
          end;
        mask_ratio := cfg_mask_ratio cfg;
        decode_layer := dl;
        training := true |}.

(** ** Shapes and well-behaved components *)

(** A token matrix with [T] rows of width [D]. *)
Definition shape2 (T D : nat) (x : tokens) : Prop :=
length x = T /\ Forall (fun tok => length tok = D) x.

(** A transformer block of a model with [L] grid positions and width
    [D]: on a sequence of width-[D] tokens, called either on all [L]
    positions without [ids_keep] or on a reduced sequence with one kept
    position (below [L]) per token, it returns a sequence of the same
    shape. *)
Definition block_ok (L D : nat) (b : MDTBlock) : Prop :=
forall (x : tokens) (c : list R) (ids : option (list nat)),
  Forall (fun tok => length tok = D) x ->
  length c = D ->
  match ids with
  | None => length x = L
  | Some k => length k = length x /\ Forall (fun i => i < L) k
  end ->
  exists x', b x c ids = Some x' /\ shape2 (length x) D x'.

(** The all-zero image of shape [[C, H, W]]. *)
Definition zeros_image (C H W : nat) : image :=
repeat (repeat (repeat 0%R W) H) C.

(** The masked shortcut on one token: [side * m + (1 - m) * before]. *)
Definition blend_row (side before : list R) (m : R) : list R :=
zip_with (fun s b => (s * m + (1 - m) * b)%R) side before.

(** An image of shape [[C, H, W]]. *)
Definition shape3 (C H W : nat) (img : image) : Prop :=
length img = C /\ Forall (shape2 H W) img.

(** The splice index [len(blocks) - decode_layer] of the block loop. *)
Definition splice_index (m : MDT) : Z :=
(Z.of_nat (length (blocks m)) - decode_layer m)%Z.

(** Whether the loop has passed the splice index before turn [a]. *)
Definition spliced_before (m : MDT) (a : nat) : bool :=
((0 <=? splice_index m) && (splice_index m <? Z.of_nat a))%Z.

(** State of the block loop before turn [a], for a sample that entered
    with [K] tokens: until the splice the sequence keeps its entry
    length and [masked_stage] its entry value; from the splice on the
    sequence has all [L] positions and [masked_stage] is off. *)
Definition loop_state_ok (m : MDT) (L D K : nat) (masking : bool) (a : nat)
    (st : tokens * bool) : Prop :=
if spliced_before m a
then snd st = false /\ shape2 L D (fst st)
else snd st = masking /\ shape2 (if masking then K else L) D (fst st).

(** Number of tokens per sample that reach the final layer of a model
    built from [cfg] with [decode_layer = dl], when masking keeps
    [len_keep] tokens: the kept tokens alone when masking is active and
    the splice index [depth - dl] lies outside the loop [0 .. depth-1],
    all grid positions otherwise. *)
Definition final_tokens (cfg : Config) (dl : Z) (enable_mask : bool) (len_keep : Z) : nat :=
let g := cfg_input_size cfg / cfg_patch_size cfg in
let spliced := ((1 <=? dl) && (dl <=? Z.of_nat (cfg_depth cfg)))%Z in
match cfg_mask_ratio cfg with
| Some _ =>
    if enable_mask && negb spliced
    then slice_stop len_keep (g * g)
    else g * g
| None => g * g
end.

(** ** Well-formed layers *)

(** A linear layer from [n_in] to [n_out] features. *)
Definition linear_shape (n_in n_out : nat) (l : Linear) : Prop :=
in_features l = n_in /\ length (weight l) = n_out /\ length (bias l) = n_out.

(** A block as [MDTBlock.__init__] builds it for width [D], [heads]
    heads and [n_patches] grid positions, with any values in its
    weights and a feed-forward network that keeps the shape of a
    sequence of width [D]. *)
Definition block_layers_ok (D heads n_patches : nat) (b : MDTBlockLayers) : Prop :=
blk_hidden_size b = D /\
(exists tv, Attention_init D heads n_patches tv = Some (blk_attn b)) /\
linear_shape D (3 * D) (qkv (blk_attn_weights b)) /\
linear_shape D D (proj (blk_attn_weights b)) /\
linear_shape D (6 * D) (blk_adaLN_modulation b) /\
(forall (T : nat) (h : tokens), shape2 T D h ->
   exists h', blk_mlp b h = Some h' /\ shape2 T D h').

(** What a successful construction stores. *)
Record MDT_fields (ini : Initializer) (cfg : Config) (dl : Z) (m : MDT)
    (pe : tokens) (blks sblks : list MDTBlockLayers) : Prop := {
  fields_pos_embed : pos_embed m = pe;
  fields_decoder_pos_embed : decoder_pos_embed m = pe;
  fields_pe_shape :
    shape2 (cfg_input_size cfg / cfg_patch_size cfg * (cfg_input_size cfg / cfg_patch_size cfg))
           (cfg_hidden_size cfg) pe;
  fields_blocks : blocks m = map (fun b => MDTBlock_forward (zero_adaLN b)) blks;
  fields_depth : length blks = cfg_depth cfg;
  fields_blks :
    Forall (fun b => exists k,
              MDTBlock_init ini false k (cfg_hidden_size cfg) (cfg_num_heads cfg)
                (cfg_mlp_ratio cfg)
                (cfg_input_size cfg / cfg_patch_size cfg
                 * (cfg_input_size cfg / cfg_patch_size cfg)) = Some b) blks;
  fields_sideblocks : sideblocks m = map (fun b => MDTBlock_forward (zero_adaLN b)) sblks;
  fields_sblks :
    Forall (fun b => exists k,
              MDTBlock_init ini true k (cfg_hidden_size cfg) (cfg_num_heads cfg)
                (cfg_mlp_ratio cfg)
                (cfg_input_size cfg / cfg_patch_size cfg
                 * (cfg_input_size cfg / cfg_patch_size cfg)) = Some b) sblks;
  fields_mask_ratio : mask_ratio m = cfg_mask_ratio cfg;
  fields_decode_layer : decode_layer m = dl;
  fields_x_embedder : x_embedder m = patch_embed ini;
  fields_t_embedder :
    t_embedder m = TimestepEmbedder_forward_one (TimestepEmbedder_init ini (cfg_hidden_size cfg));
  fields_y_embedder :
    y_embedder m = LabelEmbedder_init (cfg_num_classes cfg) (cfg_hidden_size cfg)
                     (cfg_class_dropout_prob cfg) (initial_values ini P_embedding_table);
  fields_training : training m = true;
  fields_out_channels :
    out_channels m = if cfg_learn_sigma cfg then cfg_in_channels cfg * 2
                     else cfg_in_channels cfg;
  fields_patch_size : patch_size m = cfg_patch_size cfg;
  fields_mask_token : length (mask_token m) = cfg_hidden_size cfg;
  fields_final_layer :
    final_layer m =
      {| fl_linear :=
           zero_out (Linear_init (cfg_hidden_size cfg)
                       (cfg_patch_size cfg * cfg_patch_size cfg
                        * (if cfg_learn_sigma cfg then cfg_in_channels cfg * 2
                           else cfg_in_channels cfg))
                       (initial_values ini P_final_linear));
         fl_adaLN_modulation :=
           zero_out (Linear_init (cfg_hidden_size cfg) (2 * cfg_hidden_size cfg)
                       (initial_values ini P_final_adaLN)) |};
  fields_num_heads : num_heads m = cfg_num_heads cfg
}.

(** ** Concrete instances *)

(** A small configuration: a [2 x 2] grid of one-pixel patches, width 4,
    two blocks, three quarters of the tokens masked, splice before the
    last block. *)
Definition small_cfg : Config :=
{| cfg_input_size := 2;
   cfg_patch_size := 1;
   cfg_in_channels := 1;
   cfg_hidden_size := 4;
   cfg_depth := 2;
   cfg_num_heads := 1;
   cfg_mlp_ratio := 4%Q;
   cfg_class_dropout_prob := (1 # 10)%Q;
   cfg_num_classes := 10;
   cfg_learn_sigma := false;
   cfg_mask_ratio := Some (float_lit 3 4);
   cfg_decode_layer := Some 1%Z |}.

(** The same configuration with [decode_layer = 0]: the splice index
    equals [depth] and is never reached by the loop. *)
Definition nosplice_cfg : Config :=
{| cfg_input_size := 2;
   cfg_patch_size := 1;
   cfg_in_channels := 1;
   cfg_hidden_size := 4;
   cfg_depth := 2;
   cfg_num_heads := 1;
   cfg_mlp_ratio := 4%Q;
   cfg_class_dropout_prob := (1 # 10)%Q;
   cfg_num_classes := 10;
   cfg_learn_sigma := false;
   cfg_mask_ratio := Some (float_lit 3 4);
   cfg_decode_layer := Some 0%Z |}.

(** A configuration that is invalid in every way the specification
    lists: [mask_ratio = 3/2], [decode_layer = 99] above [depth = 2],
    and 5 heads for a width of 12. *)
Definition invalid_cfg : Config :=
{| cfg_input_size := 2;
   cfg_patch_size := 1;
   cfg_in_channels := 1;
   cfg_hidden_size := 12;
   cfg_depth := 2;
   cfg_num_heads := 5;
   cfg_mlp_ratio := 4%Q;
   cfg_class_dropout_prob := (1 # 10)%Q;
   cfg_num_classes := 10;
   cfg_learn_sigma := false;
   cfg_mask_ratio := Some (float_lit 3 2);
   cfg_decode_layer := Some 99%Z |}.

(** The same with a negative [mask_ratio] and a negative
    [decode_layer]. *)
Definition negative_cfg : Config :=
{| cfg_input_size := 2;
   cfg_patch_size := 1;
   cfg_in_channels := 1;
   cfg_hidden_size := 12;
   cfg_depth := 2;
   cfg_num_heads := 5;
   cfg_mlp_ratio := 4%Q;
   cfg_class_dropout_prob := (1 # 10)%Q;
   cfg_num_classes := 10;
   cfg_learn_sigma := false;
   cfg_mask_ratio := Some (float_lit (-1) 2);
   cfg_decode_layer := Some (-1)%Z |}.

(** Library parts for the small configuration: an embedding that maps
    every image to four width-4 tokens, feed-forward networks that
    return their input, and the value one for every random draw. *)
Definition small_ini : Initializer :=
{| patch_embed := fun _ => Some (repeat (repeat 0%R 4) 4);
   mlp_forward := fun _ _ h => Some h;
   initial_values := fun _ _ _ => 1%R |}.

Definition small_rng : Rng :=
{| label_draw := fun _ => 1%Q;
   noise_draw := fun _ l => inject_Z (Z.of_nat l) |}.

Definition small_image : image := [[[1%R; 2%R]; [3%R; 4%R]]].

(** Four equal entries. *)
Definition row4 (v : R) : list R := [v; v; v; v].

(** A model on a [2 x 2] grid of width 4 whose side block adds 100 to
    every entry; the mask token is [7] in every feature and the decoder
    position embedding is zero. *)
Definition splice_model : MDT :=
{| learn_sigma := false;
   in_channels := 1;
   out_channels := 1;
   patch_size := 1;
   num_heads := 1;
   x_embedder := fun _ => Some (repeat (row4 0) 4);
   num_patches := 4;
   t_embedder := fun _ => Some (row4 0);
   y_embedder :=
     {| embedding_table := [row4 0; row4 0]; num_classes := 1; dropout_prob := (1 # 10)%Q |};
   pos_embed := repeat (row4 0) 4;
   blocks := [fun x _ _ => Some x];
   sideblocks := [fun x _ _ => Some (map (map (fun v => (v + 100)%R)) x)];
   final_layer :=
     {| fl_linear := {| in_features := 4; weight := [row4 0]; bias := [0%R] |};
        fl_adaLN_modulation :=
          {| in_features := 4; weight := repeat (row4 0) 8; bias := repeat 0%R 8 |} |};
   decoder_pos_embed := repeat (row4 0) 4;
   mask_token := row4 7;
   mask_ratio := Some (float_lit 3 4);
   decode_layer := 1;
   training := false |}.

(** Noise [0.9, 0.1, 0.5, 0.7]: position 1 ranks first. *)
Definition splice_noise (n l : nat) : Q :=
match l with
| 0 => (9 # 10)%Q
| 1 => (1 # 10)%Q
| 2 => (5 # 10)%Q
| _ => (7 # 10)%Q
end.

(** A model with one grid position, width 4 and four output channels
    ([in_channels = 4], no sigma) and one block that returns its input.
    Its label table holds the class [0] (embedded as zero) and the null
    class [1]; its final layer returns, in every channel, the SiLU of
    the first conditioning feature. *)
Definition guidance_model : MDT :=
{| learn_sigma := false;
   in_channels := 4;
   out_channels := 4;
   patch_size := 1;
   num_heads := 1;
   x_embedder := fun _ => Some [row4 0];
   num_patches := 1;
   t_embedder := fun _ => Some (row4 0);
   y_embedder :=
     {| embedding_table := [row4 0; [1%R; 0%R; 0%R; 0%R]];
        num_classes := 1;
        dropout_prob := (1 # 10)%Q |};
   pos_embed := [row4 0];
   blocks := [fun x _ _ => Some x];
   sideblocks := [fun x _ _ => Some x];
   final_layer :=
     {| fl_linear :=
          {| in_features := 4;
             weight := repeat [1%R; 0%R; 0%R; 0%R] 4;
             bias := row4 0 |};
        fl_adaLN_modulation :=
          {| in_features := 4;
             weight := repeat [1%R; 0%R; 0%R; 0%R] 4 ++ repeat (row4 0) 4;
             bias := repeat 0%R 8 |} |};
   decoder_pos_embed := [row4 0];
   mask_token := row4 0;
   mask_ratio := None;
   decode_layer := 1;
   training := false |}.

(** An image with four [1 x 1] channels. *)
Definition guidance_image : image := [[[1%R]]; [[2%R]]; [[3%R]]; [[4%R]]].

(** The image with the value [v] in each of four [1 x 1] channels. *)
Definition four_channels (v : R) : image := [[[v]]; [[v]]; [[v]]; [[v]]].

(** The power [x ** 1]. *)
Definition pow_one (x _ : R) : R := x.

(** ** Further concrete instances *)

(** The attention module of width 4 with two heads on a [2 x 2] grid,
    as [Attention.__init__] builds it, with a zero bias table. *)
Definition small_attention : Attention :=
{| attn_num_heads := 2;
   attn_head_dim := 2;
   rel_pos_bias := RelativePositionBias_init (2, 2) 2 (fun _ _ => 0%R) |}.

Definition small_attention_weights : AttentionWeights :=
{| qkv := Linear_init 4 12 (fun _ _ => 1%R);
   proj := Linear_init 4 4 (fun _ _ => 1%R) |}.

(** A block around [small_attention] whose weights are all one and
    whose feed-forward network returns its input. *)
Definition small_block : MDTBlockLayers :=
{| blk_hidden_size := 4;
   blk_attn := small_attention;
   blk_attn_weights := small_attention_weights;
   blk_mlp := fun h => Some h;
   blk_adaLN_modulation := Linear_init 4 24 (fun _ _ => 1%R) |}.

(** A model with its decoder-side parameters replaced: the decoder
    position embedding, the side blocks and the mask token. *)
Definition with_decoder (m : MDT) (dpe : tokens) (sb : list MDTBlock) (mt : list R) : MDT :=
{| learn_sigma := learn_sigma m;
   in_channels := in_channels m;
   out_channels := out_channels m;
   patch_size := patch_size m;
   num_heads := num_heads m;
   x_embedder := x_embedder m;
   num_patches := num_patches m;
   t_embedder := t_embedder m;
   y_embedder := y_embedder m;
   pos_embed := pos_embed m;
   blocks := blocks m;
   sideblocks := sb;
   final_layer := final_layer m;
   decoder_pos_embed := dpe;
   mask_token := mt;
   mask_ratio := mask_ratio m;
   decode_layer := decode_layer m;
   training := training m |}.

(** [splice_model] with half of the tokens masked and
    [decode_layer = 2], above its depth of one block. *)
Definition nosplice_model : MDT :=
{| learn_sigma := learn_sigma splice_model;
   in_channels := in_channels splice_model;
   out_channels := out_channels splice_model;
   patch_size := patch_size splice_model;
   num_heads := num_heads splice_model;
   x_embedder := x_embedder splice_model;
   num_patches := num_patches splice_model;
   t_embedder := t_embedder splice_model;
   y_embedder := y_embedder splice_model;
   pos_embed := pos_embed splice_model;
   blocks := blocks splice_model;
   sideblocks := sideblocks splice_model;
   final_layer := final_layer splice_model;
   decoder_pos_embed := decoder_pos_embed splice_model;
   mask_token := mask_token splice_model;
   mask_ratio := Some (float_lit 1 2);
   decode_layer := 2;
   training := training splice_model |}.

(** ** MDT configs *)

(** The keyword arguments a named configuration hands on to [MDT],
    after the defaults of [MDT.__init__] have filled the absent ones. *)
Record Kwargs : Type := {
  kw_input_size : nat;
  kw_in_channels : nat;
  kw_mlp_ratio : Q;
  kw_class_dropout_prob : Q;
  kw_num_classes : nat;
  kw_learn_sigma : bool;
  kw_mask_ratio : option float64;
  kw_decode_layer : option Z
}.

(** No keyword argument given: the defaults of [MDT.__init__]. *)
Definition no_kwargs : Kwargs :=
{| kw_input_size := 32;
   kw_in_channels := 4;
   kw_mlp_ratio := 4%Q;
   kw_class_dropout_prob := (1 # 10)%Q;
   kw_num_classes := 1000;
   kw_learn_sigma := true;
   kw_mask_ratio := None;
   kw_decode_layer := None |}.

(** [MDT(depth=.., hidden_size=.., patch_size=.., num_heads=.., **kwargs)]. *)
Definition MDT_with (depth hidden_size patch_size num_heads : nat) (ini : Initializer)
    (kw : Kwargs) : option MDT :=
MDT_init ini
  {| cfg_input_size := kw_input_size kw;
     cfg_patch_size := patch_size;
     cfg_in_channels := kw_in_channels kw;
     cfg_hidden_size := hidden_size;
     cfg_depth := depth;
     cfg_num_heads := num_heads;
     cfg_mlp_ratio := kw_mlp_ratio kw;
     cfg_class_dropout_prob := kw_class_dropout_prob kw;
     cfg_num_classes := kw_num_classes kw;
     cfg_learn_sigma := kw_learn_sigma kw;
     cfg_mask_ratio := kw_mask_ratio kw;
     cfg_decode_layer := kw_decode_layer kw |}.

Definition MDT_XL_2 := MDT_with 28 1152 2 16.
Definition MDT_XL_4 := MDT_with 28 1152 4 16.
Definition MDT_XL_8 := MDT_with 28 1152 8 16.
Definition MDT_L_2 := MDT_with 24 1024 2 16.
Definition MDT_L_4 := MDT_with 24 1024 4 16.
Definition MDT_L_8 := MDT_with 24 1024 8 16.
Definition MDT_B_2 := MDT_with 12 768 2 12.
Definition MDT_B_4 := MDT_with 12 768 4 12.
Definition MDT_B_8 := MDT_with 12 768 8 12.
Definition MDT_S_2 := MDT_with 12 384 2 6.
Definition MDT_S_4 := MDT_with 12 384 4 6.
Definition MDT_S_8 := MDT_with 12 384 8 6.

(** The twelve named configurations with their depth, width, patch size
    and head count. *)
Definition named_configs
    : list (nat * nat * nat * nat * (Initializer -> Kwargs -> option MDT)) :=
[ (28, 1152, 2, 16, MDT_XL_2); (28, 1152, 4, 16, MDT_XL_4); (28, 1152, 8, 16, MDT_XL_8);
  (24, 1024, 2, 16, MDT_L_2); (24, 1024, 4, 16, MDT_L_4); (24, 1024, 8, 16, MDT_L_8);
  (12, 768, 2, 12, MDT_B_2); (12, 768, 4, 12, MDT_B_4); (12, 768, 8, 12, MDT_B_8);
  (12, 384, 2, 6, MDT_S_2); (12, 384, 4, 6, MDT_S_4); (12, 384, 8, 6, MDT_S_8) ].

(** The keyword arguments of the call in the [__main__] block:
    [MDT_S_2(input_size=32, in_channels=3, mask_ratio=0.3, decode_layer=2,
    learn_sigma=False)]. *)
Definition main_kwargs : Kwargs :=
{| kw_input_size := 32;
   kw_in_channels := 3;
   kw_mlp_ratio := 4%Q;
   kw_class_dropout_prob := (1 # 10)%Q;
   kw_num_classes := 1000;
   kw_learn_sigma := false;
   kw_mask_ratio := Some (float_lit 3 10);
   kw_decode_layer := Some 2%Z |}.

(** * Verification *)

Unset Implicit Arguments.

(** ** Facts on gathers and sequencing *)

Lemma gather_Forall2 {A : Type} (src : list A) (index : list nat) (out : list A) :
  gather src index = Some out <->
  Forall2 (fun i v => nth_error src i = Some v) index out.
Proof.
  revert out; induction index as [|i rest IH]; intros out; simpl.
  - split; intros H.
    + inversion H; constructor.
    + inversion H; reflexivity.
  - destruct (nth_error src i) as [v|] eqn:Ei.
    + destruct (gather src rest) as [vs|] eqn:Er.
      * split; intros H.
        -- inversion H; subst. constructor; [exact Ei|]. apply IH; reflexivity.
        -- inversion H as [|? y ? ys Hy Hys]; subst.
           apply IH in Hys. congruence.
      * split; intros H; [discriminate|].
        inversion H as [|? y ? ys Hy Hys]; subst.
        apply IH in Hys. discriminate.
    + split; intros H; [discriminate|].
      inversion H; subst; congruence.
Qed.

Lemma gather_length {A : Type} (src : list A) index out :
  gather src index = Some out -> length out = length index.
Proof.
  intros H. apply gather_Forall2 in H.
  symmetry. eapply Forall2_length; eauto.
Qed.

Lemma gather_map {A : Type} (src : list A) (d : A) index :
  Forall (fun i => i < length src) index ->
  gather src index = Some (map (fun i => nth i src d) index).
Proof.
  induction 1 as [|i rest Hi _ IH]; simpl; [reflexivity|].
  rewrite IH. rewrite (nth_error_nth' src d Hi). reflexivity.
Qed.

Lemma Forall2_seq_nth {A : Type} (P : A -> nat -> Prop) (l : list A) (s : nat) :
  (forall j x, nth_error l j = Some x -> P x (s + j)) ->
  Forall2 P l (seq s (length l)).
Proof.
  revert s; induction l as [|a l IH]; intros s H; simpl; constructor.
  - specialize (H 0 a eq_refl). now rewrite Nat.add_0_r in H.
  - apply IH. intros j x Hj. specialize (H (S j) x Hj).
    now rewrite Nat.add_succ_r in H.
Qed.

Lemma gather_identity {A : Type} (l : list A) :
  gather l (seq 0 (length l)) = Some l.
Proof.
  apply gather_Forall2.
  assert (G : forall (s : list A) (k : nat) (pre : list A),
             length pre = k ->
             Forall2 (fun i v => nth_error (pre ++ s) i = Some v) (seq k (length s)) s).
  { induction s as [|a s IH]; intros k pre Hk; simpl; constructor.
    - rewrite nth_error_app2 by lia. subst k. now rewrite Nat.sub_diag.
    - specialize (IH (S k) (pre ++ [a])).
      rewrite <- app_assoc in IH. simpl in IH. apply IH.
      rewrite length_app. simpl. lia. }
  exact (G l 0 [] eq_refl).
Qed.

Lemma sequence_Forall2 {A : Type} (l : list (option A)) (out : list A) :
  sequence l = Some out <-> Forall2 (fun o v => o = Some v) l out.
Proof.
  revert out; induction l as [|o l IH]; intros out; simpl.
  - split; intros H; inversion H; constructor.
  - destruct o as [a|].
    + destruct (sequence l) as [r|] eqn:E.
      * split; intros H.
        -- inversion H; subst. constructor; [reflexivity|]. now apply IH.
        -- inversion H as [|? y ? ys Hy Hys]; subst. apply IH in Hys.
           congruence.
      * split; intros H; [discriminate|].
        inversion H as [|? y ? ys Hy Hys]; subst. apply IH in Hys. discriminate.
    + split; intros H; [discriminate|]. inversion H; subst. discriminate.
Qed.

Lemma sequence_map_Some {A B : Type} (f : A -> option B) (g : A -> B) (l : list A) :
  Forall (fun a => f a = Some (g a)) l ->
  sequence (map f l) = Some (map g l).
Proof.
  induction 1 as [|a l Ha _ IH]; simpl; [reflexivity|].
  now rewrite Ha, IH.
Qed.

Lemma sequence_repeat {A : Type} (a : A) (n : nat) :
  sequence (repeat (Some a) n) = Some (repeat a n).
Proof.
  induction n as [|n IH]; simpl; [reflexivity|]. now rewrite IH.
Qed.

Lemma enumerate_length {A : Type} (l : list A) : length (enumerate l) = length l.
Proof.
  unfold enumerate. rewrite length_combine, length_seq. apply Nat.min_id.
Qed.

Lemma map_fst_combine_seq {A : Type} (l : list A) (s : nat) :
  map fst (combine (seq s (length l)) l) = seq s (length l).
Proof.
  revert s; induction l as [|a l IH]; intros s; simpl; [reflexivity|].
  now rewrite IH.
Qed.

Lemma map_snd_combine_seq {A : Type} (l : list A) (s : nat) :
  map snd (combine (seq s (length l)) l) = l.
Proof.
  revert s; induction l as [|a l IH]; intros s; simpl; [reflexivity|].
  now rewrite IH.
Qed.

Lemma in_combine_seq {A : Type} (l : list A) (s i : nat) (a : A) :
  In (i, a) (combine (seq s (length l)) l) ->
  s <= i /\ nth_error l (i - s) = Some a.
Proof.
  revert s; induction l as [|b l IH]; intros s; simpl; [tauto|].
  intros [E|H].
  - inversion E; subst. rewrite Nat.sub_diag. auto.
  - apply IH in H. destruct H as [Hs Hn]. split; [lia|].
    replace (i - s) with (S (i - S s)) by lia. exact Hn.
Qed.

Lemma in_enumerate {A : Type} (l : list A) (i : nat) (a : A) :
  In (i, a) (enumerate l) -> nth_error l i = Some a.
Proof.
  intros H. apply in_combine_seq in H. now rewrite Nat.sub_0_r in H.
Qed.

Lemma sequence_Forall_exists {A B : Type} (f : A -> option B) (P : B -> Prop)
    (l : list A) :
  Forall (fun a => exists b, f a = Some b /\ P b) l ->
  exists out, sequence (map f l) = Some out /\ length out = length l /\ Forall P out.
Proof.
  induction 1 as [|a l [b [Hb HP]] _ [out [Ho [Hl HF]]]]; simpl.
  - exists []. repeat split. constructor.
  - exists (b :: out). rewrite Hb, Ho. repeat split; [simpl; lia|].
    now constructor.
Qed.

(** ** Argsort yields a permutation, sorted by key *)

Section ArgsortFacts.
Context {K : Type}.
Variable leb : K -> K -> bool.

Let by_key (p q : nat * K) : Prop := leb (snd p) (snd q) = true.

Lemma insert_by_perm (p : nat * K) (l : list (nat * K)) :
  Permutation (insert_by leb p l) (p :: l).
Proof.
  induction l as [|q l IH]; simpl; [apply Permutation_refl|].
  destruct (leb (snd p) (snd q)); [apply Permutation_refl|].
  eapply perm_trans; [apply perm_skip, IH | apply perm_swap].
Qed.

Lemma sort_by_perm (l : list (nat * K)) : Permutation (sort_by leb l) l.
Proof.
  induction l as [|p l IH]; simpl; [constructor|].
  eapply perm_trans; [apply insert_by_perm | now apply perm_skip].
Qed.

Lemma argsort_perm (keys : list K) :
  Permutation (argsort leb keys) (seq 0 (length keys)).
Proof.
  unfold argsort.
  replace (seq 0 (length keys)) with (map fst (enumerate keys))
    by apply map_fst_combine_seq.
  apply Permutation_map, sort_by_perm.
Qed.

Lemma argsort_length (keys : list K) : length (argsort leb keys) = length keys.
Proof.
  rewrite (Permutation_length (argsort_perm keys)). apply length_seq.
Qed.

Lemma argsort_bound (keys : list K) :
  Forall (fun i => i < length keys) (argsort leb keys).
Proof.
  apply Forall_forall. intros i Hi.
  apply (Permutation_in _ (argsort_perm keys)) in Hi.
  apply in_seq in Hi. lia.
Qed.

Lemma argsort_keys (keys : list K) :
  gather keys (argsort leb keys) = Some (map snd (sort_by leb (enumerate keys))).
Proof.
  apply gather_Forall2. unfold argsort.
  assert (H : Forall (fun q => nth_error keys (fst q) = Some (snd q))
                     (sort_by leb (enumerate keys))).
  { apply Forall_forall. intros [i k] Hq.
    apply (Permutation_in _ (sort_by_perm (enumerate keys))) in Hq.
    now apply in_enumerate. }
  induction H; simpl; constructor; auto.
Qed.

Hypothesis leb_total : forall a b, leb a b = true \/ leb b a = true.
Hypothesis leb_trans : forall a b c, leb a b = true -> leb b c = true -> leb a c = true.

Lemma insert_by_sorted (p : nat * K) (l : list (nat * K)) :
  StronglySorted by_key l -> StronglySorted by_key (insert_by leb p l).
Proof.
  induction 1 as [|q l Hl IH Hq]; simpl.
  - constructor; constructor.
  - destruct (leb (snd p) (snd q)) eqn:E.
    + constructor; [constructor; assumption|].
      constructor; [exact E|].
      eapply Forall_impl; [|exact Hq].
      intros r Hr. unfold by_key in *. eapply leb_trans; eauto.
    + constructor; [exact IH|].
      eapply Permutation_Forall; [apply Permutation_sym, insert_by_perm|].
      constructor; [|exact Hq].
      unfold by_key. destruct (leb_total (snd p) (snd q)); congruence.
Qed.

Lemma sort_by_sorted (l : list (nat * K)) : StronglySorted by_key (sort_by leb l).
Proof.
  induction l as [|p l IH]; simpl; [constructor|].
  now apply insert_by_sorted.
Qed.
End ArgsortFacts.

Lemma sorted_keys_le (s : list (nat * nat)) :
  StronglySorted (fun p q => Nat.leb (snd p) (snd q) = true) s ->
  StronglySorted le (map snd s).
Proof.
  induction 1 as [|q l Hl IH Hq]; simpl; constructor; [exact IH|].
  apply Forall_map. eapply Forall_impl; [|exact Hq].
  intros r Hr. now apply Nat.leb_le.
Qed.

(** An ascending arrangement of [a, a+1, ..., a+n-1] is that very list. *)
Lemma sorted_perm_seq (n a : nat) (l : list nat) :
  StronglySorted le l -> Permutation l (seq a n) -> l = seq a n.
Proof.
  revert a l; induction n as [|n IH]; intros a l Hs Hp; simpl in *.
  - now apply Permutation_sym, Permutation_nil in Hp.
  - destruct l as [|x l].
    + apply Permutation_nil in Hp. discriminate.
    + inversion Hs as [|? ? Hs' Hx]; subst.
      assert (Hxa : x = a).
      { assert (Hin : In x (a :: seq (S a) n))
          by (eapply Permutation_in; [exact Hp | now left]).
        assert (Ha : In a (x :: l))
          by (eapply Permutation_in; [apply Permutation_sym, Hp | now left]).
        destruct Ha as [Ha|Ha]; [now symmetry|].
        rewrite Forall_forall in Hx. specialize (Hx a Ha).
        destruct Hin as [Hin|Hin]; [now symmetry|].
        apply in_seq in Hin. lia. }
      subst x. f_equal. apply IH; [exact Hs'|].
      eapply Permutation_cons_inv; exact Hp.
Qed.

(** The argsort of a permutation of [0..L-1] is its inverse. *)
Lemma argsort_inverse_left (p : list nat) :
  Permutation p (seq 0 (length p)) ->
  gather p (argsort Nat.leb p) = Some (seq 0 (length p)).
Proof.
  intros Hp. rewrite argsort_keys. f_equal.
  apply sorted_perm_seq.
  - apply sorted_keys_le. apply sort_by_sorted.
    + intros a b. rewrite !Nat.leb_le. lia.
    + intros a b c. rewrite !Nat.leb_le. lia.
  - eapply perm_trans; [|exact Hp].
    replace p with (map snd (enumerate p)) at 2
      by apply map_snd_combine_seq.
    apply Permutation_map, sort_by_perm.
Qed.

Lemma argsort_inverse_right (p : list nat) :
  Permutation p (seq 0 (length p)) ->
  gather (argsort Nat.leb p) p = Some (seq 0 (length p)).
Proof.
  intros Hp.
  pose proof (argsort_inverse_left p Hp) as Hl.
  apply gather_Forall2 in Hl.
  apply gather_Forall2.
  apply Forall2_seq_nth. intros j i Hj. simpl.
  assert (Hi : i < length p).
  { apply nth_error_In in Hj. apply (Permutation_in _ Hp) in Hj.
    apply in_seq in Hj. lia. }
  assert (Hr : exists k, nth_error (argsort Nat.leb p) i = Some k).
  { destruct (nth_error (argsort Nat.leb p) i) eqn:E; [eauto|].
    apply nth_error_None in E. rewrite argsort_length in E. lia. }
  destruct Hr as [k Hk]. rewrite Hk. f_equal.
  assert (Hpk : nth_error p k = Some i).
  { assert (G : forall (idx out : list nat),
               Forall2 (fun a v => nth_error p a = Some v) idx out ->
               forall n a v, nth_error idx n = Some a -> nth_error out n = Some v ->
               nth_error p a = Some v).
    { induction 1 as [|a0 v0 idx out H0 _ IH]; intros n a v Ha Hv.
      - destruct n; discriminate.
      - destruct n as [|n]; simpl in *.
        + congruence.
        + eapply IH; eauto. }
    eapply (G _ _ Hl i); [exact Hk|].
    rewrite nth_error_seq.
    destruct (Nat.ltb_spec i (length p)); [reflexivity | lia]. }
  assert (Hnd : NoDup p).
  { eapply Permutation_NoDup; [apply Permutation_sym, Hp | apply seq_NoDup]. }
  eapply (proj1 (NoDup_nth_error p) Hnd).
  - apply nth_error_Some. congruence.
  - congruence.
Qed.

(** ** Random masking *)

Lemma ids_shuffle_perm (rand : nat -> nat -> Q) (n L : nat) :
  Permutation (ids_shuffle rand n L) (seq 0 L).
Proof.
  unfold ids_shuffle.
  pose proof (argsort_perm Qle_bool (noise_row rand n L)) as H.
  unfold noise_row in H at 2. now rewrite length_map, length_seq in H.
Qed.

Lemma ids_shuffle_length (rand : nat -> nat -> Q) (n L : nat) :
  length (ids_shuffle rand n L) = L.
Proof.
  rewrite (Permutation_length (ids_shuffle_perm rand n L)). apply length_seq.
Qed.

Lemma ids_restore_perm (rand : nat -> nat -> Q) (n L : nat) :
  Permutation (ids_restore rand n L) (seq 0 L).
Proof.
  unfold ids_restore.
  pose proof (argsort_perm Nat.leb (ids_shuffle rand n L)) as H.
  now rewrite ids_shuffle_length in H.
Qed.

Lemma ids_restore_length (rand : nat -> nat -> Q) (n L : nat) :
  length (ids_restore rand n L) = L.
Proof.
  rewrite (Permutation_length (ids_restore_perm rand n L)). apply length_seq.
Qed.

Lemma perm_seq_bound (l : list nat) (L : nat) :
  Permutation l (seq 0 L) -> Forall (fun i => i < L) l.
Proof.
  intros H. apply Forall_forall. intros i Hi.
  apply (Permutation_in _ H) in Hi. apply in_seq in Hi. lia.
Qed.

Lemma map_nth_seq {A : Type} (src : list A) (d : A) :
  map (fun i => nth i src d) (seq 0 (length src)) = src.
Proof.
  pose proof (gather_identity src) as H.
  rewrite (gather_map src d) in H.
  - congruence.
  - apply Forall_forall. intros i Hi. apply in_seq in Hi. lia.
Qed.

(** Gathering through a permutation of all positions rearranges the
    source. *)
Lemma gather_perm {A : Type} (src : list A) (d : A) (index : list nat) :
  Permutation index (seq 0 (length src)) ->
  gather src index = Some (map (fun i => nth i src d) index) /\
  Permutation (map (fun i => nth i src d) index) src.
Proof.
  intros Hp. split.
  - apply gather_map. now apply perm_seq_bound.
  - eapply perm_trans; [apply Permutation_map, Hp|].
    rewrite map_nth_seq. apply Permutation_refl.
Qed.

Lemma mask_pattern_length (L : nat) (k : Z) :
  slice_stop k L <= L -> length (mask_pattern L k) = L.
Proof.
  intros H. unfold mask_pattern. rewrite length_app, !repeat_length. lia.
Qed.

Lemma slice_stop_le (k : Z) (L : nat) : slice_stop k L <= L.
Proof.
  unfold slice_stop. destruct (k <? 0)%Z; lia.
Qed.

Lemma In_firstn {A : Type} (n : nat) (l : list A) (a : A) :
  In a (firstn n l) -> In a l.
Proof.
  intros H. rewrite <- (firstn_skipn n l). apply in_or_app. now left.
Qed.

(** On a sample of [L] tokens the four results are these. *)
Lemma random_masking_row_eq (rand : nat -> nat -> Q) (L : nat) (k : Z) (n : nat)
    (x : list (list R)) :
  length x = L ->
  random_masking_row rand L k n x =
    Some (map (fun i => nth i x []) (ids_keep rand n L k),
          map (fun i => nth i (mask_pattern L k) 0%R) (ids_restore rand n L),
          ids_restore rand n L,
          ids_keep rand n L k).
Proof.
  intros Hx. unfold random_masking_row.
  rewrite (gather_map x []).
  - rewrite (gather_map (mask_pattern L k) 0%R); [reflexivity|].
    rewrite mask_pattern_length by apply slice_stop_le.
    apply perm_seq_bound, ids_restore_perm.
  - rewrite Hx. unfold ids_keep.
    apply Forall_forall. intros i Hi. apply In_firstn in Hi.
    pose proof (perm_seq_bound _ _ (ids_shuffle_perm rand n L)) as Hb.
    rewrite Forall_forall in Hb. now apply Hb.
Qed.

Lemma slice_stop_nonneg (k : Z) (L : nat) :
  (0 <= k <= Z.of_nat L)%Z -> slice_stop k L = Z.to_nat k.
Proof.
  intros H. unfold slice_stop.
  destruct (Z.ltb_spec k 0); lia.
Qed.

Lemma mask_pattern_counts (L : nat) (k : Z) :
  count_occ Req_dec_T (mask_pattern L k) 0%R = slice_stop k L /\
  count_occ Req_dec_T (mask_pattern L k) 1%R = L - slice_stop k L.
Proof.
  unfold mask_pattern. rewrite !count_occ_app. split.
  - rewrite count_occ_repeat_eq by reflexivity.
    rewrite count_occ_repeat_neq by lra. lia.
  - rewrite count_occ_repeat_neq by lra.
    rewrite count_occ_repeat_eq by reflexivity. lia.
Qed.

(** C6: in every call of [random_masking] and for every sample [n], the
    index rows [ids_shuffle] and [ids_restore] are permutations of
    [0..L-1] that are inverse to each other: reading either one through
    the other gives the identity [0, 1, ..., L-1]. *)
Theorem random_masking_ids_inverse (rand : nat -> nat -> Q) (n L : nat) :
  Permutation (ids_shuffle rand n L) (seq 0 L) /\
  Permutation (ids_restore rand n L) (seq 0 L) /\
  gather (ids_shuffle rand n L) (ids_restore rand n L) = Some (seq 0 L) /\
  gather (ids_restore rand n L) (ids_shuffle rand n L) = Some (seq 0 L).
Proof.
  pose proof (ids_shuffle_perm rand n L) as Hs.
  pose proof (ids_shuffle_length rand n L) as Hl.
  repeat split.
  - exact Hs.
  - apply ids_restore_perm.
  - unfold ids_restore. rewrite <- Hl at 3.
    apply argsort_inverse_left. now rewrite Hl.
  - unfold ids_restore. rewrite <- Hl at 3.
    apply argsort_inverse_right. now rewrite Hl.
Qed.

(** Whatever [len_keep] comes out, each sample keeps the first
    [slice_stop len_keep L] shuffled positions, and its mask has that
    many zeros. *)
Lemma random_masking_kept (rand : nat -> nat -> Q)
    (x : list (list (list R))) (r : float64) (len_keep : Z) :
  let L := length (hd [] x) in
  Forall (fun s => length s = L) x ->
  len_keep_of L r = Some len_keep ->
  exists out,
    random_masking rand x r = Some out /\
    length out = length x /\
    Forall (fun s =>
      match s with
      | (x_masked, mask, _, ids_keep) =>
          length x_masked = slice_stop len_keep L /\
          length ids_keep = slice_stop len_keep L /\
          length mask = L /\
          count_occ Req_dec_T mask 0%R = slice_stop len_keep L /\
          count_occ Req_dec_T mask 1%R = L - slice_stop len_keep L
      end) out.
Proof.
  intros L Hx Hlk.
  exists (map (fun nx =>
            (map (fun i => nth i (snd nx) []) (ids_keep rand (fst nx) L len_keep),
             map (fun i => nth i (mask_pattern L len_keep) 0%R) (ids_restore rand (fst nx) L),
             ids_restore rand (fst nx) L,
             ids_keep rand (fst nx) L len_keep)) (enumerate x)).
  split; [|split].
  - unfold random_masking. fold L. rewrite Hlk.
    apply sequence_map_Some.
    apply Forall_forall. intros [n s] Hin. simpl.
    apply random_masking_row_eq.
    apply in_enumerate, nth_error_In in Hin.
    rewrite Forall_forall in Hx. now apply Hx.
  - now rewrite length_map, enumerate_length.
  - apply Forall_map, Forall_forall. intros [n s] _. simpl.
    assert (Hp : Permutation (ids_restore rand n L)
                             (seq 0 (length (mask_pattern L len_keep)))).
    { rewrite mask_pattern_length by apply slice_stop_le. apply ids_restore_perm. }
    destruct (gather_perm (mask_pattern L len_keep) 0%R _ Hp) as [_ Hperm].
    destruct (mask_pattern_counts L len_keep) as [Hc0 Hc1].
    assert (Hik : length (ids_keep rand n L len_keep) = slice_stop len_keep L).
    { unfold ids_keep. rewrite length_firstn, ids_shuffle_length.
      pose proof (slice_stop_le len_keep L). lia. }
    rewrite (Permutation_count_occ Req_dec_T) in Hperm.
    rewrite !length_map, ids_restore_length, !Hperm, Hc0, Hc1, Hik.
    repeat split.
Qed.

(** C7, as the code has it: for a batch [x] of [N] sequences of length
    [L], [random_masking] keeps in each of the [N] samples exactly
    [len_keep = int(L * (1 - mask_ratio))] tokens, the product being the
    binary64 one that the code computes, whenever [0 <= len_keep <= L];
    the binary mask of each sample has length [L] with exactly
    [len_keep] zeros and [L - len_keep] ones. *)
Theorem random_masking_counts (rand : nat -> nat -> Q)
    (x : list (list (list R))) (r : float64) (len_keep : Z) :
  let L := length (hd [] x) in
  let k := Z.to_nat len_keep in
  Forall (fun s => length s = L) x ->
  len_keep_of L r = Some len_keep ->
  (0 <= len_keep <= Z.of_nat L)%Z ->
  exists out,
    random_masking rand x r = Some out /\
    length out = length x /\
    Forall (fun s =>
      match s with
      | (x_masked, mask, _, _) =>
          length x_masked = k /\
          length mask = L /\
          count_occ Req_dec_T mask 0%R = k /\
          count_occ Req_dec_T mask 1%R = L - k
      end) out.
Proof.
  intros L k Hx Hlk Hrange.
  destruct (random_masking_kept rand x r len_keep Hx Hlk) as [out [Hout [Hlen Hall]]].
  fold L in Hall.
  rewrite (slice_stop_nonneg len_keep L Hrange) in Hall. fold k in Hall.
  exists out. split; [exact Hout|]. split; [exact Hlen|].
  eapply Forall_impl; [|exact Hall].
  intros [[[xm mask] ir] ik] [H1 [_ [H2 [H3 H4]]]]. repeat split; assumption.
Qed.

(** ** Relative position bias *)

Lemma coords_flatten_range (h w : nat) (c : Z * Z) :
  In c (coords_flatten h w) ->
  (0 <= fst c < Z.of_nat h)%Z /\ (0 <= snd c < Z.of_nat w)%Z.
Proof.
  unfold coords_flatten. intros H.
  apply in_flat_map in H. destruct H as [a [Ha H]].
  apply in_map_iff in H. destruct H as [b [Hc Hb]].
  apply in_seq in Ha. apply in_seq in Hb. subst c. simpl. lia.
Qed.

Lemma coords_flatten_length (h w : nat) : length (coords_flatten h w) = h * w.
Proof.
  unfold coords_flatten.
  generalize 0 at 2.
  induction h as [|h IH]; intros s; simpl; [reflexivity|].
  rewrite length_app, length_map, length_seq, IH. reflexivity.
Qed.

Lemma relative_position_index_entries (h w : nat) (row : list Z) (e : Z) :
  In row (build_relative_position_index h w) -> In e row ->
  (0 <= e <= (2 * Z.of_nat h - 1) * (2 * Z.of_nat w - 1) - 1)%Z.
Proof.
  unfold build_relative_position_index, relative_coords.
  rewrite map_map. intros Hrow He.
  apply in_map_iff in Hrow. destruct Hrow as [ci [Hrow Hci]]. subst row.
  rewrite map_map in He.
  apply in_map_iff in He. destruct He as [cj [He Hcj]]. subst e.
  apply coords_flatten_range in Hci. apply coords_flatten_range in Hcj.
  destruct ci as [a b], cj as [a' b']. cbn [fst snd] in *. cbv zeta.
  set (A := (a - a' + (Z.of_nat h - 1))%Z).
  set (W := (2 * Z.of_nat w - 1)%Z).
  assert (HA : (0 <= A <= 2 * Z.of_nat h - 2)%Z) by (unfold A; lia).
  assert (HW : (0 < W)%Z) by (unfold W; lia).
  assert (H1 : (0 <= A * W)%Z) by nia.
  assert (H2 : (A * W <= (2 * Z.of_nat h - 2) * W)%Z) by nia.
  replace ((2 * Z.of_nat h - 1) * W)%Z with ((2 * Z.of_nat h - 2) * W + W)%Z by ring.
  unfold W in *. lia.
Qed.

Lemma relative_position_index_shape (h w : nat) :
  length (build_relative_position_index h w) = h * w /\
  Forall (fun row => length row = h * w) (build_relative_position_index h w).
Proof.
  unfold build_relative_position_index, relative_coords. split.
  - now rewrite !length_map, coords_flatten_length.
  - apply Forall_map, Forall_map, Forall_forall. intros ci _.
    now rewrite !length_map, coords_flatten_length.
Qed.

Lemma table_row_prefix (t junk : list (list R)) (n : nat) (e : Z) :
  n <= length t -> (0 <= e < Z.of_nat n)%Z ->
  table_row (firstn n t ++ junk) e = table_row t e.
Proof.
  intros Hn He. unfold table_row.
  destruct (Z.ltb_spec e 0); [lia|].
  rewrite nth_error_app1 by (rewrite length_firstn; lia).
  rewrite nth_error_firstn.
  destruct (Nat.ltb_spec (Z.to_nat e) n); [reflexivity | lia].
Qed.

Lemma init_table_length (h w nH : nat) (tv : nat -> nat -> R) :
  0 < h -> 0 < w ->
  length (relative_position_bias_table (RelativePositionBias_init (h, w) nH tv))
  = addressed_rows h w + 3 /\ 0 < addressed_rows h w.
Proof.
  intros Hh Hw. unfold RelativePositionBias_init.
  cbn [relative_position_bias_table fst snd].
  rewrite length_map, length_seq. unfold addressed_rows.
  assert (0 < (2 * Z.of_nat h - 1) * (2 * Z.of_nat w - 1))%Z by nia.
  split; lia.
Qed.

Lemma sequence_map_ext {A B : Type} (f g : A -> option B) (l : list A) :
  (forall a, In a l -> f a = g a) -> sequence (map f l) = sequence (map g l).
Proof.
  intros H. f_equal. now apply map_ext_in.
Qed.

Lemma hd_firstn_app {A : Type} (d : A) (n : nat) (t junk : list A) :
  0 < n -> 0 < length t -> hd d (firstn n t ++ junk) = hd d t.
Proof.
  intros Hn Ht. destruct n; [lia|]. destruct t; [simpl in Ht; lia|]. reflexivity.
Qed.

(** C10: for every window size [(h, w)], every entry of the fixed
    [relative_position_index] lies in [0, (2h-1)(2w-1) - 1] while the
    table has [(2h-1)(2w-1) + 3] rows, so the last three rows are never
    read: whatever stands in the table from row [(2h-1)(2w-1)] on, the
    bias computed by [forward] is the same. *)
Theorem relative_position_index_range (h w nH : nat) (tv : nat -> nat -> R)
    (junk : list (list R)) :
  let rpb := RelativePositionBias_init (h, w) nH tv in
  (forall row e, In row (relative_position_index rpb) -> In e row ->
     (0 <= e <= (2 * Z.of_nat h - 1) * (2 * Z.of_nat w - 1) - 1)%Z) /\
  num_relative_distance rpb = ((2 * Z.of_nat h - 1) * (2 * Z.of_nat w - 1) + 3)%Z /\
  RelativePositionBias_forward
    (with_table rpb
       (firstn (addressed_rows h w) (relative_position_bias_table rpb) ++ junk))
  = RelativePositionBias_forward rpb.
Proof.
  intros rpb. split; [|split].
  - intros row e. apply relative_position_index_entries.
  - reflexivity.
  - unfold RelativePositionBias_forward.
    cbn [with_table window_size relative_position_bias_table relative_position_index].
    set (T := relative_position_bias_table rpb).
    set (T' := firstn (addressed_rows h w) T ++ junk).
    change (window_size rpb) with (h, w).
    change (relative_position_index rpb) with (build_relative_position_index h w).
    cbn [fst snd].
    destruct (Nat.eq_dec (h * w) 0) as [E|E].
    + destruct (relative_position_index_shape h w) as [Hlen _].
      rewrite E in Hlen. apply length_zero_iff_nil in Hlen. rewrite Hlen, E.
      reflexivity.
    + assert (Hh : 0 < h) by (destruct h; [simpl in E|]; lia).
      assert (Hw : 0 < w) by (destruct w; [rewrite Nat.mul_0_r in E|]; lia).
      destruct (init_table_length h w nH tv Hh Hw) as [HT Hn]. fold rpb T in HT.
      assert (Hhd : hd [] T' = hd [] T)
        by (unfold T'; apply hd_firstn_app; lia).
      rewrite Hhd.
      replace (sequence (map (fun row => sequence (map (table_row T') row))
                             (build_relative_position_index h w)))
        with (sequence (map (fun row => sequence (map (table_row T) row))
                            (build_relative_position_index h w))); [reflexivity|].
      apply sequence_map_ext. intros row Hrow.
      apply sequence_map_ext. intros e He.
      pose proof (relative_position_index_entries h w row e Hrow He) as Hr.
      unfold T'. symmetry. apply table_row_prefix; [lia|].
      unfold addressed_rows. lia.
Qed.

Lemma combine_repeat {A B : Type} (a : A) (b : B) (n : nat) :
  combine (repeat a n) (repeat b n) = repeat (a, b) n.
Proof.
  induction n as [|n IH]; simpl; [reflexivity|]. now rewrite IH.
Qed.

Lemma sequence_map_id {A : Type} (f : A -> option A) (l : list A) :
  Forall (fun a => f a = Some a) l -> sequence (map f l) = Some l.
Proof.
  intros H. rewrite (sequence_map_Some f (fun a => a)) by exact H.
  now rewrite map_id.
Qed.

(** A bias with [L] rows and [L] columns per head is left as it is by
    the two gathers when every sample lists all positions in order. *)
Lemma gather_all_positions (bias : list (list (list R))) (L B : nat) :
  Forall (fun m => length m = L /\ Forall (fun row => length row = L) m) bias ->
  gather_dim2 (repeat bias B) (repeat (seq 0 L) B) = Some (repeat bias B) /\
  gather_dim3 (repeat bias B) (repeat (seq 0 L) B) = Some (repeat bias B).
Proof.
  intros Hb. unfold gather_dim2, gather_dim3.
  rewrite combine_repeat, !map_repeat. cbn [fst snd]. split.
  - rewrite sequence_map_id; [apply sequence_repeat|].
    eapply Forall_impl; [|exact Hb]. intros m [Hm _]. cbv beta.
    rewrite <- Hm. apply gather_identity.
  - rewrite sequence_map_id; [apply sequence_repeat|].
    eapply Forall_impl; [|exact Hb]. intros m [_ Hm]. cbv beta.
    apply sequence_map_id.
    eapply Forall_impl; [|exact Hm]. intros row Hrow. cbv beta.
    rewrite <- Hrow. apply gather_identity.
Qed.

Lemma init_table_rows (h w nH : nat) (tv : nat -> nat -> R) :
  Forall (fun row => length row = nH)
    (relative_position_bias_table (RelativePositionBias_init (h, w) nH tv)).
Proof.
  unfold RelativePositionBias_init. cbn [relative_position_bias_table].
  apply Forall_map, Forall_forall. intros r _. now rewrite length_map, length_seq.
Qed.

Lemma heads_first_shape (nH L : nat) (picked : list (list (list R))) :
  length picked = L -> Forall (fun row => length row = L) picked ->
  length (heads_first nH picked) = nH /\
  Forall (fun m => length m = L /\ Forall (fun row => length row = L) m)
         (heads_first nH picked).
Proof.
  intros Hl Hr. unfold heads_first. split.
  - now rewrite length_map, length_seq.
  - apply Forall_map, Forall_forall. intros k _. split.
    + now rewrite length_map.
    + apply Forall_map. eapply Forall_impl; [|exact Hr].
      intros row Hrow. cbv beta. now rewrite length_map.
Qed.

(** The bias of a freshly built or trained instance on a non-empty
    window with at least one head. *)
Lemma RelativePositionBias_forward_init (h w nH : nat) (tv : nat -> nat -> R) :
  0 < h -> 0 < w -> 0 < nH ->
  let rpb := RelativePositionBias_init (h, w) nH tv in
  RelativePositionBias_forward rpb =
    Some (heads_first nH
           (map (map (fun e => nth (Z.to_nat e) (relative_position_bias_table rpb) []))
                (relative_position_index rpb))).
Proof.
  intros Hh Hw HnH rpb. unfold RelativePositionBias_forward.
  destruct (init_table_length h w nH tv Hh Hw) as [HT Hn]. fold rpb in HT.
  pose proof (init_table_rows h w nH tv) as Hrows. fold rpb in Hrows.
  set (T := relative_position_bias_table rpb) in *.
  change (window_size rpb) with (h, w).
  change (relative_position_index rpb) with (build_relative_position_index h w).
  cbn [fst snd].
  rewrite (sequence_map_Some _
             (map (fun e => nth (Z.to_nat e) T []))).
  - cbn [bind].
    assert (HnHd : length (hd [] T) = nH).
    { clearbody T. destruct T as [|r0 T0]; [simpl in HT; lia|].
      inversion Hrows as [|? ? Hr0 _]. exact Hr0. }
    rewrite HnHd.
    destruct (Nat.eqb_spec (h * w * (h * w) * nH) 0) as [E|E]; [nia|reflexivity].
  - apply Forall_forall. intros row Hrow.
    apply sequence_map_Some. apply Forall_forall. intros e He.
    pose proof (relative_position_index_entries h w row e Hrow He) as Hr.
    unfold table_row. destruct (Z.ltb_spec e 0); [lia|].
    apply nth_error_nth'. rewrite HT. unfold addressed_rows. lia.
Qed.

(** C8: for every instance (any table values, any non-empty window and
    head count), the masked bias gathered with [ids_keep] equal to the
    identity range [0..L-1] in each of the [B] samples is, per sample,
    exactly the full [[num_heads, L, L]] bias of [forward]. *)
Theorem masked_bias_identity (h w nH B : nat) (tv : nat -> nat -> R) :
  0 < h -> 0 < w -> 0 < nH ->
  let rpb := RelativePositionBias_init (h, w) nH tv in
  let L := h * w in
  exists bias,
    RelativePositionBias_forward rpb = Some bias /\
    length bias = nH /\
    Forall (fun m => length m = L /\ Forall (fun row => length row = L) m) bias /\
    get_masked_rel_bias rpb B (repeat (seq 0 L) B) = Some (repeat bias B).
Proof.
  intros Hh Hw HnH rpb L.
  pose proof (RelativePositionBias_forward_init h w nH tv Hh Hw HnH) as Hf.
  fold rpb in Hf. cbv zeta in Hf.
  destruct (relative_position_index_shape h w) as [Hlen Hrows].
  set (picked := map (map (fun e => nth (Z.to_nat e)
                                        (relative_position_bias_table rpb) []))
                     (relative_position_index rpb)) in *.
  assert (Hshape : length picked = L /\ Forall (fun row => length row = L) picked).
  { unfold picked. change (relative_position_index rpb)
      with (build_relative_position_index h w). split.
    - now rewrite length_map.
    - apply Forall_map. eapply Forall_impl; [|exact Hrows].
      intros row Hrow. cbv beta. now rewrite length_map. }
  destruct Hshape as [Hpl Hpr].
  destruct (heads_first_shape nH L picked Hpl Hpr) as [Hbl Hbs].
  exists (heads_first nH picked). repeat split; try assumption.
  unfold get_masked_rel_bias. rewrite Hf. cbn [bind].
  rewrite repeat_length, Nat.leb_refl.
  destruct (gather_all_positions _ L B Hbs) as [H2 H3].
  rewrite H2. cbn [bind]. exact H3.
Qed.

(** ** Label embedding *)

Lemma use_dropout_off (p : Q) : (p == 0)%Q -> negb (Qle_bool p 0) = false.
Proof.
  intros H. apply negb_false_iff, Qle_bool_iff. rewrite H. apply Qle_refl.
Qed.

(** ** Broadcasting on operands of one shape *)

Lemma broadcast2_same {A B C : Type} (f : A -> B -> C) (a : list A) (b : list B) :
  length a = length b -> broadcast2 f a b = Some (zip_with f a b).
Proof.
  intros H. unfold broadcast2. rewrite H, Nat.eqb_refl. reflexivity.
Qed.

Lemma zip_with_length {A B C : Type} (f : A -> B -> C) (a : list A) (b : list B) :
  length a = length b -> length (zip_with f a b) = length a.
Proof.
  intros H. unfold zip_with. rewrite length_map, length_combine. lia.
Qed.

Lemma vec_op_same (f : R -> R -> R) (u v : list R) :
  length u = length v ->
  vec_op f u v = Some (zip_with f u v) /\ length (zip_with f u v) = length u.
Proof.
  intros H. split; [now apply broadcast2_same | now apply zip_with_length].
Qed.

Lemma vec_op_scalar_r (f : R -> R -> R) (row : list R) (v : R) :
  vec_op f row [v] = Some (map (fun x => f x v) row).
Proof.
  unfold vec_op, broadcast2.
  destruct row as [|a [|b row]]; reflexivity.
Qed.

Lemma vec_op_scalar_l (f : R -> R -> R) (v : R) (row : list R) :
  vec_op f [v] row = Some (map (f v) row).
Proof.
  unfold vec_op, broadcast2.
  destruct row as [|a [|b row]]; reflexivity.
Qed.

Lemma sequence_zip_with {A B C : Type} (f : A -> B -> option C) (g : A -> B -> C)
    (a : list A) (b : list B) :
  (forall u v, In (u, v) (combine a b) -> f u v = Some (g u v)) ->
  sequence (zip_with f a b) = Some (zip_with g a b).
Proof.
  intros H. unfold zip_with.
  apply (sequence_map_Some (fun ab => f (fst ab) (snd ab))
                           (fun ab => g (fst ab) (snd ab))).
  apply Forall_forall. intros [u v] Hin. now apply H.
Qed.

Lemma mat_op_rows (f : R -> R -> R) (g : list R -> list R -> list R) (a b : tokens) :
  length a = length b ->
  (forall u v, In (u, v) (combine a b) -> vec_op f u v = Some (g u v)) ->
  mat_op f a b = Some (zip_with g a b).
Proof.
  intros Hl Hr. unfold mat_op. rewrite (broadcast2_same _ _ _ Hl). cbn [bind].
  now apply sequence_zip_with.
Qed.

Lemma Forall_zip_with {A B C : Type} (P : C -> Prop) (f : A -> B -> C)
    (a : list A) (b : list B) :
  (forall u v, In (u, v) (combine a b) -> P (f u v)) -> Forall P (zip_with f a b).
Proof.
  intros H. unfold zip_with. apply Forall_map, Forall_forall.
  intros [u v] Hin. now apply H.
Qed.

Lemma mat_op_shape (f : R -> R -> R) (T D : nat) (a b : tokens) :
  shape2 T D a -> shape2 T D b ->
  mat_op f a b = Some (zip_with (zip_with f) a b) /\
  shape2 T D (zip_with (zip_with f) a b).
Proof.
  intros [Hla Hwa] [Hlb Hwb].
  rewrite Forall_forall in Hwa, Hwb.
  assert (Hw : forall u v, In (u, v) (combine a b) -> length u = D /\ length v = D).
  { intros u v Hin. split.
    - apply Hwa. eapply in_combine_l; eauto.
    - apply Hwb. eapply in_combine_r; eauto. }
  split.
  - apply mat_op_rows; [congruence|].
    intros u v Hin. destruct (Hw u v Hin) as [Hu Hv].
    apply vec_op_same. congruence.
  - split.
    + rewrite zip_with_length; congruence.
    + apply Forall_zip_with. intros u v Hin. destruct (Hw u v Hin) as [Hu Hv].
      rewrite zip_with_length; congruence.
Qed.

(** ** The masked shortcut of the side splice *)

Lemma zip_with_map_blend (s b : list R) (m : R) :
  zip_with Rplus (map (fun x => (x * m)%R) s) (map (Rmult (1 - m)) b) = blend_row s b m.
Proof.
  unfold blend_row, zip_with.
  revert b; induction s as [|x s IH]; intros [|y b]; simpl; try reflexivity.
  now rewrite IH.
Qed.

Lemma blend_row_kept (s b : list R) :
  length s = length b -> blend_row s b 0 = b.
Proof.
  unfold blend_row, zip_with.
  revert b; induction s as [|x s IH]; intros [|y b] H; simpl in *;
    try reflexivity; try discriminate.
  rewrite IH by lia. f_equal. ring.
Qed.

Lemma blend_row_removed (s b : list R) :
  length s = length b -> blend_row s b 1 = s.
Proof.
  unfold blend_row, zip_with.
  revert b; induction s as [|x s IH]; intros [|y b] H; simpl in *;
    try reflexivity; try discriminate.
  rewrite IH by lia. f_equal. ring.
Qed.

Lemma blend_row_length (s b : list R) (m : R) :
  length s = length b -> length (blend_row s b m) = length s.
Proof.
  intros H. unfold blend_row. now apply zip_with_length.
Qed.

Lemma zip_with_zip_with {A B C D E : Type} (f : A -> B -> D) (g : D -> C -> E)
    (a : list A) (b : list B) (c : list C) :
  zip_with g (zip_with f a b) c =
  map (fun t => g (f (fst (fst t)) (snd (fst t))) (snd t)) (combine (combine a b) c).
Proof.
  unfold zip_with.
  revert b c; induction a as [|x a IH]; intros [|y b] [|z c]; simpl;
    try reflexivity.
  now rewrite IH.
Qed.

Lemma zip_with_map_r {A B B' C : Type} (g : A -> B' -> C) (h : B -> B')
    (a : list A) (b : list B) :
  zip_with g a (map h b) = zip_with (fun u v => g u (h v)) a b.
Proof.
  unfold zip_with.
  revert b; induction a as [|x a IH]; intros [|y b]; simpl; try reflexivity.
  now rewrite IH.
Qed.

Lemma zip_with_map_l {A A' B C : Type} (g : A' -> B -> C) (h : A -> A')
    (a : list A) (b : list B) :
  zip_with g (map h a) b = zip_with (fun u v => g (h u) v) a b.
Proof.
  unfold zip_with.
  revert b; induction a as [|x a IH]; intros [|y b]; simpl; try reflexivity.
  now rewrite IH.
Qed.

Lemma blend_rows_eq (x xb : tokens) (mask : list R) :
  zip_with (zip_with Rplus)
    (zip_with (fun row v => map (fun e => (e * v)%R) row) x mask)
    (zip_with (fun v row => map (Rmult (1 - v)) row) mask xb)
  = map (fun t => blend_row (fst (fst t)) (snd (fst t)) (snd t))
        (combine (combine x xb) mask).
Proof.
  revert xb mask; induction x as [|r x IH]; intros [|rb xb] [|m mask];
    try reflexivity.
  specialize (IH xb mask). unfold zip_with in *. simpl.
  rewrite IH. f_equal. apply zip_with_map_blend.
Qed.

(** The masked shortcut on operands of the model's shape. *)
Lemma masked_shortcut_eq (L D : nat) (x xb : tokens) (mask : list R) :
  shape2 L D x -> shape2 L D xb -> length mask = L ->
  masked_shortcut x xb mask =
    Some (map (fun t => blend_row (fst (fst t)) (snd (fst t)) (snd t))
              (combine (combine x xb) mask)).
Proof.
  intros [Hlx Hwx] [Hlb Hwb] Hm. unfold masked_shortcut.
  rewrite (mat_op_rows Rmult (fun u v => map (fun e => (e * hd 0%R v)%R) u)).
  2: { rewrite length_map. congruence. }
  2: { intros u v Hin. apply in_combine_r in Hin.
       apply in_map_iff in Hin. destruct Hin as [v0 [Hv _]]. subst v.
       apply vec_op_scalar_r. }
  cbn [bind]. rewrite map_map.
  rewrite (mat_op_rows Rmult (fun u v => map (Rmult (hd 0%R u)) v)).
  2: { rewrite length_map. congruence. }
  2: { intros u v Hin. apply in_combine_l in Hin.
       apply in_map_iff in Hin. destruct Hin as [v0 [Hv _]]. subst u.
       apply vec_op_scalar_l. }
  cbn [bind]. rewrite zip_with_map_r, zip_with_map_l. cbn [hd].
  rewrite <- blend_rows_eq.
  rewrite Forall_forall in Hwx, Hwb.
  apply mat_op_rows.
  - rewrite !zip_with_length; congruence.
  - intros u v Hin.
    assert (Hu : length u = D).
    { apply in_combine_l in Hin. unfold zip_with in Hin.
      apply in_map_iff in Hin. destruct Hin as [[r m] [Hr Hin]]. subst u.
      cbn [fst snd]. rewrite length_map. apply Hwx.
      eapply in_combine_l; eauto. }
    assert (Hv : length v = D).
    { apply in_combine_r in Hin. unfold zip_with in Hin.
      apply in_map_iff in Hin. destruct Hin as [[m r] [Hr Hin]]. subst v.
      cbn [fst snd]. rewrite length_map. apply Hwb.
      eapply in_combine_r; eauto. }
    apply vec_op_same. congruence.
Qed.

Lemma masked_shortcut_shape (L D : nat) (x xb : tokens) (mask : list R) :
  shape2 L D x -> shape2 L D xb -> length mask = L ->
  shape2 L D (map (fun t => blend_row (fst (fst t)) (snd (fst t)) (snd t))
                  (combine (combine x xb) mask)).
Proof.
  intros [Hlx Hwx] [Hlb Hwb] Hm. split.
  - rewrite length_map, !length_combine. lia.
  - rewrite Forall_forall in Hwx, Hwb.
    apply Forall_map, Forall_forall. intros [[u v] m] Hin. cbn [fst snd].
    apply in_combine_l in Hin.
    rewrite blend_row_length.
    + apply Hwx. eapply in_combine_l; eauto.
    + rewrite (Hwx u), (Hwb v); [reflexivity| |].
      * eapply in_combine_r; eauto.
      * eapply in_combine_l; eauto.
Qed.

Lemma masked_shortcut_nth (L D : nat) (x xb : tokens) (mask : list R) (i : nat) :
  shape2 L D x -> shape2 L D xb -> length mask = L -> i < L ->
  nth i (map (fun t => blend_row (fst (fst t)) (snd (fst t)) (snd t))
             (combine (combine x xb) mask)) []
  = blend_row (nth i x []) (nth i xb []) (nth i mask 0%R) /\
  length (nth i x []) = length (nth i xb []).
Proof.
  intros [Hlx Hwx] [Hlb Hwb] Hm Hi. split.
  - change (@nil R) with
      ((fun t : list R * list R * R =>
          blend_row (fst (fst t)) (snd (fst t)) (snd t)) ([], [], 0%R)) at 1.
    rewrite map_nth.
    rewrite combine_nth by (rewrite length_combine; lia).
    rewrite combine_nth by congruence. reflexivity.
  - rewrite Forall_forall in Hwx, Hwb.
    rewrite (Hwx (nth i x [])), (Hwb (nth i xb [])); [reflexivity| |];
      apply nth_In; lia.
Qed.

(** ** The side splice *)

Lemma mask_binary (rand : nat -> nat -> Q) (n L : nat) (k : Z) :
  Forall (fun v => v = 0%R \/ v = 1%R)
         (map (fun i => nth i (mask_pattern L k) 0%R) (ids_restore rand n L)).
Proof.
  apply Forall_map, Forall_forall. intros i Hi.
  assert (Hp : Forall (fun v => v = 0%R \/ v = 1%R) (mask_pattern L k)).
  { unfold mask_pattern. apply Forall_app. split; apply Forall_forall;
      intros v Hv; apply repeat_spec in Hv; auto. }
  rewrite Forall_forall in Hp.
  destruct (Nat.lt_ge_cases i (length (mask_pattern L k))) as [Hlt|Hge].
  - apply Hp. now apply nth_In.
  - left. now apply nth_overflow.
Qed.

Lemma cat_tokens_same_width (D : nat) (a b : tokens) :
  Forall (fun tok => length tok = D) a -> Forall (fun tok => length tok = D) b ->
  cat_tokens a b = Some (a ++ b).
Proof.
  intros Ha Hb. unfold cat_tokens.
  destruct a as [|ta a]; [reflexivity|]. destruct b as [|tb b]; [reflexivity|].
  inversion Ha; inversion Hb; subst.
  replace (length tb) with (length ta) by congruence.
  now rewrite Nat.eqb_refl.
Qed.

(** The sequence handed to the side block has the full grid shape. *)
Lemma side_input_shape (m : MDT) (L D : nat) (x : tokens) (ir : list nat) :
  length x <= L ->
  Forall (fun tok => length tok = D) x ->
  length (mask_token m) = D ->
  shape2 L D (decoder_pos_embed m) ->
  Permutation ir (seq 0 L) ->
  exists xb, side_input m x ir = Some xb /\ shape2 L D xb.
Proof.
  intros HK Hx Hmt Hdpe Hir.
  assert (Hlen : length ir = L)
    by (rewrite (Permutation_length Hir); apply length_seq).
  set (x_ := x ++ repeat (mask_token m) (L - length x)).
  assert (Hx_ : shape2 L D x_).
  { unfold x_. split.
    - rewrite length_app, repeat_length. lia.
    - apply Forall_app. split; [exact Hx|].
      apply Forall_forall. intros tok Ht. apply repeat_spec in Ht. now subst. }
  destruct Hx_ as [Hx_l Hx_w].
  set (g := map (fun i => nth i x_ []) ir).
  assert (Hg : shape2 L D g).
  { unfold g. split; [now rewrite length_map|].
    apply Forall_map, Forall_forall. intros i Hi.
    rewrite Forall_forall in Hx_w. apply Hx_w, nth_In.
    apply (Permutation_in _ Hir) in Hi. apply in_seq in Hi. lia. }
  destruct (mat_op_shape Rplus L D g (decoder_pos_embed m) Hg Hdpe) as [Hop Hsh].
  exists (zip_with (zip_with Rplus) g (decoder_pos_embed m)). split; [|exact Hsh].
  unfold side_input. rewrite Hlen.
  destruct (Nat.ltb_spec L (length x)) as [Hlt|_]; [lia|].
  rewrite (cat_tokens_same_width D).
  - cbn [bind]. fold x_. rewrite (gather_map x_ []).
    + cbn [bind]. exact Hop.
    + rewrite Hx_l. now apply perm_seq_bound.
  - exact Hx.
  - apply Forall_forall. intros tok Ht. apply repeat_spec in Ht. now subst.
Qed.

(** The side splice on one sample: what enters the side block, what it
    returns, and the blend of the two under the mask. *)
Lemma forward_side_interpolater_blend (m : MDT) (L D : nat) (x : tokens)
    (c mask : list R) (ir : list nat) :
  length x <= L ->
  Forall (fun tok => length tok = D) x ->
  length (mask_token m) = D ->
  shape2 L D (decoder_pos_embed m) ->
  Permutation ir (seq 0 L) ->
  length mask = L ->
  (forall xb, shape2 L D xb ->
     exists side, run_sideblocks (sideblocks m) xb c = Some side /\ shape2 L D side) ->
  exists xb side out,
    side_input m x ir = Some xb /\ shape2 L D xb /\
    run_sideblocks (sideblocks m) xb c = Some side /\ shape2 L D side /\
    forward_side_interpolater m x c mask ir = Some out /\ shape2 L D out /\
    forall i, i < L ->
      nth i out [] = blend_row (nth i side []) (nth i xb []) (nth i mask 0%R) /\
      length (nth i side []) = length (nth i xb []).
Proof.
  intros HK Hx Hmt Hdpe Hir Hmask Hside.
  destruct (side_input_shape m L D x ir HK Hx Hmt Hdpe Hir) as [xb [Hxb Hshape]].
  destruct (Hside xb Hshape) as [side [Hrun Hsshape]].
  exists xb, side,
    (map (fun t => blend_row (fst (fst t)) (snd (fst t)) (snd t))
         (combine (combine side xb) mask)).
  split; [exact Hxb|]. split; [exact Hshape|].
  split; [exact Hrun|]. split; [exact Hsshape|]. split; [|split].
  - unfold forward_side_interpolater. rewrite Hxb. cbn [bind].
    rewrite Hrun. cbn [bind].
    apply (masked_shortcut_eq L D); assumption.
  - apply masked_shortcut_shape; assumption.
  - intros i Hi. apply (masked_shortcut_nth L D); assumption.
Qed.

(** C1, as the code has it: in the side-splice step, with the binary mask of
    [random_masking], the blend puts at every kept position (mask 0) the
    value from before the side block and at every removed position
    (mask 1) the output of the side block. *)
Theorem side_splice_blend (m : MDT) (rand : nat -> nat -> Q) (n L D : nat)
    (len_keep : Z) (x0 x x_masked : tokens) (c mask : list R) (ir ik : list nat) :
  length x0 = L ->
  random_masking_row rand L len_keep n x0 = Some (x_masked, mask, ir, ik) ->
  shape2 (length x_masked) D x ->
  length (mask_token m) = D ->
  shape2 L D (decoder_pos_embed m) ->
  (forall xb, shape2 L D xb ->
     exists side, run_sideblocks (sideblocks m) xb c = Some side /\ shape2 L D side) ->
  exists x_before side out,
    side_input m x ir = Some x_before /\
    run_sideblocks (sideblocks m) x_before c = Some side /\
    forward_side_interpolater m x c mask ir = Some out /\
    length out = L /\
    forall i, i < L ->
      (nth i mask 0%R = 0%R \/ nth i mask 0%R = 1%R) /\
      (nth i mask 0%R = 0%R -> nth i out [] = nth i x_before []) /\
      (nth i mask 0%R = 1%R -> nth i out [] = nth i side []).
Proof.
  intros Hx0 Hrm [Hxl Hxw] Hmt Hdpe Hside.
  rewrite (random_masking_row_eq rand L len_keep n x0 Hx0) in Hrm.
  inversion Hrm; subst x_masked mask ir ik; clear Hrm.
  set (mask := map (fun i => nth i (mask_pattern L len_keep) 0%R)
                   (ids_restore rand n L)) in *.
  assert (HK : length x <= L).
  { rewrite Hxl, length_map. unfold ids_keep.
    rewrite length_firstn, ids_shuffle_length. lia. }
  assert (Hmask : length mask = L)
    by (unfold mask; now rewrite length_map, ids_restore_length).
  destruct (forward_side_interpolater_blend m L D x c mask (ids_restore rand n L)
              HK Hxw Hmt Hdpe (ids_restore_perm rand n L) Hmask Hside)
    as [xb [side [out [Hxb [_ [Hrun [_ [Hout [[Hol _] Hnth]]]]]]]]].
  exists xb, side, out. repeat split; try assumption.
  - pose proof (mask_binary rand n L len_keep) as Hb. fold mask in Hb.
    rewrite Forall_forall in Hb. apply Hb, nth_In. lia.
  - intros H0. destruct (Hnth i H) as [Hn Hl]. rewrite Hn, H0.
    now apply blend_row_kept.
  - intros H1. destruct (Hnth i H) as [Hn Hl]. rewrite Hn, H1.
    now apply blend_row_removed.
Qed.

(** ** Classifier-free guidance *)

Lemma split_halves_even {A : Type} (l : list A) (k : nat) :
  0 < k -> length l = 2 * k -> split_halves l = Some (firstn k l, skipn k l).
Proof.
  intros Hk Hl. unfold split_halves.
  assert (E : length l / 2 = k)
    by (rewrite Hl, Nat.mul_comm; apply Nat.div_mul; lia).
  rewrite E.
  destruct (Nat.ltb_spec 0 k); [|lia].
  rewrite Hl, Nat.eqb_refl. reflexivity.
Qed.

Lemma cat_channels_same (eps rest : list image) :
  length eps = length rest -> cat_channels eps rest = Some (zip_with (@app _) eps rest).
Proof.
  intros H. unfold cat_channels, zip_batch. rewrite H, Nat.eqb_refl. reflexivity.
Qed.

Lemma zip_with_firstn_skipn {A : Type} (k : nat) (l : list (list A)) :
  zip_with (@app _) (map (firstn k) l) (map (skipn k) l) = l.
Proof.
  unfold zip_with. induction l as [|a l IH]; simpl; [reflexivity|].
  now rewrite IH, firstn_skipn.
Qed.

Lemma extrapolate_length (s : R) (c u : image) :
  length (extrapolate s c u) = Nat.min (length c) (length u).
Proof.
  unfold extrapolate, zip_with. now rewrite length_map, length_combine.
Qed.

Section GuidanceFacts.
Variable tensor_pow : R -> R -> R.

Lemma real_cfg_scale_one (t diffusion_steps scale_pow : R) :
  real_cfg_scale tensor_pow 1 t diffusion_steps scale_pow = 1%R.
Proof.
  unfold real_cfg_scale. ring.
Qed.

(** The guided branch on a forward output of [2k] samples. *)
Lemma guidance_at_guided (K : nat) (m : MDT) (rng : Rng) (x : list image)
    (t : list R) (y : list Z) (cfg_scale diffusion_steps scale_pow : R)
    (model_out : list image) (k : nat) :
  let half := firstn (length x / 2) x in
  let eps := map (firstn K) model_out in
  let scales :=
    firstn (length x / 2)
      (map (fun ti => real_cfg_scale tensor_pow cfg_scale ti diffusion_steps scale_pow) t) in
  let half_eps :=
    zip_with (fun s cu => extrapolate s (fst cu) (snd cu)) scales
             (combine (firstn k eps) (skipn k eps)) in
  forward m rng (half ++ half) t y false = Some model_out ->
  length x / 2 = k -> 0 < k -> length model_out = 2 * k -> k <= length t ->
  guidance_at tensor_pow K m rng x t y (Some cfg_scale) diffusion_steps scale_pow
  = Some (zip_with (@app _) (half_eps ++ half_eps) (map (skipn K) model_out)) /\
  length half_eps = k.
Proof.
  intros half eps scales half_eps Hf Hx Hk Hmo Ht.
  assert (Heps : length eps = 2 * k) by (unfold eps; now rewrite length_map).
  assert (Hsc : length scales = k).
  { unfold scales. rewrite length_firstn, length_map, Hx. lia. }
  assert (Hcu : length (combine (firstn k eps) (skipn k eps)) = k).
  { rewrite length_combine, length_firstn, length_skipn. lia. }
  assert (Hhe : length half_eps = k).
  { unfold half_eps. rewrite zip_with_length; [exact Hsc|].
    rewrite Hsc. symmetry. exact Hcu. }
  split; [|exact Hhe].
  unfold guidance_at. fold half. rewrite Hf. cbn [bind]. fold eps.
  rewrite (split_halves_even eps k Hk Heps). cbn [bind]. fold scales.
  rewrite broadcast2_same by (rewrite Hsc; symmetry; exact Hcu).
  cbn [bind]. fold half_eps.
  apply cat_channels_same. rewrite length_app, Hhe.
  rewrite length_map. unfold image, tokens in *. lia.
Qed.
End GuidanceFacts.

Lemma In_skipn {A : Type} (n : nat) (l : list A) (a : A) :
  In a (skipn n l) -> In a l.
Proof.
  intros H. rewrite <- (firstn_skipn n l). apply in_or_app. now right.
Qed.

(** Joining [K] leading channels with the channels from [K] on, and
    cutting at [K] again. *)
Lemma zip_app_cut {A : Type} (K C : nat) (a b : list (list A)) :
  length a = length b ->
  Forall (fun e => length e = Nat.min K C) a ->
  Forall (fun r => length r = C - K) b ->
  map (firstn K) (zip_with (@app _) a b) = a /\
  map (skipn K) (zip_with (@app _) a b) = b.
Proof.
  unfold zip_with.
  revert b; induction a as [|e a IH]; intros [|r b] Hl Ha Hb; simpl in *;
    try discriminate; [split; reflexivity|].
  inversion Ha as [|? ? He Ha']; inversion Hb as [|? ? Hr Hb']; subst.
  destruct (IH b) as [IH1 IH2]; [lia | assumption | assumption |].
  rewrite IH1, IH2.
  assert (Htail : K - length e = 0 \/ r = []).
  { destruct (Nat.le_gt_cases K C); [left; lia|].
    right. apply length_zero_iff_nil. lia. }
  split; f_equal.
  - rewrite firstn_app, (firstn_all2 (n := K) e) by lia.
    destruct Htail as [E|E]; rewrite E.
    + now rewrite firstn_0, app_nil_r.
    + now rewrite firstn_nil, app_nil_r.
  - rewrite skipn_app, (skipn_all2 (n := K) e) by lia.
    destruct Htail as [E|E]; rewrite E.
    + reflexivity.
    + now rewrite skipn_nil.
Qed.

Section GuidanceClaims.
Variable tensor_pow : R -> R -> R.

Lemma guided_channels (K C : nat) (scales : list R) (eps : list image) (k : nat) :
  Forall (fun e => length e = Nat.min K C) eps ->
  Forall (fun e => length e = Nat.min K C)
    (zip_with (fun s (cu : image * image) => extrapolate s (fst cu) (snd cu)) scales
              (combine (firstn k eps) (skipn k eps))).
Proof.
  intros He. rewrite Forall_forall in He.
  apply Forall_zip_with. intros s [c u] Hin. cbn [fst snd].
  apply in_combine_r in Hin.
  rewrite extrapolate_length.
  rewrite (He c), (He u).
  - apply Nat.min_id.
  - apply in_combine_r in Hin. now apply In_skipn in Hin.
  - apply in_combine_l in Hin. now apply In_firstn in Hin.
Qed.

(** The guided branch cut at channel [K]: leading channels guided,
    the channels from [K] on unchanged. *)
Lemma guidance_cut (K : nat) (m : MDT) (rng : Rng) (x : list image) (t : list R)
    (y : list Z) (cfg_scale diffusion_steps scale_pow : R)
    (model_out : list image) (k C : nat) :
  let half := firstn (length x / 2) x in
  let eps := map (firstn K) model_out in
  let scales :=
    firstn (length x / 2)
      (map (fun ti => real_cfg_scale tensor_pow cfg_scale ti diffusion_steps scale_pow) t) in
  let guided :=
    zip_with (fun s (cu : image * image) => extrapolate s (fst cu) (snd cu)) scales
             (combine (firstn k eps) (skipn k eps)) in
  forward m rng (half ++ half) t y false = Some model_out ->
  length x / 2 = k -> 0 < k -> length model_out = 2 * k -> k <= length t ->
  Forall (fun s => length s = C) model_out ->
  exists out,
    guidance_at tensor_pow K m rng x t y (Some cfg_scale) diffusion_steps scale_pow
      = Some out /\
    map (firstn K) out = guided ++ guided /\
    map (skipn K) out = map (skipn K) model_out.
Proof.
  intros half eps scales guided Hf Hx Hk Hmo Ht HC.
  destruct (guidance_at_guided tensor_pow K m rng x t y cfg_scale diffusion_steps
              scale_pow model_out k Hf Hx Hk Hmo Ht) as [Hg Hlen].
  fold eps scales guided in Hg, Hlen.
  exists (zip_with (@app _) (guided ++ guided) (map (skipn K) model_out)).
  split; [exact Hg|].
  apply (zip_app_cut K C).
  - rewrite length_app, Hlen, length_map. unfold image, tokens in *. lia.
  - assert (He : Forall (fun e : image => length e = Nat.min K C) eps).
    { unfold eps. apply Forall_map. eapply Forall_impl; [|exact HC].
      intros s Hs. cbv beta. now rewrite length_firstn, Hs. }
    apply Forall_app. split; apply (guided_channels K C scales eps k He).
  - apply Forall_map. eapply Forall_impl; [|exact HC].
    intros s Hs. cbv beta. now rewrite length_skipn, Hs.
Qed.

(** C2, as the code has it: [forward_with_cfg] cuts the forward output at the
    fixed channel index 3, whatever [in_channels]: the first three
    channels of the result are the guided quantity (the same in both
    halves of the batch), every channel from index 3 on is the forward
    output's channel unchanged, and the cut is the one at [in_channels]
    when [in_channels = 3].  Without [cfg_scale] the forward output is
    returned as it is. *)
Theorem forward_with_cfg_split (m : MDT) (rng : Rng) (x : list image) (t : list R)
    (y : list Z) (cfg_scale diffusion_steps scale_pow : R)
    (model_out : list image) (k C : nat) :
  let half := firstn (length x / 2) x in
  let eps := map (firstn 3) model_out in
  let scales :=
    firstn (length x / 2)
      (map (fun ti => real_cfg_scale tensor_pow cfg_scale ti diffusion_steps scale_pow) t) in
  let guided :=
    zip_with (fun s (cu : image * image) => extrapolate s (fst cu) (snd cu)) scales
             (combine (firstn k eps) (skipn k eps)) in
  forward m rng (half ++ half) t y false = Some model_out ->
  length x / 2 = k -> 0 < k -> length model_out = 2 * k -> k <= length t ->
  Forall (fun s => length s = C) model_out ->
  (exists out,
     forward_with_cfg tensor_pow m rng x t y (Some cfg_scale) diffusion_steps scale_pow
       = Some out /\
     map (firstn 3) out = guided ++ guided /\
     map (skipn 3) out = map (skipn 3) model_out /\
     (in_channels m = 3 ->
      forward_with_cfg_spec tensor_pow m rng x t y (Some cfg_scale)
        diffusion_steps scale_pow = Some out)) /\
  (forall mo, forward m rng x t y false = Some mo ->
     forward_with_cfg tensor_pow m rng x t y None diffusion_steps scale_pow = Some mo).
Proof.
  intros half eps scales guided Hf Hx Hk Hmo Ht HC. split.
  - destruct (guidance_cut 3 m rng x t y cfg_scale diffusion_steps scale_pow
                model_out k C Hf Hx Hk Hmo Ht HC) as [out [Hg [Hc1 Hc2]]].
    exists out.
    split; [exact Hg|]. split; [exact Hc1|]. split; [exact Hc2|].
    intros Hin. unfold forward_with_cfg_spec. rewrite Hin. exact Hg.
  - intros mo Hmo'. unfold forward_with_cfg, guidance_at. rewrite Hmo'. cbn [bind].
    rewrite cat_channels_same by now rewrite !length_map.
    now rewrite zip_with_firstn_skipn.
Qed.

Lemma guided_scale_one (scales : list R) (cond uncond : list image) :
  Forall (fun s => s = 1%R) scales ->
  length scales = length cond ->
  zip_with (fun s (cu : image * image) => extrapolate s (fst cu) (snd cu)) scales
           (combine cond uncond) = zip_with (extrapolate 1) cond uncond.
Proof.
  unfold zip_with. intros Hs. revert cond uncond.
  induction Hs as [|s scales Hs1 _ IH]; intros [|c cond] uncond Hl;
    simpl in *; try discriminate; [reflexivity|].
  destruct uncond as [|u uncond]; [reflexivity|].
  simpl. subst s. f_equal. apply IH. lia.
Qed.

(** C5, as the code has it: with [cfg_scale = 1] the guidance strength
    [real_cfg_scale] is 1 at every timestep.  The first three channels
    of both halves of the result are then
    [uncond + 1 * (cond - uncond)], evaluated entry by entry on the two
    halves of the forward output, and the channels from index 3 on are
    passed through.  Rounding can move that value away from the
    conditional estimate: in binary32, [uncond = 1] and
    [cond = 2 ^ -30] give 0. *)
Theorem forward_with_cfg_scale_one (m : MDT) (rng : Rng) (x : list image)
    (t : list R) (y : list Z) (diffusion_steps scale_pow : R)
    (model_out : list image) (k C : nat) :
  let half := firstn (length x / 2) x in
  let eps := map (firstn 3) model_out in
  let guided := zip_with (extrapolate 1) (firstn k eps) (skipn k eps) in
  forward m rng (half ++ half) t y false = Some model_out ->
  length x / 2 = k -> 0 < k -> length model_out = 2 * k -> k <= length t ->
  Forall (fun s => length s = C) model_out ->
  (forall ti, real_cfg_scale tensor_pow 1 ti diffusion_steps scale_pow = 1%R) /\
  (exists out,
     forward_with_cfg tensor_pow m rng x t y (Some 1%R) diffusion_steps scale_pow
       = Some out /\
     map (firstn 3) out = guided ++ guided /\
     map (skipn 3) out = map (skipn 3) model_out) /\
  extrapolate_float32 (float32_of 1 0) (float32_of 1 (-30)) (float32_of 1 0)
    = S754_zero false /\
  S754_zero false <> float32_of 1 (-30).
Proof.
  intros half eps guided Hf Hx Hk Hmo Ht HC.
  split; [intros ti; apply real_cfg_scale_one|].
  split; [|split; [vm_compute; reflexivity | vm_compute; discriminate]].
  destruct (guidance_cut 3 m rng x t y 1%R diffusion_steps scale_pow
              model_out k C Hf Hx Hk Hmo Ht HC) as [out [Hg [Hc1 Hc2]]].
  exists out. split; [exact Hg|]. split; [|exact Hc2].
  rewrite Hc1. fold eps. unfold guided.
  rewrite guided_scale_one; [reflexivity| |].
  - apply Forall_forall. intros s Hs. apply In_firstn in Hs.
    apply in_map_iff in Hs. destruct Hs as [ti [Hs _]]. subst s.
    apply real_cfg_scale_one.
  - unfold eps. rewrite !length_firstn, !length_map, Hx. unfold image, tokens in *. lia.
Qed.
End GuidanceClaims.

(** ** Construction *)

Lemma hidden_div4 (D : nat) :
  D mod 4 = 0 ->
  D mod 2 = 0 /\ (D / 2) mod 2 = 0 /\ D / 2 / 2 + D / 2 / 2 = D / 2 /\ D / 2 + D / 2 = D.
Proof.
  intros H.
  pose proof (Nat.div_mod_eq D 4) as E. rewrite H in E.
  set (q := D / 4) in *.
  assert (ED : D = (2 * q) * 2) by lia.
  assert (E2 : D / 2 = 2 * q) by (rewrite ED; apply Nat.div_mul; lia).
  assert (E4 : D / 2 / 2 = q)
    by (rewrite E2, Nat.mul_comm; apply Nat.div_mul; lia).
  repeat split.
  - rewrite ED. apply Nat.Div0.mod_mul.
  - rewrite E2, Nat.mul_comm. apply Nat.Div0.mod_mul.
  - lia.
  - lia.
Qed.

Lemma flat_map_const_length {A B : Type} (f : A -> list B) (n : nat) (l : list A) :
  (forall a, In a l -> length (f a) = n) -> length (flat_map f l) = length l * n.
Proof.
  induction l as [|a l IH]; intros H; simpl; [reflexivity|].
  rewrite length_app, IH, (H a); [reflexivity | now left |].
  intros b Hb. apply H. now right.
Qed.

Lemma sincos_1d_shape (D : nat) (pos : list R) :
  D mod 2 = 0 ->
  exists emb, get_1d_sincos_pos_embed_from_grid D pos = Some emb /\
              shape2 (length pos) (D / 2 + D / 2) emb.
Proof.
  intros HD. unfold get_1d_sincos_pos_embed_from_grid.
  rewrite HD. cbn [Nat.eqb negb].
  eexists. split; [reflexivity|]. split.
  - now rewrite length_map.
  - apply Forall_map, Forall_forall. intros p _.
    now rewrite length_app, !length_map, length_seq.
Qed.

(** With a width divisible by four the position embedding exists and
    has one width-[D] row per grid position. *)
Lemma sincos_2d_shape (D g : nat) :
  D mod 4 = 0 ->
  exists pe, get_2d_sincos_pos_embed D g = Some pe /\ shape2 (g * g) D pe.
Proof.
  intros H4. destruct (hidden_div4 D H4) as [H2 [H22 [Hq Hh]]].
  unfold get_2d_sincos_pos_embed, get_2d_sincos_pos_embed_from_grid.
  rewrite H2. cbn [Nat.eqb negb fst snd].
  set (grid0 := flat_map (fun _ => map INR (seq 0 g)) (seq 0 g)).
  set (grid1 := flat_map (fun i => repeat (INR i) g) (seq 0 g)).
  assert (L0 : length grid0 = g * g).
  { unfold grid0. rewrite (flat_map_const_length _ g), length_seq; [reflexivity|].
    intros a _. now rewrite length_map, length_seq. }
  assert (L1 : length grid1 = g * g).
  { unfold grid1. rewrite (flat_map_const_length _ g), length_seq; [reflexivity|].
    intros a _. now rewrite repeat_length. }
  destruct (sincos_1d_shape (D / 2) grid0 H22) as [eh [Heh [Lh Wh]]].
  destruct (sincos_1d_shape (D / 2) grid1 H22) as [ew [Hew [Lw Ww]]].
  rewrite Heh, Hew. cbn [bind].
  eexists. split; [reflexivity|]. split.
  - rewrite zip_with_length; congruence.
  - rewrite Forall_forall in Wh, Ww.
    apply Forall_zip_with. intros u v Hin. rewrite length_app.
    rewrite (Wh u), (Ww v).
    + lia.
    + eapply in_combine_r; eauto.
    + eapply in_combine_l; eauto.
Qed.

Lemma Attention_init_ok (dim heads n_patches : nat) (tv : nat -> nat -> R) :
  0 < heads -> heads <= dim ->
  exists a, Attention_init dim heads n_patches tv = Some a.
Proof.
  intros Hh Hd. unfold Attention_init.
  destruct (Nat.eqb_spec heads 0); [lia|].
  destruct (Nat.eqb_spec (dim / heads) 0) as [E|_]; [|eauto].
  exfalso. apply Nat.div_small_iff in E; lia.
Qed.

Lemma mlp_hidden_dim_nonneg (hidden : nat) (mlp_ratio : Q) :
  (0 <= mlp_ratio)%Q -> (0 <= py_int (inject_Z (Z.of_nat hidden) * mlp_ratio)%Q)%Z.
Proof.
  destruct mlp_ratio as [a b]. unfold Qle, py_int. simpl. intros H.
  apply Z.quot_pos; nia.
Qed.

Lemma MDTBlock_init_ok (ini : Initializer) (side : bool) (k hidden heads : nat)
    (mlp_ratio : Q) (n_patches : nat) :
  0 < heads -> heads <= hidden -> (0 <= mlp_ratio)%Q ->
  exists b, MDTBlock_init ini side k hidden heads mlp_ratio n_patches = Some b.
Proof.
  intros Hh Hd Hr. unfold MDTBlock_init.
  destruct (Attention_init_ok hidden heads n_patches
              (initial_values ini (P_rel_pos_table side k)) Hh Hd) as [a Ha].
  rewrite Ha. cbn [bind]. unfold Mlp_init.
  pose proof (mlp_hidden_dim_nonneg hidden mlp_ratio Hr) as Hm.
  destruct (Z.ltb_spec (py_int (inject_Z (Z.of_nat hidden) * mlp_ratio)%Q) 0); [lia|].
  cbn [bind]. eauto.
Qed.

(** The blocks of one stack. *)
Lemma blocks_init_ok (ini : Initializer) (side : bool) (hidden heads : nat)
    (mlp_ratio : Q) (n_patches n : nat) :
  0 < heads -> heads <= hidden -> (0 <= mlp_ratio)%Q ->
  exists blks,
    sequence (map (fun k => MDTBlock_init ini side k hidden heads mlp_ratio n_patches)
                  (seq 0 n)) = Some blks /\
    length blks = n /\
    Forall (fun b => exists k,
              MDTBlock_init ini side k hidden heads mlp_ratio n_patches = Some b) blks.
Proof.
  intros Hh Hd Hr.
  destruct (sequence_Forall_exists
              (fun k => MDTBlock_init ini side k hidden heads mlp_ratio n_patches)
              (fun b => exists k,
                 MDTBlock_init ini side k hidden heads mlp_ratio n_patches = Some b)
              (seq 0 n)) as [blks [Hs [Hl HF]]].
  - apply Forall_forall. intros k _.
    destruct (MDTBlock_init_ok ini side k hidden heads mlp_ratio n_patches Hh Hd Hr)
      as [b Hb].
    exists b. split; [exact Hb | now exists k].
  - exists blks. rewrite length_seq in Hl. repeat split; assumption.
Qed.

Lemma MDT_init_fields (ini : Initializer) (cfg : Config) (dl : Z) :
  0 < cfg_patch_size cfg ->
  0 < cfg_num_heads cfg ->
  cfg_num_heads cfg <= cfg_hidden_size cfg ->
  cfg_hidden_size cfg mod 4 = 0 ->
  (0 <= cfg_mlp_ratio cfg)%Q ->
  cfg_decode_layer cfg = Some dl ->
  exists m pe blks sblks,
    MDT_init ini cfg = Some m /\ MDT_fields ini cfg dl m pe blks sblks.
Proof.
  intros Hp Hh Hd H4 Hr Hdl.
  set (g := cfg_input_size cfg / cfg_patch_size cfg).
  set (D := cfg_hidden_size cfg).
  destruct (sincos_2d_shape D g H4) as [pe [Hpe Hshape]].
  destruct (blocks_init_ok ini false D (cfg_num_heads cfg) (cfg_mlp_ratio cfg) (g * g)
              (cfg_depth cfg) Hh Hd Hr) as [blks [Hb [Hbl HbF]]].
  destruct (blocks_init_ok ini true D (cfg_num_heads cfg) (cfg_mlp_ratio cfg) (g * g)
              1 Hh Hd Hr) as [sblks [Hsb [_ HsbF]]].
  unfold MDT_init, PatchEmbed_num_patches.
  destruct (Nat.eqb_spec (cfg_patch_size cfg) 0); [lia|]. cbn [bind].
  fold g D. rewrite Hb. cbn [bind]. rewrite Hsb. cbn [bind].
  rewrite Hdl. cbn [bind].
  rewrite Nat.sqrt_square, Hpe. cbn [bind].
  eexists. exists pe, blks, sblks. split; [reflexivity|].
  constructor; cbn; try reflexivity; try assumption.
  destruct (cfg_mask_ratio cfg); [now rewrite length_map, length_seq|].
  apply repeat_length.
Qed.

(** C3, as the code has it: construction examines neither the range of
    [mask_ratio], nor [decode_layer] against [depth], nor whether
    [num_heads] divides [hidden_size].  Whenever [decode_layer] is given,
    the patch size, the head count and the channel count are positive,
    the input is at least one patch wide, [mlp_ratio] is not negative
    and [hidden_size] is at least the head count and divisible by four,
    construction succeeds and stores [mask_ratio] and [decode_layer] as
    given. *)
Theorem MDT_init_unchecked (ini : Initializer) (cfg : Config) (dl : Z) :
  0 < cfg_patch_size cfg ->
  cfg_patch_size cfg <= cfg_input_size cfg ->
  0 < cfg_in_channels cfg ->
  0 < cfg_num_heads cfg ->
  cfg_num_heads cfg <= cfg_hidden_size cfg ->
  cfg_hidden_size cfg mod 4 = 0 ->
  (0 <= cfg_mlp_ratio cfg)%Q ->
  cfg_decode_layer cfg = Some dl ->
  exists m,
    MDT_init ini cfg = Some m /\
    mask_ratio m = cfg_mask_ratio cfg /\
    decode_layer m = dl /\
    length (blocks m) = cfg_depth cfg.
Proof.
  intros Hp _ _ Hh Hd H4 Hr Hdl.
  destruct (MDT_init_fields ini cfg dl Hp Hh Hd H4 Hr Hdl)
    as [m [pe [blks [sblks [Hm F]]]]].
  exists m. split; [exact Hm|].
  split; [apply (fields_mask_ratio F)|].
  split; [apply (fields_decode_layer F)|].
  rewrite (fields_blocks F), length_map.
  apply (fields_depth F).
Qed.

(** ** The fresh final layer *)

Lemma dot_zero (w x : list R) : Forall (fun v => v = 0%R) w -> dot w x = 0%R.
Proof.
  unfold dot. intros Hw. revert x.
  induction Hw as [|v w Hv _ IH]; intros [|a x]; simpl; try reflexivity.
  rewrite IH, Hv. ring.
Qed.

Lemma linear_zero_out (n_in n_out : nat) (w : nat -> nat -> R) (x : list R) :
  length x = n_in ->
  linear (zero_out (Linear_init n_in n_out w)) x = Some (repeat 0%R n_out).
Proof.
  intros Hx. unfold linear, zero_out, Linear_init.
  cbn [in_features weight bias]. rewrite Hx, Nat.eqb_refl. f_equal.
  set (ws := map (map (fun _ : R => 0%R))
                 (map (fun o => map (w o) (seq 0 n_in)) (seq 0 n_out))).
  set (bs := map (fun _ : R => 0%R) (repeat 0%R n_out)).
  assert (Hlen : length (combine ws bs) = n_out).
  { unfold ws, bs. rewrite length_combine, !length_map, length_seq, repeat_length.
    apply Nat.min_id. }
  replace (repeat 0%R n_out)
    with (repeat 0%R (length (map (fun wb => (dot (fst wb) x + snd wb)%R)
                                  (combine ws bs))))
    by (now rewrite length_map, Hlen).
  apply Forall_eq_repeat.
  apply Forall_map, Forall_forall. intros [wr b] Hin. cbn [fst snd]. symmetry.
  assert (Hw : Forall (fun v => v = 0%R) wr).
  { apply in_combine_l in Hin. unfold ws in Hin.
    apply in_map_iff in Hin. destruct Hin as [r [Hr _]]. subst wr.
    apply Forall_map, Forall_forall. reflexivity. }
  assert (Hb : b = 0%R).
  { apply in_combine_r in Hin. unfold bs in Hin.
    apply in_map_iff in Hin. now destruct Hin as [r [Hr _]]. }
  rewrite (dot_zero wr x Hw), Hb. ring.
Qed.

Lemma layer_norm_length (x : list R) : length (layer_norm x) = length x.
Proof.
  unfold layer_norm. apply length_map.
Qed.

Lemma modulate_shape (T D : nat) (x : tokens) (shift scale : list R) :
  shape2 T D x -> length shift = D -> length scale = D ->
  exists xm, modulate x shift scale = Some xm /\ shape2 T D xm.
Proof.
  intros [Hl Hw] Hsh Hsc. unfold modulate.
  destruct (sequence_Forall_exists
              (fun tok =>
                 scaled <- vec_op Rmult tok (map (fun s => (1 + s)%R) scale) ;;
                 vec_op Rplus scaled shift)
              (fun r => length r = D) x) as [xm [Hxm [Hlen HF]]].
  - eapply Forall_impl; [|exact Hw]. intros tok Htok. cbv beta.
    destruct (vec_op_same Rmult tok (map (fun s => (1 + s)%R) scale)) as [E1 L1];
      [rewrite length_map; congruence|].
    rewrite E1. cbn [bind].
    destruct (vec_op_same Rplus
                (zip_with Rmult tok (map (fun s => (1 + s)%R) scale)) shift)
      as [E2 L2]; [congruence|].
    rewrite E2. eexists. split; [reflexivity|]. congruence.
  - exists xm. split; [exact Hxm|]. split; [congruence | exact HF].
Qed.

(** After [initialize_weights] the final layer maps every width-[D]
    token sequence, under every width-[D] conditioning vector, to
    all-zero patch vectors. *)
Lemma FinalLayer_forward_fresh (D n_out : nat) (w1 w2 : nat -> nat -> R)
    (x : tokens) (c : list R) :
  Forall (fun tok => length tok = D) x -> length c = D ->
  FinalLayer_forward
    {| fl_linear := zero_out (Linear_init D n_out w1);
       fl_adaLN_modulation := zero_out (Linear_init D (2 * D) w2) |} x c
  = Some (repeat (repeat 0%R n_out) (length x)).
Proof.
  intros Hx Hc. unfold FinalLayer_forward. cbn [fl_linear fl_adaLN_modulation].
  rewrite linear_zero_out by now rewrite length_map. cbn [bind].
  unfold chunk2. rewrite repeat_length.
  destruct (Nat.eqb_spec (2 * D) 1); [lia|]. cbn [bind].
  assert (Hs : (2 * D + 1) / 2 = D).
  { replace (2 * D + 1) with (1 + D * 2) by lia.
    rewrite Nat.div_add by lia. reflexivity. }
  rewrite Hs.
  destruct (modulate_shape (length x) D (map layer_norm x)
              (firstn D (repeat 0%R (2 * D))) (skipn D (repeat 0%R (2 * D))))
    as [xm [Hxm [Hl Hw]]].
  - split; [apply length_map|].
    apply Forall_map. eapply Forall_impl; [|exact Hx].
    intros tok Ht. cbv beta. now rewrite layer_norm_length.
  - rewrite length_firstn, repeat_length. lia.
  - rewrite length_skipn, repeat_length. lia.
  - rewrite Hxm. cbn [bind].
    rewrite (sequence_map_Some _ (fun _ => repeat 0%R n_out)).
    + now rewrite map_const, Hl.
    + eapply Forall_impl; [|exact Hw]. intros tok Ht. cbv beta.
      now apply linear_zero_out.
Qed.

Lemma nth_zero_tokens (n T i j : nat) :
  nth i (nth j (repeat (repeat 0%R n) T) []) 0%R = 0%R.
Proof.
  destruct (Nat.lt_ge_cases j T) as [Hj|Hj].
  - rewrite (@nth_repeat_lt _ (repeat 0%R n) T j [] Hj). apply nth_repeat.
  - assert (E : nth j (repeat (repeat 0%R n) T) [] = [])
      by (apply nth_overflow; now rewrite repeat_length).
    rewrite E. now destruct i.
Qed.

(** Unpatchify of all-zero patch vectors on a [q x q] grid. *)
Lemma unpatchify_zero (m : MDT) (q : nat) :
  unpatchify m (repeat (repeat 0%R (patch_size m * patch_size m * out_channels m))
                       (q * q))
  = Some (zeros_image (out_channels m) (q * patch_size m) (q * patch_size m)).
Proof.
  unfold unpatchify. rewrite repeat_length, Nat.sqrt_square, Nat.eqb_refl.
  cbn [negb].
  assert (Hall : forallb (fun tok : list R =>
                   length tok =? patch_size m * patch_size m * out_channels m)
                   (repeat (repeat 0%R (patch_size m * patch_size m * out_channels m))
                           (q * q)) = true).
  { apply forallb_forall. intros tok Ht. apply repeat_spec in Ht. subst tok.
    rewrite repeat_length. apply Nat.eqb_refl. }
  rewrite Hall. cbn [negb]. apply f_equal. unfold zeros_image.
  assert (Hconst : forall (A : Type) (f : nat -> A) (a : A) (n : nat),
            (forall i, f i = a) -> map f (seq 0 n) = repeat a n).
  { intros A f a n Hf. rewrite (map_ext f (fun _ => a) Hf), map_const.
    now rewrite length_seq. }
  apply Hconst. intros ch. apply Hconst. intros row. apply Hconst. intros col.
  apply nth_zero_tokens.
Qed.

(** ** The block loop *)

Section LoopFacts.
Variable m : MDT.
Variables L D K : nat.
Variable masking : bool.
Variables c mask : list R.
Variables ir ik : list nat.

Hypothesis blocks_ok : Forall (block_ok L D) (blocks m).
Hypothesis sideblocks_ok : Forall (block_ok L D) (sideblocks m).
Hypothesis dpe_shape : shape2 L D (decoder_pos_embed m).
Hypothesis mask_token_width : length (mask_token m) = D.
Hypothesis c_width : length c = D.
Hypothesis masked_sample :
  masking = true ->
  K <= L /\ length ik = K /\ Forall (fun i => i < L) ik /\
  Permutation ir (seq 0 L) /\ length mask = L.

Lemma run_sideblocks_shape (bs : list MDTBlock) (xb : tokens) :
  Forall (block_ok L D) bs -> shape2 L D xb ->
  exists side, run_sideblocks bs xb c = Some side /\ shape2 L D side.
Proof.
  unfold run_sideblocks. intros Hbs. revert xb.
  induction Hbs as [|b bs Hb _ IH]; intros xb Hxb; simpl.
  - eauto.
  - destruct Hxb as [Hl Hw].
    destruct (Hb xb c None Hw c_width Hl) as [x' [Hx' Hs]].
    rewrite Hx'. rewrite Hl in Hs. now apply IH.
Qed.

Lemma spliced_before_succ (a : nat) :
  spliced_before m (S a) =
  spliced_before m a || (Z.of_nat a =? splice_index m)%Z.
Proof.
  unfold spliced_before.
  destruct (Z.leb_spec 0 (splice_index m)), (Z.ltb_spec (splice_index m) (Z.of_nat (S a))),
    (Z.ltb_spec (splice_index m) (Z.of_nat a)), (Z.eqb_spec (Z.of_nat a) (splice_index m));
    simpl; try reflexivity; lia.
Qed.

Lemma block_step_ok (a : nat) (b : MDTBlock) (st : tokens * bool) :
  block_ok L D b ->
  loop_state_ok m L D K masking a st ->
  exists st', block_step m masking c mask ir ik (Some st) (a, b) = Some st' /\
              loop_state_ok m L D K masking (S a) st'.
Proof.
  intros Hb Hst. destruct st as [x ms]. unfold block_step. cbn [bind fst snd].
  unfold loop_state_ok in *. rewrite spliced_before_succ.
  fold (splice_index m).
  destruct (Z.eqb_spec (Z.of_nat a) (splice_index m)) as [E|E].
  - assert (Hnot : spliced_before m a = false).
    { unfold spliced_before. rewrite <- E.
      destruct (Z.ltb_spec (Z.of_nat a) (Z.of_nat a)); [lia|]. apply andb_false_r. }
    rewrite Hnot in *. cbn [orb fst snd] in *. destruct Hst as [Hms Hx].
    destruct masking.
    + destruct (masked_sample eq_refl) as [HK [Hik [Hikb [Hir Hmask]]]].
      destruct Hx as [Hxl Hxw].
      destruct (forward_side_interpolater_blend m L D x c mask ir
                  ltac:(lia) Hxw mask_token_width dpe_shape Hir Hmask
                  (fun xb => run_sideblocks_shape (sideblocks m) xb sideblocks_ok))
        as [xb [side [out [_ [_ [_ [_ [Hout [[Hol How] _]]]]]]]]].
      rewrite Hout. cbn [bind].
      destruct (Hb out c None How c_width Hol) as [x' [Hx' Hs]].
      rewrite Hx'. cbn [bind]. eexists. split; [reflexivity|].
      cbn [fst snd]. rewrite Hol in Hs. auto.
    + destruct (mat_op_shape Rplus L D x (decoder_pos_embed m) Hx dpe_shape)
        as [Hop [Hol How]].
      rewrite Hop. cbn [bind]. subst ms.
      destruct (Hb _ c None How c_width Hol) as [x' [Hx' Hs]].
      rewrite Hx'. cbn [bind]. eexists. split; [reflexivity|].
      cbn [fst snd]. rewrite Hol in Hs. auto.
  - rewrite orb_false_r. cbn [bind].
    destruct (spliced_before m a); cbn [fst snd] in *; destruct Hst as [Hms Hx].
    + subst ms. destruct Hx as [Hxl Hxw].
      destruct (Hb x c None Hxw c_width Hxl) as [x' [Hx' Hs]].
      rewrite Hx'. cbn [bind]. eexists. split; [reflexivity|].
      cbn [fst snd]. rewrite Hxl in Hs. auto.
    + subst ms. destruct Hx as [Hxl Hxw]. destruct masking.
      * destruct (masked_sample eq_refl) as [HK [Hik [Hikb [Hir Hmask]]]].
        destruct (Hb x c (Some ik) Hxw c_width) as [x' [Hx' Hs]];
          [split; [congruence | exact Hikb]|].
        rewrite Hx'. cbn [bind]. eexists. split; [reflexivity|].
        cbn [fst snd]. rewrite Hxl in Hs. auto.
      * destruct (Hb x c None Hxw c_width Hxl) as [x' [Hx' Hs]].
        rewrite Hx'. cbn [bind]. eexists. split; [reflexivity|].
        cbn [fst snd]. rewrite Hxl in Hs. auto.
Qed.

Lemma block_loop_ok (bs : list MDTBlock) (a : nat) (st : tokens * bool) :
  Forall (block_ok L D) bs ->
  loop_state_ok m L D K masking a st ->
  exists st',
    fold_left (block_step m masking c mask ir ik)
              (combine (seq a (length bs)) bs) (Some st) = Some st' /\
    loop_state_ok m L D K masking (a + length bs) st'.
Proof.
  intros Hbs. revert a st.
  induction Hbs as [|b bs Hb _ IH]; intros a st Hst;
    cbn [fold_left combine seq length].
  - exists st. rewrite Nat.add_0_r. auto.
  - destruct (block_step_ok a b st Hb Hst) as [st1 [H1 Hst1]].
    rewrite H1. destruct (IH (S a) st1 Hst1) as [st' [H' Hst']].
    exists st'. split; [exact H'|]. now rewrite Nat.add_succ_r.
Qed.

(** The loop returns; the sequence has all [L] positions when the
    splice index lies inside the loop or the sample was not masked, and
    its entry length [K] otherwise. *)
Lemma run_blocks_shape (x : tokens) :
  shape2 (if masking then K else L) D x ->
  exists x',
    run_blocks m masking x c mask ir ik = Some x' /\
    shape2 (if spliced_before m (length (blocks m)) then L
            else if masking then K else L) D x'.
Proof.
  intros Hx. unfold run_blocks, enumerate.
  destruct (block_loop_ok (blocks m) 0 (x, masking) blocks_ok) as [st' [Hf Hst']].
  - unfold loop_state_ok.
    assert (E : spliced_before m 0 = false).
    { unfold spliced_before.
      destruct (Z.leb_spec 0 (splice_index m)), (Z.ltb_spec (splice_index m) (Z.of_nat 0));
        simpl; try reflexivity; lia. }
    rewrite E. cbn [fst snd]. auto.
  - rewrite Hf. cbn [bind]. exists (fst st'). split; [reflexivity|].
    unfold loop_state_ok in Hst'. cbn [Nat.add] in Hst'.
    destruct (spliced_before m (length (blocks m))); tauto.
Qed.
End LoopFacts.

(** ** Conditioning and masking inside [forward] *)

Lemma embedding_rows (table : list (list R)) (D : nat) (labels : list Z) :
  Forall (fun row => length row = D) table ->
  Forall (fun l => (0 <= l < Z.of_nat (length table))%Z) labels ->
  exists ys, sequence (map (embedding table) labels) = Some ys /\
             shape2 (length labels) D ys.
Proof.
  intros Ht Hl.
  destruct (sequence_Forall_exists (embedding table) (fun r => length r = D) labels)
    as [ys [Hys [Hlen HF]]].
  - eapply Forall_impl; [|exact Hl]. intros l Hr. cbv beta in *.
    unfold embedding. destruct (Z.ltb_spec l 0); [lia|].
    destruct (nth_error table (Z.to_nat l)) as [row|] eqn:E.
    + exists row. split; [reflexivity|].
      rewrite Forall_forall in Ht. apply Ht. eapply nth_error_In; eauto.
    + apply nth_error_None in E. lia.
  - exists ys. split; [exact Hys|]. split; assumption.
Qed.

(** The label embedder of a fresh model, in training mode, embeds every
    batch of valid class labels. *)
Lemma LabelEmbedder_forward_ok (nc D : nat) (p : Q) (tv : nat -> nat -> R)
    (draw : nat -> Q) (labels : list Z) :
  Forall (fun l => (0 <= l < Z.of_nat nc)%Z) labels ->
  exists ys,
    LabelEmbedder_forward (LabelEmbedder_init nc D p tv) draw labels true None = Some ys /\
    shape2 (length labels) D ys.
Proof.
  intros Hl. unfold LabelEmbedder_forward, LabelEmbedder_labels, LabelEmbedder_init.
  cbn [dropout_prob embedding_table num_classes andb orb].
  assert (Hrows : forall extra,
            Forall (fun row => length row = D)
                   (map (fun r => map (tv r) (seq 0 D)) (seq 0 (nc + extra)))).
  { intros extra. apply Forall_map, Forall_forall.
    intros r _. now rewrite length_map, length_seq. }
  assert (Hlen : forall extra,
            length (map (fun r => map (tv r) (seq 0 D)) (seq 0 (nc + extra)))
            = nc + extra).
  { intros extra. now rewrite length_map, length_seq. }
  destruct (Qle_bool p 0); cbn [negb orb].
  - cbn [bind]. apply embedding_rows; [apply Hrows|].
    rewrite Hlen. eapply Forall_impl; [|exact Hl]. intros l Hr. cbv beta in *. lia.
  - unfold token_drop, where_drop. cbn [dropout_prob num_classes].
    rewrite broadcast2_same by now rewrite length_map, length_seq.
    cbn [bind].
    set (drop_ids := map (fun i => negb (Qle_bool p (draw i))) (seq 0 (length labels))).
    destruct (embedding_rows _ D
                (zip_with (fun (d : bool) (l : Z) => if d then Z.of_nat nc else l)
                          drop_ids labels) (Hrows 1)) as [ys [Hys Hsh]].
    + rewrite Hlen. rewrite Forall_forall in Hl.
      apply Forall_zip_with. intros d l Hin. apply in_combine_r in Hin.
      specialize (Hl l Hin). cbv beta in Hl. destruct d; lia.
    + exists ys. split; [exact Hys|].
      rewrite zip_with_length in Hsh; [|unfold drop_ids; now rewrite length_map, length_seq].
      unfold drop_ids in Hsh. now rewrite length_map, length_seq in Hsh.
Qed.

Lemma hd_length_all {A : Type} (n : nat) (l : list (list A)) :
  Forall (fun s => length s = n) l ->
  Forall (fun s => length s = length (hd [] l)) l /\ (l = [] \/ length (hd [] l) = n).
Proof.
  intros H. destruct l as [|a l]; [split; [constructor | now left]|].
  inversion H; subst. simpl. split; [|now right].
  eapply Forall_impl; [|exact H]. intros s Hs. cbv beta. congruence.
Qed.

(** The samples [random_masking] returns on a batch of length-[L]
    sequences. *)
Lemma random_masking_eq (rand : nat -> nat -> Q) (x : list (list (list R)))
    (r : float64) (lk : Z) :
  let L := length (hd [] x) in
  len_keep_of L r = Some lk ->
  Forall (fun s => length s = L) x ->
  random_masking rand x r =
    Some (map (fun nx =>
            (map (fun i => nth i (snd nx) []) (ids_keep rand (fst nx) L lk),
             map (fun i => nth i (mask_pattern L lk) 0%R) (ids_restore rand (fst nx) L),
             ids_restore rand (fst nx) L,
             ids_keep rand (fst nx) L lk)) (enumerate x)).
Proof.
  intros L Hlk Hx. unfold random_masking. fold L. rewrite Hlk.
  apply sequence_map_Some.
  apply Forall_forall. intros [n s] Hin. cbn [fst snd].
  apply random_masking_row_eq.
  apply in_enumerate, nth_error_In in Hin.
  rewrite Forall_forall in Hx. now apply Hx.
Qed.

Lemma ids_keep_facts (rand : nat -> nat -> Q) (n L : nat) (lk : Z) :
  length (ids_keep rand n L lk) = slice_stop lk L /\
  Forall (fun i => i < L) (ids_keep rand n L lk).
Proof.
  unfold ids_keep. split.
  - rewrite length_firstn, ids_shuffle_length.
    pose proof (slice_stop_le lk L). lia.
  - apply Forall_forall. intros i Hi. apply In_firstn in Hi.
    pose proof (perm_seq_bound _ _ (ids_shuffle_perm rand n L)) as Hb.
    rewrite Forall_forall in Hb. now apply Hb.
Qed.

Lemma masked_tokens_shape (rand : nat -> nat -> Q) (n L D : nat) (lk : Z)
    (xs : tokens) :
  shape2 L D xs ->
  shape2 (slice_stop lk L) D (map (fun i => nth i xs []) (ids_keep rand n L lk)).
Proof.
  intros [Hl Hw]. destruct (ids_keep_facts rand n L lk) as [Hlen Hb]. split.
  - now rewrite length_map.
  - apply Forall_map. eapply Forall_impl; [|exact Hb]. intros i Hi. cbv beta in *.
    rewrite Forall_forall in Hw. apply Hw, nth_In. lia.
Qed.

(** ** Concrete runs *)

Lemma identity_block_ok (L D : nat) : block_ok L D (fun x _ _ => Some x).
Proof.
  intros x c ids Hw _ _. exists x. split; [reflexivity|]. split; [reflexivity | exact Hw].
Qed.

Ltac peel_lists :=
  repeat match goal with
         | |- Some _ = Some _ => apply f_equal
         | |- cons _ _ = cons _ _ => apply f_equal2
         | |- nil = nil => reflexivity
         end.

(** C1, counterexample: a [2 x 2] grid with ratio 3/4 and noise that
    keeps position 1 only, so the mask is [1, 0, 1, 1].  The blend
    leaves at the kept position 1 the value from before the side block
    (5, not the side-block output 105) and puts at the removed positions
    the side-block output (107, not the earlier value 7). *)
Lemma side_splice_blend_counterexample :
  len_keep_of 4 (float_lit 3 4) = Some 1%Z /\
  random_masking_row splice_noise 4 1 0 [row4 1; row4 2; row4 3; row4 4]
    = Some ([row4 2], [1%R; 0%R; 1%R; 1%R], [3; 0; 1; 2], [1]) /\
  side_input splice_model [row4 5] [3; 0; 1; 2]
    = Some [row4 7; row4 5; row4 7; row4 7] /\
  run_sideblocks (sideblocks splice_model) [row4 7; row4 5; row4 7; row4 7] (row4 0)
    = Some [row4 107; row4 105; row4 107; row4 107] /\
  forward_side_interpolater splice_model [row4 5] (row4 0)
                            [1%R; 0%R; 1%R; 1%R] [3; 0; 1; 2]
    = Some [row4 107; row4 5; row4 107; row4 107] /\
  row4 5 <> row4 105 /\
  row4 107 <> row4 7.
Proof.
  split; [vm_compute; reflexivity|]. split; [reflexivity|].
  split; [cbn; unfold row4; peel_lists; lra|].
  split; [cbn; unfold row4; peel_lists; lra|].
  split; [cbn; unfold row4; peel_lists; lra|].
  unfold row4. split; intros H; inversion H; lra.
Qed.

(** C1, instance: the statement above on the same run. *)
Lemma side_splice_blend_witness :
  exists x_before side out,
    side_input splice_model [row4 5] [3; 0; 1; 2] = Some x_before /\
    run_sideblocks (sideblocks splice_model) x_before (row4 0) = Some side /\
    forward_side_interpolater splice_model [row4 5] (row4 0)
                              [1%R; 0%R; 1%R; 1%R] [3; 0; 1; 2] = Some out /\
    length out = 4 /\
    forall i, i < 4 ->
      (nth i [1%R; 0%R; 1%R; 1%R] 0%R = 0%R \/ nth i [1%R; 0%R; 1%R; 1%R] 0%R = 1%R) /\
      (nth i [1%R; 0%R; 1%R; 1%R] 0%R = 0%R -> nth i out [] = nth i x_before []) /\
      (nth i [1%R; 0%R; 1%R; 1%R] 0%R = 1%R -> nth i out [] = nth i side []).
Proof.
  apply (side_splice_blend splice_model splice_noise 0 4 4 1
           [row4 1; row4 2; row4 3; row4 4] [row4 5] [row4 2] (row4 0)
           [1%R; 0%R; 1%R; 1%R] [3; 0; 1; 2] [1]).
  - reflexivity.
  - reflexivity.
  - split; [reflexivity | repeat constructor].
  - reflexivity.
  - split; [reflexivity | repeat constructor].
  - intros xb [Hl Hw]. eexists. split; [reflexivity|]. split.
    + now rewrite length_map.
    + apply Forall_map. eapply Forall_impl; [|exact Hw].
      intros tok Ht. cbv beta. now rewrite length_map.
Defined.

Lemma silu_one_pos : (0 < silu 1)%R.
Proof.
  pose proof (exp_pos (Ropp 1)) as H.
  unfold silu. apply Rdiv_lt_0_compat; lra.
Qed.

(** The forward pass of [guidance_model] on a batch of two with the
    class label 0 and the null label 1: zero in every channel of the
    conditional sample, [silu 1] in every channel of the unconditional
    one. *)
Lemma guidance_model_forward :
  forward guidance_model small_rng [guidance_image; guidance_image] [0%R; 0%R]
          [0%Z; 1%Z] false
  = Some [four_channels 0; four_channels (silu 1)].
Proof.
  cbv -[exp sqrt Rdiv Rminus IZR Rinv Rplus Rmult Ropp four_channels silu].
  unfold four_channels, silu.
  replace (0 + 0)%R with 0%R by ring.
  replace (0 + 1)%R with 1%R by ring.
  peel_lists; unfold Rdiv, Rminus; ring.
Qed.

Lemma guidance_model_run (K : nat) (cfg_scale : R) :
  guidance_at pow_one K guidance_model small_rng [guidance_image; guidance_image]
              [0%R; 0%R] [0%Z; 1%Z] (Some cfg_scale) 1%R 1%R
  = Some (zip_with (@app _)
            (let s := real_cfg_scale pow_one cfg_scale 0 1 1 in
             let guided := extrapolate s (firstn K (four_channels 0))
                                       (firstn K (four_channels (silu 1))) in
             [guided; guided])
            [skipn K (four_channels 0); skipn K (four_channels (silu 1))]).
Proof.
  destruct (guidance_at_guided pow_one K guidance_model small_rng
              [guidance_image; guidance_image] [0%R; 0%R] [0%Z; 1%Z] cfg_scale 1%R 1%R
              [four_channels 0; four_channels (silu 1)] 1) as [H _];
    try (cbn; lia).
  - exact guidance_model_forward.
  - exact H.
Qed.

Lemma cos_schedule_start : real_cfg_scale pow_one 2 0 1 1 = 2%R.
Proof.
  unfold real_cfg_scale, scale_step, pow_one.
  replace ((1 - 0 / 1) * PI)%R with PI by field.
  rewrite cos_PI. field.
Qed.

(** C2, counterexample: a model with [in_channels = 4] and four output
    channels, guidance scale 2 at the first timestep.  The code guides
    channels 0..2 only and passes channel 3 of the forward output
    through ([0] in the conditional half, [silu 1] in the other); the
    split at [in_channels] would guide channel 3 as well. *)
Lemma forward_with_cfg_split_counterexample :
  in_channels guidance_model = 4 /\
  forward guidance_model small_rng [guidance_image; guidance_image] [0%R; 0%R]
          [0%Z; 1%Z] false
    = Some [four_channels 0; four_channels (silu 1)] /\
  forward_with_cfg pow_one guidance_model small_rng [guidance_image; guidance_image]
                   [0%R; 0%R] [0%Z; 1%Z] (Some 2%R) 1%R 1%R
    = Some [[[[(- silu 1)%R]]; [[(- silu 1)%R]]; [[(- silu 1)%R]]; [[0%R]]];
            [[[(- silu 1)%R]]; [[(- silu 1)%R]]; [[(- silu 1)%R]]; [[silu 1]]]] /\
  forward_with_cfg_spec pow_one guidance_model small_rng [guidance_image; guidance_image]
                        [0%R; 0%R] [0%Z; 1%Z] (Some 2%R) 1%R 1%R
    = Some [four_channels (- silu 1); four_channels (- silu 1)] /\
  forward_with_cfg pow_one guidance_model small_rng [guidance_image; guidance_image]
                   [0%R; 0%R] [0%Z; 1%Z] (Some 2%R) 1%R 1%R
  <> forward_with_cfg_spec pow_one guidance_model small_rng [guidance_image; guidance_image]
                           [0%R; 0%R] [0%Z; 1%Z] (Some 2%R) 1%R 1%R.
Proof.
  assert (Hcode :
    forward_with_cfg pow_one guidance_model small_rng [guidance_image; guidance_image]
                     [0%R; 0%R] [0%Z; 1%Z] (Some 2%R) 1%R 1%R
    = Some [[[[(- silu 1)%R]]; [[(- silu 1)%R]]; [[(- silu 1)%R]]; [[0%R]]];
            [[[(- silu 1)%R]]; [[(- silu 1)%R]]; [[(- silu 1)%R]]; [[silu 1]]]]).
  { unfold forward_with_cfg. rewrite guidance_model_run. cbv zeta.
    rewrite cos_schedule_start.
    cbv [zip_with map combine fst snd app firstn skipn four_channels extrapolate].
    peel_lists; ring. }
  assert (Hspec :
    forward_with_cfg_spec pow_one guidance_model small_rng [guidance_image; guidance_image]
                          [0%R; 0%R] [0%Z; 1%Z] (Some 2%R) 1%R 1%R
    = Some [four_channels (- silu 1); four_channels (- silu 1)]).
  { unfold forward_with_cfg_spec.
    change (in_channels guidance_model) with 4.
    rewrite guidance_model_run. cbv zeta. rewrite cos_schedule_start.
    cbv [zip_with map combine fst snd app firstn skipn four_channels extrapolate].
    peel_lists; ring. }
  split; [reflexivity|]. split; [exact guidance_model_forward|].
  split; [exact Hcode|]. split; [exact Hspec|].
  rewrite Hcode, Hspec. unfold four_channels. intros H.
  inversion H as [[H0 H1]].
  pose proof silu_one_pos. lra.
Qed.

(** C5, counterexample: with [cfg_scale = 1] on the same batch the
    result carries the conditional estimate [0] in the guided channels
    of both samples.  It is neither the unconditional estimate
    [silu 1], nor what the unguided branch returns (the forward output,
    whose second sample holds [silu 1]). *)
Lemma forward_with_cfg_scale_one_counterexample :
  forward_with_cfg pow_one guidance_model small_rng [guidance_image; guidance_image]
                   [0%R; 0%R] [0%Z; 1%Z] (Some 1%R) 1%R 1%R
    = Some [[[[0%R]]; [[0%R]]; [[0%R]]; [[0%R]]];
            [[[0%R]]; [[0%R]]; [[0%R]]; [[silu 1]]]] /\
  forward_with_cfg pow_one guidance_model small_rng [guidance_image; guidance_image]
                   [0%R; 0%R] [0%Z; 1%Z] None 1%R 1%R
    = Some [four_channels 0; four_channels (silu 1)] /\
  silu 1 <> 0%R /\
  forward_with_cfg pow_one guidance_model small_rng [guidance_image; guidance_image]
                   [0%R; 0%R] [0%Z; 1%Z] (Some 1%R) 1%R 1%R
  <> forward_with_cfg pow_one guidance_model small_rng [guidance_image; guidance_image]
                      [0%R; 0%R] [0%Z; 1%Z] None 1%R 1%R.
Proof.
  assert (Hone :
    forward_with_cfg pow_one guidance_model small_rng [guidance_image; guidance_image]
                     [0%R; 0%R] [0%Z; 1%Z] (Some 1%R) 1%R 1%R
    = Some [[[[0%R]]; [[0%R]]; [[0%R]]; [[0%R]]];
            [[[0%R]]; [[0%R]]; [[0%R]]; [[silu 1]]]]).
  { unfold forward_with_cfg. rewrite guidance_model_run. cbv zeta.
    rewrite real_cfg_scale_one.
    cbv [zip_with map combine fst snd app firstn skipn four_channels extrapolate].
    peel_lists; ring. }
  assert (Hnone :
    forward_with_cfg pow_one guidance_model small_rng [guidance_image; guidance_image]
                     [0%R; 0%R] [0%Z; 1%Z] None 1%R 1%R
    = Some [four_channels 0; four_channels (silu 1)]).
  { unfold forward_with_cfg, guidance_at. rewrite guidance_model_forward. reflexivity. }
  pose proof silu_one_pos as Hpos.
  split; [exact Hone|]. split; [exact Hnone|]. split; [lra|].
  rewrite Hone, Hnone. unfold four_channels. intros H.
  inversion H as [[H0]]. lra.
Qed.

(** C2, instance: the statement above on that batch. *)
Lemma forward_with_cfg_split_witness :
  (exists out,
     forward_with_cfg pow_one guidance_model small_rng [guidance_image; guidance_image]
                      [0%R; 0%R] [0%Z; 1%Z] (Some 2%R) 1%R 1%R = Some out /\
     map (firstn 3) out =
       (let guided :=
          zip_with (fun s (cu : image * image) => extrapolate s (fst cu) (snd cu))
            (firstn (2 / 2)
               (map (fun ti => real_cfg_scale pow_one 2 ti 1 1) [0%R; 0%R]))
            (combine
               (firstn 1 (map (firstn 3) [four_channels 0; four_channels (silu 1)]))
               (skipn 1 (map (firstn 3) [four_channels 0; four_channels (silu 1)]))) in
        guided ++ guided) /\
     map (skipn 3) out = map (skipn 3) [four_channels 0; four_channels (silu 1)] /\
     (in_channels guidance_model = 3 ->
      forward_with_cfg_spec pow_one guidance_model small_rng
        [guidance_image; guidance_image] [0%R; 0%R] [0%Z; 1%Z] (Some 2%R) 1%R 1%R
      = Some out)) /\
  (forall mo,
     forward guidance_model small_rng [guidance_image; guidance_image] [0%R; 0%R]
             [0%Z; 1%Z] false = Some mo ->
     forward_with_cfg pow_one guidance_model small_rng [guidance_image; guidance_image]
                      [0%R; 0%R] [0%Z; 1%Z] None 1%R 1%R = Some mo).
Proof.
  apply (forward_with_cfg_split pow_one guidance_model small_rng
           [guidance_image; guidance_image] [0%R; 0%R] [0%Z; 1%Z] 2%R 1%R 1%R
           [four_channels 0; four_channels (silu 1)] 1 4).
  - exact guidance_model_forward.
  - reflexivity.
  - lia.
  - reflexivity.
  - simpl. lia.
  - repeat constructor.
Defined.

(** C5, instance: the statement above on that batch. *)
Lemma forward_with_cfg_scale_one_witness :
  (forall ti, real_cfg_scale pow_one 1 ti 1 1 = 1%R) /\
  (exists out,
     forward_with_cfg pow_one guidance_model small_rng [guidance_image; guidance_image]
                      [0%R; 0%R] [0%Z; 1%Z] (Some 1%R) 1%R 1%R = Some out /\
     map (firstn 3) out =
       (let eps := map (firstn 3) [four_channels 0; four_channels (silu 1)] in
        let guided := zip_with (extrapolate 1) (firstn 1 eps) (skipn 1 eps) in
        guided ++ guided) /\
     map (skipn 3) out = map (skipn 3) [four_channels 0; four_channels (silu 1)]) /\
  extrapolate_float32 (float32_of 1 0) (float32_of 1 (-30)) (float32_of 1 0)
    = S754_zero false /\
  S754_zero false <> float32_of 1 (-30).
Proof.
  apply (forward_with_cfg_scale_one pow_one guidance_model small_rng
           [guidance_image; guidance_image] [0%R; 0%R] [0%Z; 1%Z] 1%R 1%R
           [four_channels 0; four_channels (silu 1)] 1 4).
  - exact guidance_model_forward.
  - reflexivity.
  - lia.
  - reflexivity.
  - simpl. lia.
  - repeat constructor.
Defined.

(** C3, counterexample: construction succeeds on a configuration with
    [mask_ratio = 1.5], [decode_layer = 99] above [depth = 2] and a head
    count (5) that does not divide the width (12), and on one with
    negative [mask_ratio] and [decode_layer]; the values are stored
    unchecked. *)
Lemma MDT_init_invalid_counterexample :
  (1 <= float_value (float_lit 3 2))%Q /\ (99 >= 2)%Z /\ 12 mod 5 <> 0 /\
  (exists m, MDT_init small_ini invalid_cfg = Some m /\
             mask_ratio m = Some (float_lit 3 2) /\ decode_layer m = 99%Z /\
             length (blocks m) = 2 /\ num_heads m = 5) /\
  (float_value (float_lit (-1) 2) < 0)%Q /\ (-1 < 0)%Z /\
  (exists m, MDT_init small_ini negative_cfg = Some m /\
             mask_ratio m = Some (float_lit (-1) 2) /\ decode_layer m = (-1)%Z).
Proof.
  split; [vm_compute; discriminate|]. split; [lia|]. split; [discriminate|].
  split; [|split; [|split]].
  - destruct (MDT_init_fields small_ini invalid_cfg 99%Z)
      as [m [pe [blks [sblks [Hm F]]]]];
      try (cbn; lia); try reflexivity; try discriminate.
    exists m. split; [exact Hm|].
    split; [apply (fields_mask_ratio F)|].
    split; [apply (fields_decode_layer F)|].
    split; [|apply (fields_num_heads F)].
    rewrite (fields_blocks F), length_map.
    apply (fields_depth F).
  - vm_compute. reflexivity.
  - lia.
  - destruct (MDT_init_fields small_ini negative_cfg (-1)%Z)
      as [m [pe [blks [sblks [Hm F]]]]];
      try (cbn; lia); try reflexivity; try discriminate.
    exists m. split; [exact Hm|].
    split; [apply (fields_mask_ratio F)|].
    apply (fields_decode_layer F).
Qed.

(** C3, instance: the statement above on the invalid configuration. *)
Lemma MDT_init_unchecked_witness :
  exists m,
    MDT_init small_ini invalid_cfg = Some m /\
    mask_ratio m = cfg_mask_ratio invalid_cfg /\
    decode_layer m = 99%Z /\
    length (blocks m) = cfg_depth invalid_cfg.
Proof.
  apply (MDT_init_unchecked small_ini invalid_cfg 99%Z).
  - simpl. lia.
  - simpl. lia.
  - simpl. lia.
  - simpl. lia.
  - simpl. lia.
  - reflexivity.
  - discriminate.
  - reflexivity.
Defined.

(** C7, counterexample: one sequence of ten tokens.  With
    [mask_ratio = 0.1] the code keeps [int(10 * (1 - 0.1)) = 9] tokens,
    although the exact product [10 * (1 - r)], for the value [r] of that
    float, lies below 9 and has floor 8.  With [mask_ratio = 0.9] it
    keeps [int(10 * (1 - 0.9)) = 0] tokens, where [floor(10 * (1 - 9/10))]
    is 1.  Whether the ratio is read as the float or as the decimal
    fraction, the count differs from the floor at one of the two. *)
Lemma random_masking_counts_counterexample :
  let x := [map (fun i => [INR i]) (seq 0 10)] in
  let r1 := float_lit 1 10 in
  let r9 := float_lit 9 10 in
  ((0 <= float_value r1)%Q /\ (float_value r1 < 1)%Q /\
   Qfloor (10 * (1 - float_value r1)) = 8%Z /\
   Qfloor (10 * (1 - (1 # 10))) = 9%Z /\
   len_keep_of 10 r1 = Some 9%Z /\
   exists out,
     random_masking splice_noise x r1 = Some out /\
     length out = 1 /\
     Forall (fun s =>
       match s with
       | (x_masked, mask, _, _) =>
           length x_masked = 9 /\ count_occ Req_dec_T mask 0%R = 9
       end) out) /\
  ((0 <= float_value r9)%Q /\ (float_value r9 < 1)%Q /\
   Qfloor (10 * (1 - float_value r9)) = 0%Z /\
   Qfloor (10 * (1 - (9 # 10))) = 1%Z /\
   len_keep_of 10 r9 = Some 0%Z /\
   exists out,
     random_masking splice_noise x r9 = Some out /\
     length out = 1 /\
     Forall (fun s =>
       match s with
       | (x_masked, mask, _, _) =>
           length x_masked = 0 /\ count_occ Req_dec_T mask 0%R = 0
       end) out).
Proof.
  intros x r1 r9.
  assert (Hx : Forall (fun s => length s = length (hd [] x)) x)
    by (repeat constructor).
  split.
  - split; [vm_compute; discriminate|]. split; [vm_compute; reflexivity|].
    split; [vm_compute; reflexivity|]. split; [vm_compute; reflexivity|].
    split; [vm_compute; reflexivity|].
    destruct (random_masking_kept splice_noise x r1 9 Hx) as [out [Hout [Hlen Hall]]];
      [vm_compute; reflexivity|].
    exists out. split; [exact Hout|]. split; [exact Hlen|].
    eapply Forall_impl; [|exact Hall].
    intros [[[xm mask] ir] ik] [H1 [_ [_ [H3 _]]]]. split; assumption.
  - split; [vm_compute; discriminate|]. split; [vm_compute; reflexivity|].
    split; [vm_compute; reflexivity|]. split; [vm_compute; reflexivity|].
    split; [vm_compute; reflexivity|].
    destruct (random_masking_kept splice_noise x r9 0 Hx) as [out [Hout [Hlen Hall]]];
      [vm_compute; reflexivity|].
    exists out. split; [exact Hout|]. split; [exact Hlen|].
    eapply Forall_impl; [|exact Hall].
    intros [[[xm mask] ir] ik] [H1 [_ [_ [H3 _]]]]. split; assumption.
Qed.

(** C7, instance: one sequence of four tokens, ratio 0.5. *)
Lemma random_masking_counts_witness :
  exists out,
    random_masking splice_noise [[[1%R]; [2%R]; [3%R]; [4%R]]] (float_lit 1 2) = Some out /\
    length out = 1 /\
    Forall (fun s =>
      match s with
      | (x_masked, mask, _, _) =>
          length x_masked = 2 /\
          length mask = 4 /\
          count_occ Req_dec_T mask 0%R = 2 /\
          count_occ Req_dec_T mask 1%R = 4 - 2
      end) out.
Proof.
  apply (random_masking_counts splice_noise [[[1%R]; [2%R]; [3%R]; [4%R]]]
           (float_lit 1 2) 2).
  - repeat constructor.
  - vm_compute. reflexivity.
  - simpl. lia.
Defined.

(** C8, instance: a [2 x 2] window, one head, two samples. *)
Lemma masked_bias_identity_witness :
  exists bias,
    RelativePositionBias_forward
      (RelativePositionBias_init (2, 2) 1 (fun r _ => INR r)) = Some bias /\
    length bias = 1 /\
    Forall (fun m => length m = 4 /\ Forall (fun row => length row = 4) m) bias /\
    get_masked_rel_bias (RelativePositionBias_init (2, 2) 1 (fun r _ => INR r)) 2
                        (repeat (seq 0 4) 2) = Some (repeat bias 2).
Proof.
  apply (masked_bias_identity 2 2 1 2 (fun r _ => INR r)); lia.
Defined.

(** * Further properties of the code *)

(** ** Kept positions, mask and restoring order *)

(** An entry of a mapped list, whatever the default. *)
Lemma nth_map_lt {A B : Type} (f : A -> B) (l : list A) (i : nat) (d : A) (d' : B) :
  i < length l -> nth i (map f l) d' = f (nth i l d).
Proof.
  intros Hi. rewrite (nth_indep (map f l) d' (f d)) by (rewrite length_map; exact Hi).
  apply map_nth.
Qed.

(** Entry by entry, [ids_shuffle] and [ids_restore] undo each other. *)
Lemma ids_inverse_nth (rand : nat -> nat -> Q) (n L i : nat) :
  i < L ->
  nth i (ids_restore rand n L) 0 < L /\
  nth i (ids_shuffle rand n L) 0 < L /\
  nth (nth i (ids_restore rand n L) 0) (ids_shuffle rand n L) 0 = i /\
  nth (nth i (ids_shuffle rand n L) 0) (ids_restore rand n L) 0 = i.
Proof.
  intros Hi.
  pose proof (ids_shuffle_perm rand n L) as Hs.
  pose proof (ids_shuffle_length rand n L) as Hsl.
  pose proof (ids_restore_perm rand n L) as Hr.
  pose proof (ids_restore_length rand n L) as Hrl.
  pose proof (perm_seq_bound _ _ Hs) as Hsb.
  pose proof (perm_seq_bound _ _ Hr) as Hrb.
  rewrite Forall_forall in Hsb, Hrb.
  assert (H1 : nth i (ids_restore rand n L) 0 < L) by (apply Hrb, nth_In; lia).
  assert (H2 : nth i (ids_shuffle rand n L) 0 < L) by (apply Hsb, nth_In; lia).
  split; [exact H1|]. split; [exact H2|].
  assert (Hl : gather (ids_shuffle rand n L) (ids_restore rand n L)
               = Some (seq 0 (length (ids_shuffle rand n L)))).
  { unfold ids_restore. apply argsort_inverse_left. now rewrite Hsl. }
  assert (Hg : gather (ids_restore rand n L) (ids_shuffle rand n L)
               = Some (seq 0 (length (ids_shuffle rand n L)))).
  { unfold ids_restore. apply argsort_inverse_right. now rewrite Hsl. }
  rewrite (gather_map _ 0) in Hl
    by (apply Forall_forall; intros j Hj; rewrite Hsl; now apply Hrb).
  rewrite (gather_map _ 0) in Hg
    by (apply Forall_forall; intros j Hj; rewrite Hrl; now apply Hsb).
  rewrite Hsl in Hl, Hg. inversion Hl as [Hl']. inversion Hg as [Hg'].
  split.
  - assert (E : nth i (map (fun j => nth j (ids_shuffle rand n L) 0)
                           (ids_restore rand n L)) 0 = nth i (seq 0 L) 0)
      by now rewrite Hl'.
    rewrite seq_nth in E by exact Hi. simpl in E.
    now rewrite (nth_map_lt _ _ _ 0) in E by lia.
  - assert (E : nth i (map (fun j => nth j (ids_restore rand n L) 0)
                           (ids_shuffle rand n L)) 0 = nth i (seq 0 L) 0)
      by now rewrite Hg'.
    rewrite seq_nth in E by exact Hi. simpl in E.
    now rewrite (nth_map_lt _ _ _ 0) in E by lia.
Qed.

Lemma mask_pattern_nth (L : nat) (k : Z) (j : nat) :
  j < L ->
  nth j (mask_pattern L k) 0%R = if j <? slice_stop k L then 0%R else 1%R.
Proof.
  intros Hj. unfold mask_pattern.
  pose proof (slice_stop_le k L) as Hle.
  destruct (Nat.ltb_spec j (slice_stop k L)) as [Hlt|Hge].
  - rewrite app_nth1 by (rewrite repeat_length; lia).
    apply nth_repeat_lt. exact Hlt.
  - rewrite app_nth2 by (rewrite repeat_length; lia).
    rewrite repeat_length. apply nth_repeat_lt. lia.
Qed.

(** A position belongs to [ids_keep] exactly when it ranks below the
    stop of the slice. *)
Lemma ids_keep_rank (rand : nat -> nat -> Q) (n L : nat) (k : Z) (i : nat) :
  i < L ->
  In i (ids_keep rand n L k) <-> nth i (ids_restore rand n L) 0 < slice_stop k L.
Proof.
  intros Hi. unfold ids_keep.
  pose proof (ids_shuffle_length rand n L) as Hsl.
  pose proof (slice_stop_le k L) as Hle.
  destruct (ids_inverse_nth rand n L i Hi) as [Hr [_ [Hsr _]]].
  split.
  - intros Hin. apply (In_nth _ _ 0) in Hin. destruct Hin as [j [Hj Hji]].
    rewrite length_firstn, Hsl in Hj.
    rewrite nth_firstn in Hji.
    destruct (Nat.ltb_spec j (slice_stop k L)); [|lia].
    destruct (ids_inverse_nth rand n L j ltac:(lia)) as [_ [_ [_ Hrs]]].
    rewrite Hji in Hrs. rewrite Hrs. lia.
  - intros Hlt.
    replace i with (nth (nth i (ids_restore rand n L) 0)
                        (firstn (slice_stop k L) (ids_shuffle rand n L)) 0) at 1.
    + apply nth_In. rewrite length_firstn, Hsl. lia.
    + rewrite nth_firstn.
      destruct (Nat.ltb_spec (nth i (ids_restore rand n L) 0) (slice_stop k L)); [|lia].
      exact Hsr.
Qed.

Lemma ids_keep_NoDup (rand : nat -> nat -> Q) (n L : nat) (k : Z) :
  NoDup (ids_keep rand n L k).
Proof.
  unfold ids_keep.
  assert (Hnd : NoDup (ids_shuffle rand n L)).
  { eapply Permutation_NoDup; [apply Permutation_sym, ids_shuffle_perm | apply seq_NoDup]. }
  rewrite <- (firstn_skipn (slice_stop k L) (ids_shuffle rand n L)) in Hnd.
  now apply NoDup_app_remove_r in Hnd.
Qed.

(** X1: for every sample of a batch of sequences of one length [L] and
    every ratio, [random_masking] keeps pairwise distinct positions
    below [L], returns exactly the tokens at those positions in
    [x_masked], and its mask is [0] at the kept positions and [1] at all
    others.  The one ratio it refuses is one for which
    [int(L * (1 - mask_ratio))] is not defined (the product is infinite
    or a NaN): then the call raises. *)
Theorem random_masking_mask_marks_kept (rand : nat -> nat -> Q)
    (x : list (list (list R))) (r : float64) (n : nat) (xs : list (list R)) :
  let L := length (hd [] x) in
  Forall (fun s => length s = L) x ->
  nth_error x n = Some xs ->
  (len_keep_of L r = None -> random_masking rand x r = None) /\
  (forall len_keep, len_keep_of L r = Some len_keep ->
   exists out x_masked mask ir ik,
     random_masking rand x r = Some out /\
     nth_error out n = Some (x_masked, mask, ir, ik) /\
     NoDup ik /\
     Forall (fun i => i < L) ik /\
     x_masked = map (fun i => nth i xs []) ik /\
     length mask = L /\
     forall i, i < L ->
       (nth i mask 0%R = 0%R <-> In i ik) /\
       (nth i mask 0%R = 1%R <-> ~ In i ik)).
Proof.
  intros L Hx Hn. split.
  { intros Hnone. unfold random_masking. fold L. now rewrite Hnone. }
  intros lk Hlk.
  pose proof (random_masking_eq rand x r lk Hlk Hx) as Heq. fold L in Heq.
  eexists. exists (map (fun i => nth i xs []) (ids_keep rand n L lk)).
  exists (map (fun i => nth i (mask_pattern L lk) 0%R) (ids_restore rand n L)).
  exists (ids_restore rand n L), (ids_keep rand n L lk).
  split; [exact Heq|].
  split.
  { rewrite nth_error_map. unfold enumerate.
    assert (Hlt : n < length x) by (apply nth_error_Some; congruence).
    rewrite (nth_error_nth' _ (0, xs)) by (rewrite length_combine, length_seq; lia).
    rewrite combine_nth by apply length_seq.
    rewrite seq_nth by exact Hlt.
    rewrite (nth_error_nth _ _ xs Hn). reflexivity. }
  split; [apply ids_keep_NoDup|].
  split; [apply ids_keep_facts|].
  split; [reflexivity|].
  split; [now rewrite length_map, ids_restore_length|].
  intros i Hi.
  pose proof (ids_restore_length rand n L) as Hrl.
  destruct (ids_inverse_nth rand n L i Hi) as [Hr _].
  rewrite (nth_map_lt _ _ _ 0) by lia.
  rewrite (mask_pattern_nth L lk _ Hr).
  rewrite (ids_keep_rank rand n L lk i Hi).
  destruct (Nat.ltb_spec (nth i (ids_restore rand n L) 0) (slice_stop lk L)).
  - split; split; intros; try lia; try reflexivity. lra.
  - split; split; intros; try lia; try reflexivity. lra.
Qed.

Lemma zip_with_nth {A B C : Type} (f : A -> B -> C) (a : list A) (b : list B)
    (i : nat) (da : A) (db : B) (dc : C) :
  i < length a -> i < length b ->
  nth i (zip_with f a b) dc = f (nth i a da) (nth i b db).
Proof.
  revert b i. induction a as [|u a IH]; intros b i Ha Hb; [simpl in Ha; lia|].
  destruct b as [|v b]; [simpl in Hb; lia|].
  destruct i as [|i]; [reflexivity|].
  simpl in Ha, Hb. apply (IH b i); lia.
Qed.

(** X2: the unshuffle of [forward_side_interpolater] undoes the shuffle
    of [random_masking].  Whatever the blocks made of the kept tokens,
    the sequence entering the side block has all [L] positions; at a
    kept position [i] (mask 0) it holds the token that was kept from
    position [i], at a removed position (mask 1) the mask token, each
    with the decoder position embedding of [i] added. *)
Theorem unshuffle_restores_positions (m : MDT) (rand : nat -> nat -> Q) (n L D : nat)
    (len_keep : Z) (x0 x x_masked : tokens) (mask : list R) (ir ik : list nat) :
  length x0 = L ->
  random_masking_row rand L len_keep n x0 = Some (x_masked, mask, ir, ik) ->
  shape2 (length ik) D x ->
  length (mask_token m) = D ->
  shape2 L D (decoder_pos_embed m) ->
  exists xb,
    side_input m x ir = Some xb /\
    length xb = L /\
    forall i, i < L ->
      (nth i mask 0%R = 0%R ->
       exists j, j < length ik /\ nth j ik 0 = i /\
         nth i xb [] = zip_with Rplus (nth j x []) (nth i (decoder_pos_embed m) [])) /\
      (nth i mask 0%R = 1%R ->
       nth i xb [] = zip_with Rplus (mask_token m) (nth i (decoder_pos_embed m) [])).
Proof.
  intros Hx0 Hrm [Hxl Hxw] Hmt Hdpe.
  rewrite (random_masking_row_eq rand L len_keep n x0 Hx0) in Hrm.
  inversion Hrm as [[Hxm Hmask Hir Hik]]. clear Hrm.
  set (K := slice_stop len_keep L) in *.
  pose proof (slice_stop_le len_keep L) as HK. fold K in HK.
  pose proof (ids_restore_length rand n L) as Hrl.
  pose proof (ids_shuffle_length rand n L) as Hsl.
  assert (HikK : length (ids_keep rand n L len_keep) = K) by apply ids_keep_facts.
  rewrite <- Hik, HikK in Hxl.
  set (x_ := x ++ repeat (mask_token m) (L - K)).
  assert (Hx_l : length x_ = L).
  { unfold x_, tokens in *. rewrite length_app, repeat_length. lia. }
  assert (Hx_w : Forall (fun tok => length tok = D) x_).
  { unfold x_. apply Forall_app. split; [exact Hxw|].
    apply Forall_forall. intros tok Htok. apply repeat_spec in Htok. now subst tok. }
  set (g := map (fun i => nth i x_ []) (ids_restore rand n L)).
  assert (Hg : shape2 L D g).
  { split; [unfold g; now rewrite length_map|].
    unfold g. apply Forall_map, Forall_forall. intros i Hi.
    rewrite Forall_forall in Hx_w. apply Hx_w, nth_In.
    pose proof (perm_seq_bound _ _ (ids_restore_perm rand n L)) as Hb.
    rewrite Forall_forall in Hb. specialize (Hb i Hi). lia. }
  destruct (mat_op_shape Rplus L D g (decoder_pos_embed m) Hg Hdpe) as [Hop [Hol _]].
  exists (zip_with (zip_with Rplus) g (decoder_pos_embed m)).
  split.
  { unfold side_input. rewrite Hrl.
    destruct (Nat.ltb_spec L (length x)) as [Hlt|_]; [unfold tokens in *; lia|].
    rewrite (cat_tokens_same_width D)
      by (try exact Hxw; apply Forall_forall; intros tok Htok;
          apply repeat_spec in Htok; now subst tok).
    cbn [bind]. replace (length x) with K by (unfold tokens in *; lia). fold x_.
    rewrite (gather_map x_ [])
      by (rewrite Hx_l; apply perm_seq_bound, ids_restore_perm).
    cbn [bind]. exact Hop. }
  split; [exact Hol|].
  intros i Hi.
  destruct (ids_inverse_nth rand n L i Hi) as [Hr [_ [Hsr _]]].
  destruct Hdpe as [Hdl Hdw]. destruct Hg as [Hgl _].
  rewrite (zip_with_nth _ _ _ _ [] [] []) by lia.
  unfold g. rewrite !(nth_map_lt _ _ _ 0) by lia.
  rewrite (mask_pattern_nth L len_keep _ Hr). fold K.
  destruct (Nat.ltb_spec (nth i (ids_restore rand n L) 0) K) as [Hlt|Hge].
  - split; [|intros H; lra].
    intros _. exists (nth i (ids_restore rand n L) 0).
    split; [lia|]. split.
    + unfold ids_keep. fold K. rewrite nth_firstn.
      destruct (Nat.ltb_spec (nth i (ids_restore rand n L) 0) K); [exact Hsr | lia].
    + unfold x_. rewrite app_nth1 by (rewrite Hxl; exact Hlt). reflexivity.
  - split; [intros H; lra|].
    intros _. unfold x_.
    rewrite (app_nth2 x (repeat (mask_token m) (L - K)) [])
      by (rewrite Hxl; exact Hge).
    rewrite Hxl, nth_repeat_lt by lia. reflexivity.
Qed.

(** X3: a ratio above one is not rejected.  When
    [len_keep = int(L * (1 - mask_ratio))] comes out as [-d] with
    [d >= 0], the slice [[:len_keep]] counts from the end: nothing is
    kept when [d = 0], and when [d >= 1] all but the last [d] shuffled
    positions are kept. *)
Theorem random_masking_ratio_above_one (rand : nat -> nat -> Q)
    (x : list (list (list R))) (r : float64) (d : nat) :
  let L := length (hd [] x) in
  let k := if d =? 0 then 0 else L - d in
  Forall (fun s => length s = L) x ->
  len_keep_of L r = Some (- Z.of_nat d)%Z ->
  exists out,
    random_masking rand x r = Some out /\
    length out = length x /\
    Forall (fun s =>
      match s with
      | (x_masked, mask, _, ids_keep) =>
          length x_masked = k /\
          length ids_keep = k /\
          count_occ Req_dec_T mask 0%R = k /\
          count_occ Req_dec_T mask 1%R = L - k
      end) out.
Proof.
  intros L k Hx Hlk.
  destruct (random_masking_kept rand x r _ Hx Hlk) as [out [Hout [Hlen Hall]]].
  fold L in Hall.
  assert (Hstop : slice_stop (- Z.of_nat d) L = k).
  { unfold slice_stop, k.
    destruct (Z.ltb_spec (- Z.of_nat d) 0) as [Hneg|Hnn].
    - rewrite Z.opp_involutive, Nat2Z.id.
      destruct (Nat.eqb_spec d 0); [lia | reflexivity].
    - destruct (Nat.eqb_spec d 0); lia. }
  rewrite Hstop in Hall.
  exists out. split; [exact Hout|]. split; [exact Hlen|].
  eapply Forall_impl; [|exact Hall].
  intros [[[xm mask] ir] ik] [H1 [H2 [_ [H3 H4]]]]. repeat split; assumption.
Qed.

(** X1, instance: one sequence of four tokens, ratio 0.5. *)
Lemma random_masking_mask_marks_kept_witness :
  exists out x_masked mask ir ik,
    random_masking splice_noise [[[1%R]; [2%R]; [3%R]; [4%R]]] (float_lit 1 2) = Some out /\
    nth_error out 0 = Some (x_masked, mask, ir, ik) /\
    NoDup ik /\
    Forall (fun i => i < 4) ik /\
    x_masked = map (fun i => nth i [[1%R]; [2%R]; [3%R]; [4%R]] []) ik /\
    length mask = 4 /\
    forall i, i < 4 ->
      (nth i mask 0%R = 0%R <-> In i ik) /\
      (nth i mask 0%R = 1%R <-> ~ In i ik).
Proof.
  refine (proj2 (random_masking_mask_marks_kept splice_noise
                   [[[1%R]; [2%R]; [3%R]; [4%R]]] (float_lit 1 2) 0
                   [[1%R]; [2%R]; [3%R]; [4%R]] _ _) 2%Z _).
  - repeat constructor.
  - reflexivity.
  - vm_compute. reflexivity.
Defined.

(** X2, instance: the [2 x 2] grid of [splice_model], where position 1
    alone is kept. *)
Lemma unshuffle_restores_positions_witness :
  exists xb,
    side_input splice_model [row4 5] [3; 0; 1; 2] = Some xb /\
    length xb = 4 /\
    forall i, i < 4 ->
      (nth i [1%R; 0%R; 1%R; 1%R] 0%R = 0%R ->
       exists j, j < length [1] /\ nth j [1] 0 = i /\
         nth i xb [] = zip_with Rplus (nth j [row4 5] [])
                                      (nth i (decoder_pos_embed splice_model) [])) /\
      (nth i [1%R; 0%R; 1%R; 1%R] 0%R = 1%R ->
       nth i xb [] = zip_with Rplus (mask_token splice_model)
                                    (nth i (decoder_pos_embed splice_model) [])).
Proof.
  apply (unshuffle_restores_positions splice_model splice_noise 0 4 4 1
           [row4 1; row4 2; row4 3; row4 4] [row4 5] [row4 2]
           [1%R; 0%R; 1%R; 1%R] [3; 0; 1; 2] [1]).
  - reflexivity.
  - reflexivity.
  - split; [reflexivity | repeat constructor].
  - reflexivity.
  - split; [reflexivity | repeat constructor].
Defined.

(** X3, instance: ten tokens and ratio 1.9, so
    [len_keep = int(10 * (1 - 1.9)) = -9] and one token is kept. *)
Lemma random_masking_ratio_above_one_witness :
  exists out,
    random_masking splice_noise [map (fun i => [INR i]) (seq 0 10)] (float_lit 19 10)
      = Some out /\
    length out = 1 /\
    Forall (fun s =>
      match s with
      | (x_masked, mask, _, ids_keep) =>
          length x_masked = 1 /\
          length ids_keep = 1 /\
          count_occ Req_dec_T mask 0%R = 1 /\
          count_occ Req_dec_T mask 1%R = 10 - 1
      end) out.
Proof.
  apply (random_masking_ratio_above_one splice_noise [map (fun i => [INR i]) (seq 0 10)]
           (float_lit 19 10) 9).
  - repeat constructor.
  - vm_compute. reflexivity.
Defined.

(** ** Relative position index and masked bias, entry by entry *)

Lemma nth_flat_map_block {A B : Type} (f : A -> list B) (l : list A) (w a b : nat)
    (da : A) (d : B) :
  (forall x, length (f x) = w) -> a < length l -> b < w ->
  nth (a * w + b) (flat_map f l) d = nth b (f (nth a l da)) d.
Proof.
  intros Hf. revert a. induction l as [|x l IH]; intros a Ha Hb; [simpl in Ha; lia|].
  simpl flat_map. destruct a as [|a].
  - simpl. apply app_nth1. rewrite Hf. exact Hb.
  - rewrite app_nth2 by (rewrite Hf; simpl; lia).
    rewrite Hf. replace (S a * w + b - w) with (a * w + b) by (simpl; lia).
    simpl in Ha. apply IH; lia.
Qed.

Lemma coords_flatten_nth (h w a b : nat) :
  a < h -> b < w ->
  nth (a * w + b) (coords_flatten h w) (0%Z, 0%Z) = (Z.of_nat a, Z.of_nat b).
Proof.
  intros Ha Hb. unfold coords_flatten.
  rewrite (nth_flat_map_block _ _ w a b 0)
    by (try (intros x; now rewrite length_map, length_seq); try rewrite length_seq; lia).
  rewrite seq_nth by exact Ha.
  rewrite (nth_map_lt _ _ _ 0) by (rewrite length_seq; exact Hb).
  rewrite seq_nth by exact Hb. reflexivity.
Qed.

Lemma relative_position_index_nth (h w a b c d : nat) :
  a < h -> b < w -> c < h -> d < w ->
  nth (c * w + d) (nth (a * w + b) (build_relative_position_index h w) []) 0%Z
  = ((Z.of_nat a - Z.of_nat c + (Z.of_nat h - 1)) * (2 * Z.of_nat w - 1)
     + (Z.of_nat b - Z.of_nat d + (Z.of_nat w - 1)))%Z.
Proof.
  intros Ha Hb Hc Hd.
  assert (Hi : a * w + b < h * w) by nia.
  assert (Hj : c * w + d < h * w) by nia.
  unfold build_relative_position_index, relative_coords.
  rewrite (nth_map_lt _ (map _ (coords_flatten h w)) _ [])
    by (now rewrite length_map, coords_flatten_length).
  rewrite (nth_map_lt _ (coords_flatten h w) _ (0%Z, 0%Z))
    by (now rewrite coords_flatten_length).
  rewrite map_map.
  rewrite (nth_map_lt _ (coords_flatten h w) _ (0%Z, 0%Z))
    by (now rewrite coords_flatten_length).
  rewrite !coords_flatten_nth by assumption. reflexivity.
Qed.

(** X4: the index of the pair of grid positions [(a, b)] and [(c, d)] is
    [(a - c + h - 1) * (2w - 1) + (b - d + w - 1)], and two pairs of
    positions read the same table row exactly when they have the same
    row offset and the same column offset. *)
Theorem relative_position_index_offsets (h w nH : nat) (tv : nat -> nat -> R)
    (a b c d a' b' c' d' : nat) :
  a < h -> b < w -> c < h -> d < w ->
  a' < h -> b' < w -> c' < h -> d' < w ->
  let index := relative_position_index (RelativePositionBias_init (h, w) nH tv) in
  let at_pair := fun i j => nth j (nth i index []) 0%Z in
  at_pair (a * w + b) (c * w + d)
  = ((Z.of_nat a - Z.of_nat c + Z.of_nat h - 1) * (2 * Z.of_nat w - 1)
     + (Z.of_nat b - Z.of_nat d + Z.of_nat w - 1))%Z /\
  (at_pair (a * w + b) (c * w + d) = at_pair (a' * w + b') (c' * w + d') <->
   (Z.of_nat a - Z.of_nat c = Z.of_nat a' - Z.of_nat c' /\
    Z.of_nat b - Z.of_nat d = Z.of_nat b' - Z.of_nat d')%Z).
Proof.
  intros Ha Hb Hc Hd Ha' Hb' Hc' Hd' index at_pair.
  unfold at_pair, index. cbn [RelativePositionBias_init relative_position_index fst snd].
  rewrite !relative_position_index_nth by assumption.
  split; [ring|].
  split.
  - intros E.
    set (M := (2 * Z.of_nat w - 1)%Z) in *.
    set (u := (Z.of_nat a - Z.of_nat c + (Z.of_nat h - 1))%Z) in *.
    set (u' := (Z.of_nat a' - Z.of_nat c' + (Z.of_nat h - 1))%Z) in *.
    set (v := (Z.of_nat b - Z.of_nat d + (Z.of_nat w - 1))%Z) in *.
    set (v' := (Z.of_nat b' - Z.of_nat d' + (Z.of_nat w - 1))%Z) in *.
    assert (Hv : (0 <= v < M)%Z) by (unfold v, M; lia).
    assert (Hv' : (0 <= v' < M)%Z) by (unfold v', M; lia).
    assert (Hu : u = u').
    { destruct (Z.lt_trichotomy u u') as [Hlt|[Heq|Hgt]]; [|exact Heq|].
      - assert ((u + 1) * M <= u' * M)%Z by (apply Z.mul_le_mono_nonneg_r; lia). lia.
      - assert ((u' + 1) * M <= u * M)%Z by (apply Z.mul_le_mono_nonneg_r; lia). lia. }
    rewrite Hu in E. unfold u, u', v, v' in *. lia.
  - intros [E1 E2].
    replace (Z.of_nat a - Z.of_nat c + (Z.of_nat h - 1))%Z
      with (Z.of_nat a' - Z.of_nat c' + (Z.of_nat h - 1))%Z by lia.
    replace (Z.of_nat b - Z.of_nat d + (Z.of_nat w - 1))%Z
      with (Z.of_nat b' - Z.of_nat d' + (Z.of_nat w - 1))%Z by lia.
    reflexivity.
Qed.

(** X4, instance: on a [2 x 3] window the pairs [((0,0), (1,1))] and
    [((0,1), (1,2))] have the same offsets. *)
Lemma relative_position_index_offsets_witness :
  let index := relative_position_index
                 (RelativePositionBias_init (2, 3) 1 (fun _ _ => 0%R)) in
  let at_pair := fun i j => nth j (nth i index []) 0%Z in
  at_pair (0 * 3 + 0) (1 * 3 + 1)
  = ((Z.of_nat 0 - Z.of_nat 1 + Z.of_nat 2 - 1) * (2 * Z.of_nat 3 - 1)
     + (Z.of_nat 0 - Z.of_nat 1 + Z.of_nat 3 - 1))%Z /\
  (at_pair (0 * 3 + 0) (1 * 3 + 1) = at_pair (0 * 3 + 1) (1 * 3 + 2) <->
   (Z.of_nat 0 - Z.of_nat 1 = Z.of_nat 0 - Z.of_nat 1 /\
    Z.of_nat 0 - Z.of_nat 1 = Z.of_nat 1 - Z.of_nat 2)%Z).
Proof.
  apply (relative_position_index_offsets 2 3 1 (fun _ _ => 0%R) 0 0 1 1 0 1 1 2); lia.
Defined.

(** The bias of an instance on a non-empty window: one [L x L] matrix
    per head. *)
Lemma RelativePositionBias_forward_shape (h w nH : nat) (tv : nat -> nat -> R) :
  0 < h -> 0 < w -> 0 < nH ->
  exists bias,
    RelativePositionBias_forward (RelativePositionBias_init (h, w) nH tv) = Some bias /\
    length bias = nH /\
    Forall (fun m => length m = h * w /\ Forall (fun row => length row = h * w) m) bias.
Proof.
  intros Hh Hw HnH.
  pose proof (RelativePositionBias_forward_init h w nH tv Hh Hw HnH) as Hf.
  cbv zeta in Hf.
  destruct (relative_position_index_shape h w) as [Hlen Hrows].
  eexists. split; [exact Hf|].
  apply heads_first_shape.
  - cbn [RelativePositionBias_init relative_position_index fst snd].
    now rewrite length_map.
  - cbn [RelativePositionBias_init relative_position_index fst snd].
    apply Forall_map. eapply Forall_impl; [|exact Hrows].
    intros row Hrow. cbv beta. now rewrite length_map.
Qed.

Lemma combine_repeat_l {A B : Type} (a : A) (n : nat) (l : list B) :
  length l <= n -> combine (repeat a n) l = map (fun b => (a, b)) l.
Proof.
  revert n. induction l as [|b l IH]; intros n Hn.
  - now destruct n.
  - destruct n as [|n]; [simpl in Hn; lia|]. simpl. f_equal. apply IH. simpl in Hn. lia.
Qed.

Lemma combine_map_self {A B : Type} (f : A -> B) (l : list A) :
  combine (map f l) l = map (fun a => (f a, a)) l.
Proof.
  induction l as [|a l IH]; simpl; [reflexivity|]. now rewrite IH.
Qed.

(** The two gathers of [get_masked_rel_bias] on in-range indices. *)
Lemma gather_rows_columns (bias : list (list (list R))) (L B : nat)
    (ids_keep : list (list nat)) :
  Forall (fun m => length m = L /\ Forall (fun row => length row = L) m) bias ->
  length ids_keep <= B ->
  Forall (Forall (fun i => i < L)) ids_keep ->
  (masked <- gather_dim2 (repeat bias B) ids_keep ;; gather_dim3 masked ids_keep)
  = Some (map (fun ids =>
            map (fun m => map (fun i => map (fun j => nth j (nth i m []) 0%R) ids) ids)
                bias) ids_keep).
Proof.
  intros Hb HB Hids.
  set (rows := fun ids : list nat =>
         map (fun m : list (list R) => map (fun i => nth i m []) ids) bias).
  assert (H2 : gather_dim2 (repeat bias B) ids_keep = Some (map rows ids_keep)).
  { unfold gather_dim2. rewrite (combine_repeat_l bias B ids_keep HB), map_map.
    cbn [fst snd]. apply sequence_map_Some.
    eapply Forall_impl; [|exact Hids]. intros ids Hi. cbv beta.
    apply sequence_map_Some.
    eapply Forall_impl; [|exact Hb]. intros m [Hm _]. cbv beta.
    apply gather_map. now rewrite Hm. }
  rewrite H2. cbn [bind]. unfold gather_dim3.
  rewrite combine_map_self, map_map. cbn [fst snd].
  apply sequence_map_Some.
  rewrite Forall_forall in Hids.
  apply Forall_forall. intros ids Hin. specialize (Hids ids Hin).
  unfold rows. rewrite map_map.
  apply sequence_map_Some.
  rewrite Forall_forall in Hb.
  apply Forall_forall. intros m Hm. destruct (Hb m Hm) as [Hml Hmr].
  rewrite map_map. apply sequence_map_Some.
  rewrite Forall_forall in Hids.
  apply Forall_forall. intros i Hi.
  apply gather_map.
  rewrite Forall_forall in Hmr.
  rewrite (Hmr (nth i m [])) by (apply nth_In; rewrite Hml; now apply Hids).
  apply Forall_forall. exact Hids.
Qed.

(** X5: with kept positions inside the window, the masked bias of
    sample [b] is the full bias restricted to the kept rows and columns:
    its entry [(k, i, j)] is the entry of head [k] of the full bias at
    row [ids_keep[b][i]], column [ids_keep[b][j]]. *)
Theorem masked_bias_entries (h w nH B : nat) (tv : nat -> nat -> R)
    (ids_keep : list (list nat)) :
  0 < h -> 0 < w -> 0 < nH ->
  length ids_keep <= B ->
  Forall (Forall (fun i => i < h * w)) ids_keep ->
  let rpb := RelativePositionBias_init (h, w) nH tv in
  exists bias out,
    RelativePositionBias_forward rpb = Some bias /\
    get_masked_rel_bias rpb B ids_keep = Some out /\
    length out = length ids_keep /\
    forall b k i j,
      b < length ids_keep -> k < nH ->
      i < length (nth b ids_keep []) -> j < length (nth b ids_keep []) ->
      nth j (nth i (nth k (nth b out []) []) []) 0%R
      = nth (nth j (nth b ids_keep []) 0)
            (nth (nth i (nth b ids_keep []) 0) (nth k bias []) []) 0%R.
Proof.
  intros Hh Hw HnH HB Hids rpb.
  destruct (RelativePositionBias_forward_shape h w nH tv Hh Hw HnH)
    as [bias [Hf [Hbl Hbs]]].
  fold rpb in Hf.
  exists bias. eexists. split; [exact Hf|]. split.
  { unfold get_masked_rel_bias. rewrite Hf. cbn [bind].
    destruct (Nat.leb_spec (length ids_keep) B); [|lia].
    apply (gather_rows_columns bias (h * w) B ids_keep Hbs HB Hids). }
  split; [now rewrite length_map|].
  intros b k i j Hb Hk Hi Hj.
  rewrite (nth_map_lt _ _ _ []) by exact Hb.
  rewrite (nth_map_lt _ _ _ []) by (now rewrite Hbl).
  rewrite (nth_map_lt _ _ _ 0) by exact Hi.
  rewrite (nth_map_lt _ _ _ 0) by exact Hj.
  reflexivity.
Qed.

(** X5, instance: a [2 x 2] window, one head, one sample keeping the
    positions 3 and 1. *)
Lemma masked_bias_entries_witness :
  let rpb := RelativePositionBias_init (2, 2) 1 (fun r _ => INR r) in
  exists bias out,
    RelativePositionBias_forward rpb = Some bias /\
    get_masked_rel_bias rpb 1 [[3; 1]] = Some out /\
    length out = length [[3; 1]] /\
    forall b k i j,
      b < length [[3; 1]] -> k < 1 ->
      i < length (nth b [[3; 1]] []) -> j < length (nth b [[3; 1]] []) ->
      nth j (nth i (nth k (nth b out []) []) []) 0%R
      = nth (nth j (nth b [[3; 1]] []) 0)
            (nth (nth i (nth b [[3; 1]] []) 0) (nth k bias []) []) 0%R.
Proof.
  apply (masked_bias_entries 2 2 1 1 (fun r _ => INR r) [[3; 1]]); try lia.
  - simpl. lia.
  - repeat constructor.
Defined.

Lemma sequence_None_In {A : Type} (l : list (option A)) :
  In None l -> sequence l = None.
Proof.
  induction l as [|o l IH]; intros H; [contradiction|].
  simpl. destruct o as [a|]; [|reflexivity].
  destruct H as [H|H]; [discriminate|]. now rewrite (IH H).
Qed.

Lemma gather_out_of_range {A : Type} (src : list A) (index : list nat) (i : nat) :
  In i index -> length src <= i -> gather src index = None.
Proof.
  intros Hin Hi. induction index as [|j rest IH]; [contradiction|].
  simpl. destruct Hin as [E|Hin].
  - subst j. now rewrite (proj2 (nth_error_None src i) Hi).
  - rewrite (IH Hin). now destruct (nth_error src j).
Qed.

(** X6: a kept position outside the window makes the masked bias raise:
    the gather along the row axis has no row to read. *)
Theorem masked_bias_out_of_range (h w nH B : nat) (tv : nat -> nat -> R)
    (ids_keep : list (list nat)) (ids : list nat) (i : nat) :
  0 < h -> 0 < w ->
  In ids ids_keep -> In i ids -> h * w <= i ->
  get_masked_rel_bias (RelativePositionBias_init (h, w) nH tv) B ids_keep = None.
Proof.
  intros Hh Hw Hids Hi Hout.
  destruct (Nat.eq_dec nH 0) as [E0|E0].
  { subst nH. unfold get_masked_rel_bias, RelativePositionBias_forward.
    destruct (init_table_length h w 0 tv Hh Hw) as [HT Hn].
    pose proof (init_table_rows h w 0 tv) as Hrows.
    set (T := relative_position_bias_table (RelativePositionBias_init (h, w) 0 tv)) in *.
    assert (Hhd : length (hd [] T) = 0).
    { clearbody T. destruct T as [|r0 T0]; [reflexivity|].
      inversion Hrows as [|? ? Hr0 _]. exact Hr0. }
    rewrite Hhd, Nat.mul_0_r.
    now destruct (sequence _). }
  destruct (RelativePositionBias_forward_shape h w nH tv Hh Hw ltac:(lia))
    as [bias [Hf [Hbl Hbs]]].
  unfold get_masked_rel_bias. rewrite Hf. cbn [bind].
  destruct (Nat.leb_spec (length ids_keep) B) as [HB|HB]; [|reflexivity].
  assert (H2 : gather_dim2 (repeat bias B) ids_keep = None); [|now rewrite H2].
  unfold gather_dim2. rewrite (combine_repeat_l bias B ids_keep HB), map_map.
  cbn [fst snd]. apply sequence_None_In.
  apply in_map_iff. exists ids. split; [|exact Hids].
  apply sequence_None_In.
  destruct bias as [|m bias]; [simpl in Hbl; lia|].
  left. inversion Hbs as [|? ? [Hm _] _]; subst.
  apply (gather_out_of_range m ids i Hi). lia.
Qed.

(** X6, instance: position 4 on a [2 x 2] window. *)
Lemma masked_bias_out_of_range_witness :
  get_masked_rel_bias (RelativePositionBias_init (2, 2) 1 (fun r _ => INR r)) 1 [[0; 4]]
  = None.
Proof.
  apply (masked_bias_out_of_range 2 2 1 1 (fun r _ => INR r) [[0; 4]] [0; 4] 4);
    try lia.
  - now left.
  - right. now left.
Defined.

(** X30: the bias between two grid positions is read from the table
    row of their offset.  For an instance with table entries
    [tv row head], the entry of head [k] of [forward()] for the
    positions [(a, b)] and [(c, d)] is
    [tv ((a - c + h - 1) * (2w - 1) + (b - d + w - 1)) k]: it depends
    on the two positions only through their row and column offsets. *)
Theorem relative_position_bias_by_offset (h w nH : nat) (tv : nat -> nat -> R)
    (a b c d k : nat) :
  a < h -> b < w -> c < h -> d < w -> k < nH ->
  exists bias,
    RelativePositionBias_forward (RelativePositionBias_init (h, w) nH tv) = Some bias /\
    nth (c * w + d) (nth (a * w + b) (nth k bias []) []) 0%R
    = tv (Z.to_nat ((Z.of_nat a - Z.of_nat c + Z.of_nat h - 1) * (2 * Z.of_nat w - 1)
                    + (Z.of_nat b - Z.of_nat d + Z.of_nat w - 1))) k.
Proof.
  intros Ha Hb Hc Hd Hk.
  assert (Hh : 0 < h) by lia. assert (Hw : 0 < w) by lia. assert (HnH : 0 < nH) by lia.
  pose proof (RelativePositionBias_forward_init h w nH tv Hh Hw HnH) as Hf.
  cbv zeta in Hf.
  eexists. split; [exact Hf|].
  destruct (relative_position_index_shape h w) as [Hlen Hrows].
  assert (Hi : a * w + b < h * w) by nia.
  assert (Hj : c * w + d < h * w) by nia.
  cbn [RelativePositionBias_init relative_position_index relative_position_bias_table
       fst snd].
  set (T := map (fun r => map (tv r) (seq 0 nH)) _).
  set (index := build_relative_position_index h w) in *.
  unfold heads_first.
  rewrite (nth_map_lt _ (seq 0 nH) k 0) by (rewrite length_seq; exact Hk).
  rewrite seq_nth by exact Hk. cbn [Nat.add].
  rewrite !map_map.
  rewrite (nth_map_lt _ index (a * w + b) []) by (rewrite Hlen; exact Hi).
  assert (Hrow : length (nth (a * w + b) index []) = h * w).
  { rewrite Forall_forall in Hrows. apply Hrows, nth_In. rewrite Hlen. exact Hi. }
  rewrite map_map.
  rewrite (nth_map_lt _ (nth (a * w + b) index []) (c * w + d) 0%Z)
    by (rewrite Hrow; exact Hj).
  unfold index.
  rewrite (relative_position_index_nth h w a b c d Ha Hb Hc Hd).
  set (e := ((Z.of_nat a - Z.of_nat c + (Z.of_nat h - 1)) * (2 * Z.of_nat w - 1)
             + (Z.of_nat b - Z.of_nat d + (Z.of_nat w - 1)))%Z).
  replace ((Z.of_nat a - Z.of_nat c + Z.of_nat h - 1) * (2 * Z.of_nat w - 1)
           + (Z.of_nat b - Z.of_nat d + Z.of_nat w - 1))%Z with e by (unfold e; ring).
  assert (He : (0 <= e <= (2 * Z.of_nat h - 1) * (2 * Z.of_nat w - 1) - 1)%Z).
  { apply (relative_position_index_entries h w
             (nth (a * w + b) (build_relative_position_index h w) [])).
    - apply nth_In. fold index. rewrite Hlen. exact Hi.
    - unfold e. rewrite <- (relative_position_index_nth h w a b c d Ha Hb Hc Hd).
      apply nth_In. fold index. rewrite Hrow. exact Hj. }
  unfold T.
  rewrite (nth_map_lt _ (seq 0 _) (Z.to_nat e) 0) by (rewrite length_seq; lia).
  rewrite seq_nth by lia. cbn [Nat.add].
  rewrite (nth_map_lt _ (seq 0 nH) k 0) by (rewrite length_seq; exact Hk).
  now rewrite seq_nth by exact Hk.
Qed.

(** X30, instance: a [2 x 3] window with two heads. *)
Lemma relative_position_bias_by_offset_witness :
  exists bias,
    RelativePositionBias_forward
      (RelativePositionBias_init (2, 3) 2 (fun r k => INR (r + k))) = Some bias /\
    nth (1 * 3 + 1) (nth (0 * 3 + 0) (nth 1 bias []) []) 0%R
    = INR (Z.to_nat ((Z.of_nat 0 - Z.of_nat 1 + Z.of_nat 2 - 1) * (2 * Z.of_nat 3 - 1)
                     + (Z.of_nat 0 - Z.of_nat 1 + Z.of_nat 3 - 1)) + 1).
Proof.
  apply (relative_position_bias_by_offset 2 3 2 (fun r k => INR (r + k)) 0 0 1 1 1); lia.
Defined.

(** ** Label dropout *)

Lemma in_combine_exists_r {A B : Type} (l1 : list A) (l2 : list B) (a : A) :
  length l1 = length l2 -> In a l1 -> exists b, In (a, b) (combine l1 l2).
Proof.
  revert l2. induction l1 as [|x l1 IH]; intros l2 Hl Hin; [contradiction|].
  destruct l2 as [|y l2]; [discriminate|]. simpl in Hl.
  destruct Hin as [E|Hin].
  - subst x. exists y. now left.
  - destruct (IH l2 ltac:(lia) Hin) as [b Hb]. exists b. now right.
Qed.

(** C9, as the code has it: with [dropout_prob = 0] and no
    [force_drop_ids], [forward] hands every label unchanged to the
    embedding table, whatever the training flag, the random draws and
    the labels.  With [force_drop_ids] (one flag per label) the labels
    whose flag is 1 are replaced by the null-class index [num_classes]
    and the others are kept, whatever [dropout_prob], the training flag
    and the draws are. *)
Theorem label_embedder_no_drop (le : LabelEmbedder) (draw : nat -> Q)
    (labels : list Z) (train : bool) :
  ((dropout_prob le == 0)%Q ->
   LabelEmbedder_labels le draw labels train None = Some labels /\
   LabelEmbedder_forward le draw labels train None =
     sequence (map (embedding (embedding_table le)) labels)) /\
  (forall force_drop_ids : list Z,
     length force_drop_ids = length labels ->
     exists labels',
       LabelEmbedder_labels le draw labels train (Some force_drop_ids) = Some labels' /\
       LabelEmbedder_forward le draw labels train (Some force_drop_ids) =
         sequence (map (embedding (embedding_table le)) labels') /\
       length labels' = length labels /\
       forall i, i < length labels ->
         (nth i force_drop_ids 0%Z = 1%Z -> nth i labels' 0%Z = num_classes le) /\
         (nth i force_drop_ids 0%Z <> 1%Z -> nth i labels' 0%Z = nth i labels 0%Z)).
Proof.
  split.
  - intros Hp.
    assert (Hl : LabelEmbedder_labels le draw labels train None = Some labels).
    { unfold LabelEmbedder_labels. rewrite (use_dropout_off _ Hp).
      now rewrite andb_false_r. }
    split; [exact Hl|].
    unfold LabelEmbedder_forward. now rewrite Hl.
  - intros ids Hlen.
    set (labels' := zip_with (fun (d : bool) (l : Z) => if d then num_classes le else l)
                             (map (fun v => (v =? 1)%Z) ids) labels).
    assert (Hl : LabelEmbedder_labels le draw labels train (Some ids) = Some labels').
    { unfold LabelEmbedder_labels. rewrite orb_true_r.
      unfold token_drop, where_drop.
      now rewrite broadcast2_same by now rewrite length_map. }
    exists labels'. split; [exact Hl|].
    split; [unfold LabelEmbedder_forward; now rewrite Hl|].
    split; [unfold labels'; rewrite zip_with_length; now rewrite length_map|].
    intros i Hi. unfold labels'.
    rewrite (zip_with_nth _ _ _ _ false 0%Z 0%Z) by (rewrite ?length_map; lia).
    rewrite (nth_map_lt _ _ _ 0%Z) by lia.
    destruct (Z.eqb_spec (nth i ids 0%Z) 1); split; intros H; congruence.
Qed.

(** C9, counterexample: an embedder built with [dropout_prob = 0] for
    ten classes; with [force_drop_ids = [1]] the label 5 is replaced by
    the null-class index 10, for which the table has no row, so
    [forward] raises where the label itself has an embedding. *)
Lemma label_embedder_forced_counterexample :
  let le := LabelEmbedder_init 10 2 0 (fun _ _ => 0%R) in
  (dropout_prob le == 0)%Q /\
  LabelEmbedder_labels le (fun _ => 0%Q) [5%Z] false (Some [1%Z]) = Some [num_classes le] /\
  LabelEmbedder_labels le (fun _ => 0%Q) [5%Z] false (Some [1%Z]) <> Some [5%Z] /\
  LabelEmbedder_forward le (fun _ => 0%Q) [5%Z] false (Some [1%Z]) = None /\
  LabelEmbedder_forward le (fun _ => 0%Q) [5%Z] false None = Some [[0%R; 0%R]].
Proof.
  cbv zeta. split; [reflexivity|]. split; [reflexivity|].
  split; [discriminate|]. split; reflexivity.
Qed.

(** C9, instance: the statement above on that embedder, in training
    mode, without forced drops and with the second of two labels
    forced. *)
Lemma label_embedder_no_drop_witness :
  let le := LabelEmbedder_init 10 2 0 (fun _ _ => 0%R) in
  (LabelEmbedder_labels le (fun _ => 0%Q) [5%Z; 6%Z] true None = Some [5%Z; 6%Z] /\
   LabelEmbedder_forward le (fun _ => 0%Q) [5%Z; 6%Z] true None
   = sequence (map (embedding (embedding_table le)) [5%Z; 6%Z])) /\
  exists labels',
    LabelEmbedder_labels le (fun _ => 0%Q) [5%Z; 6%Z] true (Some [0%Z; 1%Z]) = Some labels' /\
    LabelEmbedder_forward le (fun _ => 0%Q) [5%Z; 6%Z] true (Some [0%Z; 1%Z]) =
      sequence (map (embedding (embedding_table le)) labels') /\
    length labels' = 2 /\
    forall i, i < 2 ->
      (nth i [0%Z; 1%Z] 0%Z = 1%Z -> nth i labels' 0%Z = num_classes le) /\
      (nth i [0%Z; 1%Z] 0%Z <> 1%Z -> nth i labels' 0%Z = nth i [5%Z; 6%Z] 0%Z).
Proof.
  intros le.
  destruct (label_embedder_no_drop le (fun _ => 0%Q) [5%Z; 6%Z] true) as [Hnone Hforced].
  split.
  - apply Hnone. reflexivity.
  - apply (Hforced [0%Z; 1%Z]). reflexivity.
Defined.

(** X7: an embedder built with [dropout_prob <= 0] has no row for the
    null class, so a forced drop raises in the table lookup: whenever
    [force_drop_ids] (one entry per label) holds a [1], [forward] fails,
    in training and in evaluation mode alike. *)
Theorem label_embedder_forced_drop_raises (nc D : nat) (p : Q) (tv : nat -> nat -> R)
    (draw : nat -> Q) (labels : list Z) (train : bool) (force_drop_ids : list Z) :
  (p <= 0)%Q ->
  length force_drop_ids = length labels ->
  In 1%Z force_drop_ids ->
  LabelEmbedder_forward (LabelEmbedder_init nc D p tv) draw labels train
                        (Some force_drop_ids) = None.
Proof.
  intros Hp Hlen Hin.
  unfold LabelEmbedder_forward, LabelEmbedder_labels, LabelEmbedder_init.
  cbn [dropout_prob embedding_table num_classes].
  rewrite orb_true_r. unfold token_drop, where_drop. cbn [dropout_prob num_classes].
  rewrite broadcast2_same by now rewrite length_map.
  cbn [bind].
  assert (Hq : Qle_bool p 0 = true) by now apply Qle_bool_iff.
  rewrite Hq, Nat.add_0_r.
  apply sequence_None_In. apply in_map_iff.
  exists (Z.of_nat nc). split.
  - unfold embedding. destruct (Z.ltb_spec (Z.of_nat nc) 0); [reflexivity|].
    apply nth_error_None. rewrite length_map, length_seq. lia.
  - destruct (in_combine_exists_r (map (fun v => (v =? 1)%Z) force_drop_ids) labels true)
      as [l Hl].
    + now rewrite length_map.
    + apply in_map_iff. exists 1%Z. split; [reflexivity | exact Hin].
    + unfold zip_with. apply in_map_iff. exists (true, l). split; [reflexivity | exact Hl].
Qed.

(** X7, instance: ten classes, no dropout, the second of two labels
    forced. *)
Lemma label_embedder_forced_drop_raises_witness :
  LabelEmbedder_forward (LabelEmbedder_init 10 2 0 (fun _ _ => 0%R)) (fun _ => 0%Q)
                        [5%Z; 6%Z] false (Some [0%Z; 1%Z]) = None.
Proof.
  apply (label_embedder_forced_drop_raises 10 2 0 (fun _ _ => 0%R) (fun _ => 0%Q)
           [5%Z; 6%Z] false [0%Z; 1%Z]).
  - discriminate.
  - reflexivity.
  - right. now left.
Defined.

(** X8: label dropout in training.  For an embedder built with
    [dropout_prob > 0] over table values [tv] and valid labels,
    [forward] with [train] set never raises and returns one row per
    label: the row of the null class [num_classes] where the draw is
    below [dropout_prob], the row of the label itself elsewhere. *)
Theorem label_embedder_training_dropout (nc D : nat) (p : Q) (tv : nat -> nat -> R)
    (draw : nat -> Q) (labels : list Z) :
  (0 < p)%Q ->
  Forall (fun l => (0 <= l < Z.of_nat nc)%Z) labels ->
  exists ys,
    LabelEmbedder_forward (LabelEmbedder_init nc D p tv) draw labels true None = Some ys /\
    length ys = length labels /\
    forall i, i < length labels ->
      ((draw i < p)%Q -> nth i ys [] = map (tv nc) (seq 0 D)) /\
      ((p <= draw i)%Q ->
       nth i ys [] = map (tv (Z.to_nat (nth i labels 0%Z))) (seq 0 D)).
Proof.
  intros Hp Hl.
  unfold LabelEmbedder_forward, LabelEmbedder_labels, LabelEmbedder_init.
  cbn [dropout_prob embedding_table num_classes andb orb].
  assert (Hq : Qle_bool p 0 = false).
  { destruct (Qle_bool p 0) eqn:E; [|reflexivity]. apply Qle_bool_iff in E. lra. }
  rewrite Hq. cbn [negb orb].
  unfold token_drop, where_drop. cbn [dropout_prob num_classes].
  rewrite broadcast2_same by now rewrite length_map, length_seq.
  cbn [bind].
  set (table := map (fun r => map (tv r) (seq 0 D)) (seq 0 (nc + 1))).
  set (drop_ids := map (fun i => negb (Qle_bool p (draw i))) (seq 0 (length labels))).
  set (labels' := zip_with (fun (d : bool) (l : Z) => if d then Z.of_nat nc else l)
                           drop_ids labels).
  assert (Hdl : length drop_ids = length labels)
    by (unfold drop_ids; now rewrite length_map, length_seq).
  assert (Htl : length table = nc + 1) by (unfold table; now rewrite length_map, length_seq).
  assert (Hv : Forall (fun l => (0 <= l < Z.of_nat (nc + 1))%Z) labels').
  { unfold labels'. rewrite Forall_forall in Hl.
    apply Forall_zip_with. intros d l Hin. apply in_combine_r in Hin.
    specialize (Hl l Hin). cbv beta in Hl. destruct d; lia. }
  exists (map (fun l => nth (Z.to_nat l) table []) labels').
  split; [|split].
  - apply sequence_map_Some. eapply Forall_impl; [|exact Hv].
    intros l Hr. cbv beta in *. unfold embedding.
    destruct (Z.ltb_spec l 0); [lia|].
    apply nth_error_nth'. rewrite Htl. lia.
  - rewrite length_map. unfold labels'. now rewrite zip_with_length.
  - intros i Hi.
    rewrite (nth_map_lt _ _ _ 0%Z) by (unfold labels'; rewrite zip_with_length; lia).
    unfold labels'. rewrite (zip_with_nth _ _ _ _ false 0%Z 0%Z) by lia.
    unfold drop_ids. rewrite (nth_map_lt _ _ _ 0) by (rewrite length_seq; exact Hi).
    rewrite seq_nth by exact Hi. cbn [Nat.add].
    assert (Hrow : forall r, r < nc + 1 -> nth r table [] = map (tv r) (seq 0 D)).
    { intros r Hr. unfold table.
      rewrite (nth_map_lt _ _ _ 0) by (rewrite length_seq; exact Hr).
      now rewrite seq_nth by exact Hr. }
    rewrite Forall_forall in Hl.
    pose proof (Hl (nth i labels 0%Z) (nth_In labels 0%Z Hi)) as Hli. cbv beta in Hli.
    destruct (Qle_bool p (draw i)) eqn:E; cbn [negb].
    + apply Qle_bool_iff in E. split; [intros Hlt; lra|].
      intros _. apply Hrow. lia.
    + split.
      * intros _. rewrite Nat2Z.id. apply Hrow. lia.
      * intros Hle. apply Qle_bool_iff in Hle. congruence.
Qed.

(** X8, instance: ten classes, dropout 1/10. *)
Lemma label_embedder_training_dropout_witness :
  exists ys,
    LabelEmbedder_forward (LabelEmbedder_init 10 2 (1 # 10) (fun r _ => INR r))
                          (fun _ => 0%Q) [5%Z; 6%Z] true None = Some ys /\
    length ys = length [5%Z; 6%Z] /\
    forall i, i < length [5%Z; 6%Z] ->
      ((0 < 1 # 10)%Q -> nth i ys [] = map (fun _ => INR 10) (seq 0 2)) /\
      ((1 # 10 <= 0)%Q ->
       nth i ys [] = map (fun _ => INR (Z.to_nat (nth i [5%Z; 6%Z] 0%Z))) (seq 0 2)).
Proof.
  apply (label_embedder_training_dropout 10 2 (1 # 10) (fun r _ => INR r)
           (fun _ => 0%Q) [5%Z; 6%Z]).
  - reflexivity.
  - repeat constructor; lia.
Defined.

(** ** Timestep embedding *)

(** The rows of the sinusoidal embedding and their width. *)
Lemma timestep_embedding_rows (t : list R) (dim : nat) (max_period : R) :
  (0 < max_period)%R ->
  exists emb,
    timestep_embedding t dim max_period = Some emb /\
    length emb = length t /\
    Forall (fun row => length row = if dim =? 1 then 0 else dim) emb.
Proof.
  intros Hmp. unfold timestep_embedding.
  destruct (Rle_dec max_period 0) as [Hle|_]; [lra|].
  eexists. split; [reflexivity|]. split; [now rewrite length_map|].
  apply Forall_map, Forall_forall. intros ti _.
  pose proof (Nat.div_mod_eq dim 2) as Hdm.
  pose proof (Nat.mod_upper_bound dim 2 ltac:(lia)) as Hub.
  destruct (Nat.eqb_spec (dim mod 2) 0) as [He|Ho]; cbn [negb].
  - rewrite length_app, !length_map, length_seq.
    destruct (Nat.eqb_spec dim 1); lia.
  - rewrite !length_app, !length_map, length_firstn, length_app, !length_map, length_seq.
    destruct (Nat.eqb_spec dim 1) as [E1|E1].
    + subst dim. reflexivity.
    + assert (1 <= dim / 2) by (destruct (dim / 2); lia). lia.
Qed.

(** X9: the width of the sinusoidal embedding.  For a positive
    [max_period] every timestep gets one row; the row has [dim] entries
    for every [dim] except [dim = 1], where it is empty: with
    [half = 0] there is no column whose shape the zero padding could
    copy. *)
Theorem timestep_embedding_width (t : list R) (dim : nat) (max_period : R) :
  (0 < max_period)%R ->
  exists emb,
    timestep_embedding t dim max_period = Some emb /\
    length emb = length t /\
    Forall (fun row => length row = if dim =? 1 then 0 else dim) emb.
Proof.
  exact (timestep_embedding_rows t dim max_period).
Qed.

(** X9, instance: the default width 256 at three timesteps. *)
Lemma timestep_embedding_width_witness :
  exists emb,
    timestep_embedding [0%R; 1%R; 2%R] 256 10000 = Some emb /\
    length emb = length [0%R; 1%R; 2%R] /\
    Forall (fun row => length row = if 256 =? 1 then 0 else 256) emb.
Proof.
  apply (timestep_embedding_width [0%R; 1%R; 2%R] 256 10000). lra.
Defined.

Lemma linear_ok (n_in n_out : nat) (l : Linear) (x : list R) :
  linear_shape n_in n_out l -> length x = n_in ->
  exists y, linear l x = Some y /\ length y = n_out.
Proof.
  intros [Hi [Hw Hb]] Hx. unfold linear.
  destruct (Nat.eqb_spec (length x) (in_features l)) as [_|Hne]; [|congruence].
  eexists. split; [reflexivity|].
  rewrite length_map, length_combine. lia.
Qed.

(** X11: [TimestepEmbedder.forward] returns one vector of the hidden
    width per timestep whenever its two linear layers have the shapes
    the constructor gives them and [frequency_embedding_size] is not 1. *)
Theorem TimestepEmbedder_forward_shape (te : TimestepEmbedder) (hidden_size : nat)
    (t : list R) :
  linear_shape (frequency_embedding_size te) hidden_size (mlp_0 te) ->
  linear_shape hidden_size hidden_size (mlp_2 te) ->
  frequency_embedding_size te <> 1 ->
  exists t_emb,
    TimestepEmbedder_forward te t = Some t_emb /\ shape2 (length t) hidden_size t_emb.
Proof.
  intros H0 H2 Hfes. unfold TimestepEmbedder_forward.
  destruct (timestep_embedding_rows t (frequency_embedding_size te) 10000 ltac:(lra))
    as [emb [He [Hel Hew]]].
  rewrite He. cbn [bind].
  destruct (Nat.eqb_spec (frequency_embedding_size te) 1) as [E|_]; [contradiction|].
  destruct (sequence_Forall_exists
              (fun row => h <- linear (mlp_0 te) row ;; linear (mlp_2 te) (map silu h))
              (fun v => length v = hidden_size) emb) as [out [Ho [Hol How]]].
  - eapply Forall_impl; [|exact Hew]. intros row Hrow. cbv beta in Hrow.
    destruct (linear_ok _ _ _ row H0 Hrow) as [h [Hh Hhl]].
    rewrite Hh. cbn [bind].
    apply (linear_ok _ _ _ (map silu h) H2). now rewrite length_map.
  - exists out. split; [exact Ho|]. split; [congruence | exact How].
Qed.

(** X11, instance: two features from four frequencies-and-phases. *)
Lemma TimestepEmbedder_forward_shape_witness :
  exists t_emb,
    TimestepEmbedder_forward
      {| mlp_0 := Linear_init 4 2 (fun _ _ => 1%R);
         mlp_2 := Linear_init 2 2 (fun _ _ => 1%R);
         frequency_embedding_size := 4 |} [0%R; 5%R] = Some t_emb /\
    shape2 (length [0%R; 5%R]) 2 t_emb.
Proof.
  apply (TimestepEmbedder_forward_shape
           {| mlp_0 := Linear_init 4 2 (fun _ _ => 1%R);
              mlp_2 := Linear_init 2 2 (fun _ _ => 1%R);
              frequency_embedding_size := 4 |} 2 [0%R; 5%R]).
  - repeat split.
  - repeat split.
  - discriminate.
Defined.

(** ** Attention *)

Lemma iadd_axis_same {A B : Type} (f : A -> B -> option A) (P : A -> Prop)
    (a : list A) (b : list B) :
  length b = length a ->
  (forall u v, In (u, v) (combine a b) -> exists r, f u v = Some r /\ P r) ->
  exists out, iadd_axis f a b = Some out /\ length out = length a /\ Forall P out.
Proof.
  intros Hl Hf. unfold iadd_axis. rewrite Hl, Nat.eqb_refl.
  destruct (sequence_Forall_exists (fun ab => f (fst ab) (snd ab)) P (combine a b))
    as [out [Ho [Hol HoP]]].
  - apply Forall_forall. intros [u v] Hin. cbn [fst snd]. now apply Hf.
  - exists out. split; [exact Ho|]. split; [|exact HoP].
    rewrite Hol, length_combine. lia.
Qed.

(** Adding a bias of the same shape keeps the shape of the scores. *)
Lemma iadd_bias_shape (nH N : nat) (attn rp_bias : list (list (list R))) :
  length attn = nH ->
  Forall (fun m => length m = N /\ Forall (fun row => length row = N) m) attn ->
  length rp_bias = nH ->
  Forall (fun m => length m = N /\ Forall (fun row => length row = N) m) rp_bias ->
  exists out,
    iadd_bias attn rp_bias = Some out /\
    length out = nH /\
    Forall (fun m => length m = N /\ Forall (fun row => length row = N) m) out.
Proof.
  intros Hal Has Hbl Hbs. unfold iadd_bias.
  rewrite Forall_forall in Has, Hbs.
  destruct (iadd_axis_same
              (iadd_axis (iadd_axis (fun u v => Some (u + v)%R)))
              (fun m => length m = N /\ Forall (fun row => length row = N) m)
              attn rp_bias) as [out [Ho [Hol HoP]]].
  - congruence.
  - intros ma mb Hin.
    destruct (Has ma (in_combine_l _ _ _ _ Hin)) as [Hma Hmar].
    destruct (Hbs mb (in_combine_r _ _ _ _ Hin)) as [Hmb Hmbr].
    rewrite Forall_forall in Hmar, Hmbr.
    destruct (iadd_axis_same (iadd_axis (fun u v => Some (u + v)%R))
                (fun row => length row = N) ma mb) as [m [Hm [Hml HmP]]].
    + congruence.
    + intros ra rb Hin'.
      pose proof (Hmar ra (in_combine_l _ _ _ _ Hin')) as Hra.
      pose proof (Hmbr rb (in_combine_r _ _ _ _ Hin')) as Hrb.
      destruct (iadd_axis_same (fun u v => Some (u + v)%R) (fun _ => True) ra rb)
        as [r [Hr [Hrl _]]].
      * congruence.
      * intros u v _. eauto.
      * exists r. split; [exact Hr | congruence].
    + exists m. split; [exact Hm|]. split; [congruence | exact HmP].
  - exists out. split; [exact Ho|]. split; [congruence | exact HoP].
Qed.

Lemma Attention_init_fields (dim heads n_patches : nat) (tv : nat -> nat -> R)
    (a : Attention) :
  Attention_init dim heads n_patches tv = Some a ->
  0 < heads /\ 0 < dim / heads /\
  attn_num_heads a = heads /\ attn_head_dim a = dim / heads /\
  rel_pos_bias a =
    RelativePositionBias_init (Nat.sqrt n_patches, Nat.sqrt n_patches) heads tv.
Proof.
  unfold Attention_init. intros H.
  destruct (Nat.eqb_spec heads 0) as [|Hh]; [discriminate|].
  destruct (Nat.eqb_spec (dim / heads) 0) as [|Hd]; [discriminate|].
  inversion H. cbn. repeat split; lia.
Qed.

(** The position bias handed to the scores of one sample: [L x L] per
    head without [ids_keep], [K x K] per head for [K] kept positions. *)
Lemma rp_bias_shape (g nH : nat) (tv : nat -> nat -> R) (N : nat)
    (ids_keep : option (list nat)) :
  0 < g -> 0 < nH ->
  match ids_keep with
  | None => N = g * g
  | Some k => length k = N /\ Forall (fun i => i < g * g) k
  end ->
  exists rp_bias,
    match ids_keep with
    | Some ids =>
        b <- get_masked_rel_bias (RelativePositionBias_init (g, g) nH tv) 1 [ids] ;;
        hd_error b
    | None => RelativePositionBias_forward (RelativePositionBias_init (g, g) nH tv)
    end = Some rp_bias /\
    length rp_bias = nH /\
    Forall (fun m => length m = N /\ Forall (fun row => length row = N) m) rp_bias.
Proof.
  intros Hg HnH Hids.
  destruct (RelativePositionBias_forward_shape g g nH tv Hg Hg HnH)
    as [bias [Hf [Hbl Hbs]]].
  destruct ids_keep as [k|].
  - destruct Hids as [Hk Hb].
    unfold get_masked_rel_bias. rewrite Hf. cbn [bind].
    change (length [k] <=? 1) with true. cbv iota.
    rewrite (gather_rows_columns bias (g * g) 1 [k] Hbs) by (repeat constructor; assumption).
    cbn [bind map hd_error].
    eexists. split; [reflexivity|]. split; [now rewrite length_map|].
    apply Forall_map, Forall_forall. intros m _. split; [now rewrite length_map|].
    apply Forall_map, Forall_forall. intros i _. now rewrite length_map.
  - subst N. exists bias. repeat split; assumption.
Qed.

(** The attention module on well-shaped input. *)
Lemma Attention_forward_ok (dim heads n_patches : nat) (tv : nat -> nat -> R)
    (a : Attention) (w : AttentionWeights) (x : tokens) (ids_keep : option (list nat)) :
  let g := Nat.sqrt n_patches in
  Attention_init dim heads n_patches tv = Some a ->
  dim mod heads = 0 ->
  0 < g ->
  linear_shape dim (3 * dim) (qkv w) ->
  linear_shape dim dim (proj w) ->
  Forall (fun tok => length tok = dim) x ->
  match ids_keep with
  | None => length x = g * g
  | Some k => length k = length x /\ Forall (fun i => i < g * g) k
  end ->
  exists y, Attention_forward a w x ids_keep = Some y /\ shape2 (length x) dim y.
Proof.
  intros g Ha Hdiv Hg Hqkv Hproj Hx Hids.
  destruct (Attention_init_fields dim heads n_patches tv a Ha)
    as [Hh [Hhd [HnH [_ Hrpb]]]].
  fold g in Hrpb.
  unfold Attention_forward. cbv zeta. rewrite HnH, Hrpb.
  destruct (Nat.eqb_spec heads 0) as [|_]; [lia|].
  set (N := length x).
  set (C := length (hd [] x)).
  set (head_dim := C / heads).
  (* the qkv projection *)
  destruct (sequence_Forall_exists (linear (qkv w)) (fun r => length r = 3 * dim) x)
    as [rows [Hrows [Hrl Hrw]]].
  { eapply Forall_impl; [|exact Hx]. intros tok Htok.
    apply (linear_ok dim (3 * dim) (qkv w) tok Hqkv Htok). }
  rewrite Hrows. cbn [bind].
  assert (HC : x <> [] -> C = dim).
  { intros Hne. unfold C. destruct x as [|tok x']; [congruence|].
    inversion Hx; subst. reflexivity. }
  assert (Hmerge : x <> [] -> heads * head_dim = dim).
  { intros Hne. unfold head_dim. rewrite (HC Hne).
    pose proof (Nat.div_mod_eq dim heads). lia. }
  assert (Hcheck : forallb (fun r => length r =? 3 * heads * head_dim) rows = true).
  { apply forallb_forall. intros r Hr. apply Nat.eqb_eq.
    rewrite Forall_forall in Hrw. rewrite (Hrw r Hr).
    assert (Hne : x <> []).
    { intros E. subst x. simpl in Hrl. destruct rows; [contradiction | discriminate]. }
    rewrite <- Nat.mul_assoc, (Hmerge Hne). reflexivity. }
  rewrite Hcheck. cbn [negb].
  (* scores and bias *)
  destruct (rp_bias_shape g heads tv N ids_keep Hg Hh) as [rp_bias [Hrp [Hbl Hbs]]].
  { destruct ids_keep as [k|]; exact Hids. }
  rewrite Hrp. cbn [bind].
  match goal with |- context [iadd_bias ?A rp_bias] => set (attn := A) end.
  assert (Hattn : length attn = heads /\
                  Forall (fun m => length m = N /\ Forall (fun row => length row = N) m) attn).
  { unfold attn. split; [now rewrite length_map, length_seq|].
    apply Forall_map, Forall_forall. intros h _.
    split; [unfold N; now rewrite !length_map|].
    apply Forall_map, Forall_forall. intros qi _. unfold N. now rewrite !length_map. }
  destruct Hattn as [Hal Has].
  destruct (iadd_bias_shape heads N attn rp_bias Hal Has Hbl Hbs)
    as [attn' [Hadd [Hal' Has']]].
  rewrite Hadd. cbn [bind].
  (* weighted values, heads merged, output projection *)
  match goal with
  | |- context [map ?F (combine (seq 0 heads) (map (map softmax) attn'))] =>
      set (out := map F (combine (seq 0 heads) (map (map softmax) attn')))
  end.
  assert (Hout : length out = heads /\
                 Forall (fun oh => length oh = N /\
                                   Forall (fun row => length row = head_dim) oh) out).
  { unfold out. split.
    - rewrite length_map, length_combine, length_seq, length_map. lia.
    - apply Forall_map, Forall_forall. intros [h m] Hin. cbn [fst snd].
      apply in_combine_r in Hin. apply in_map_iff in Hin.
      destruct Hin as [m0 [Hm Hm0]]. subst m.
      rewrite Forall_forall in Has'. destruct (Has' m0 Hm0) as [Hml _].
      split; [now rewrite !length_map|].
      apply Forall_map, Forall_forall. intros arow _.
      now rewrite length_map, length_seq. }
  destruct Hout as [Hol Hos].
  destruct (sequence_Forall_exists (linear (proj w)) (fun r => length r = dim)
              (map (fun i => flat_map (fun oh : list (list R) => nth i oh []) out) (seq 0 N)))
    as [y [Hy [Hyl Hyw]]].
  { apply Forall_map, Forall_forall. intros i Hi. apply in_seq in Hi.
    apply (linear_ok dim dim (proj w) _ Hproj).
    assert (Hne : x <> []) by (intros E; subst x; simpl in N; lia).
    rewrite (flat_map_const_length _ head_dim).
    - rewrite Hol. apply (Hmerge Hne).
    - intros oh Hoh. rewrite Forall_forall in Hos.
      destruct (Hos oh Hoh) as [Hohl Hohr].
      rewrite Forall_forall in Hohr. apply Hohr, nth_In. lia. }
  exists y. split; [exact Hy|].
  split; [|exact Hyw]. now rewrite Hyl, length_map, length_seq.
Qed.

(** X12: [Attention.forward] keeps the shape of its input.  For a module
    built by [Attention.__init__] with [dim] divisible by [num_heads],
    layers of the constructed shapes and a non-empty window, a sequence
    of width-[dim] tokens that either covers all [L] grid positions (no
    [ids_keep]) or comes with one in-range kept position per token is
    mapped to a sequence of the same length and width. *)
Theorem Attention_forward_shape (dim heads n_patches : nat) (tv : nat -> nat -> R)
    (a : Attention) (w : AttentionWeights) (x : tokens) (ids_keep : option (list nat)) :
  let g := Nat.sqrt n_patches in
  Attention_init dim heads n_patches tv = Some a ->
  dim mod heads = 0 ->
  0 < g ->
  linear_shape dim (3 * dim) (qkv w) ->
  linear_shape dim dim (proj w) ->
  Forall (fun tok => length tok = dim) x ->
  match ids_keep with
  | None => length x = g * g
  | Some k => length k = length x /\ Forall (fun i => i < g * g) k
  end ->
  exists y, Attention_forward a w x ids_keep = Some y /\ shape2 (length x) dim y.
Proof.
  exact (Attention_forward_ok dim heads n_patches tv a w x ids_keep).
Qed.

(** X12, instance: width 4, two heads, all four positions of a
    [2 x 2] grid. *)
Lemma Attention_forward_shape_witness :
  exists y,
    Attention_forward small_attention small_attention_weights (repeat (row4 1) 4) None
      = Some y /\
    shape2 (length (repeat (row4 1) 4)) 4 y.
Proof.
  apply (Attention_forward_shape 4 2 4 (fun _ _ => 0%R) small_attention
           small_attention_weights (repeat (row4 1) 4) None).
  - reflexivity.
  - reflexivity.
  - vm_compute. lia.
  - repeat split.
  - repeat split.
  - repeat constructor.
  - reflexivity.
Defined.

(** The bias gathered with every position kept, in order, is the bias
    itself; on an empty window both computations raise. *)
Lemma rp_bias_all_kept (g nH : nat) (tv : nat -> nat -> R) :
  0 < nH ->
  (b <- get_masked_rel_bias (RelativePositionBias_init (g, g) nH tv) 1 [seq 0 (g * g)] ;;
   hd_error b)
  = RelativePositionBias_forward (RelativePositionBias_init (g, g) nH tv).
Proof.
  intros HnH. destruct (Nat.eq_dec g 0) as [E|E].
  - subst g. unfold get_masked_rel_bias, RelativePositionBias_forward.
    cbn [RelativePositionBias_init window_size relative_position_index fst snd].
    change (build_relative_position_index 0 0) with (@nil (list Z)).
    cbn [map sequence bind Nat.mul Nat.eqb]. reflexivity.
  - destruct (RelativePositionBias_forward_shape g g nH tv ltac:(lia) ltac:(lia) HnH)
      as [bias [Hf [Hbl Hbs]]].
    unfold get_masked_rel_bias. rewrite Hf. cbn [bind].
    change [seq 0 (g * g)] with (repeat (seq 0 (g * g)) 1).
    rewrite repeat_length. cbn [Nat.leb].
    destruct (gather_all_positions bias (g * g) 1 Hbs) as [H2 H3].
    rewrite H2. cbn [bind]. rewrite H3. reflexivity.
Qed.

(** X13: handing [Attention.forward] the kept positions
    [0, 1, ..., L-1] is the same as handing it no [ids_keep] at all,
    for every input: the two calls return the same tokens or raise
    together. *)
Theorem Attention_forward_all_kept (dim heads n_patches : nat) (tv : nat -> nat -> R)
    (a : Attention) (w : AttentionWeights) (x : tokens) :
  let g := Nat.sqrt n_patches in
  Attention_init dim heads n_patches tv = Some a ->
  Attention_forward a w x (Some (seq 0 (g * g))) = Attention_forward a w x None.
Proof.
  intros g Ha.
  destruct (Attention_init_fields dim heads n_patches tv a Ha)
    as [Hh [_ [HnH [_ Hrpb]]]].
  fold g in Hrpb.
  unfold Attention_forward. rewrite Hrpb, (rp_bias_all_kept g heads tv Hh). reflexivity.
Qed.

(** X13, instance: [small_attention] on its four positions. *)
Lemma Attention_forward_all_kept_witness :
  Attention_forward small_attention small_attention_weights (repeat (row4 1) 4)
                    (Some (seq 0 (2 * 2)))
  = Attention_forward small_attention small_attention_weights (repeat (row4 1) 4) None.
Proof.
  apply (Attention_forward_all_kept 4 2 4 (fun _ _ => 0%R) small_attention
           small_attention_weights (repeat (row4 1) 4)).
  reflexivity.
Defined.

(** X14: the constructor accepts a width that the head count does not
    divide, but the forward pass of such a module raises on every
    non-empty input: the [3 * dim] features of the qkv projection do
    not fit the shape [[3, num_heads, dim // num_heads]]. *)
Theorem Attention_forward_head_split_raises (dim heads n_patches : nat)
    (tv : nat -> nat -> R) (a : Attention) (w : AttentionWeights) (x : tokens)
    (ids_keep : option (list nat)) :
  Attention_init dim heads n_patches tv = Some a ->
  linear_shape dim (3 * dim) (qkv w) ->
  dim mod heads <> 0 ->
  x <> [] ->
  Forall (fun tok => length tok = dim) x ->
  Attention_forward a w x ids_keep = None.
Proof.
  intros Ha Hqkv Hdiv Hne Hx.
  destruct (Attention_init_fields dim heads n_patches tv a Ha)
    as [Hh [_ [HnH _]]].
  unfold Attention_forward. cbv zeta. rewrite HnH.
  destruct (Nat.eqb_spec heads 0) as [|_]; [reflexivity|].
  destruct (sequence_Forall_exists (linear (qkv w)) (fun r => length r = 3 * dim) x)
    as [rows [Hrows [Hrl Hrw]]].
  { eapply Forall_impl; [|exact Hx]. intros tok Htok.
    apply (linear_ok dim (3 * dim) (qkv w) tok Hqkv Htok). }
  rewrite Hrows. cbn [bind].
  destruct x as [|tok x']; [congruence|].
  destruct rows as [|r rows']; [discriminate|].
  inversion Hx as [|? ? Htok _].
  inversion Hrw as [|? ? Hr _].
  cbn [hd forallb]. rewrite Hr, Htok.
  assert (Hlt : heads * (dim / heads) < dim).
  { pose proof (Nat.div_mod_eq dim heads).
    pose proof (Nat.mod_upper_bound dim heads ltac:(lia)). lia. }
  destruct (Nat.eqb_spec (3 * dim) (3 * heads * (dim / heads))) as [E|_];
    [|reflexivity].
  rewrite <- Nat.mul_assoc in E. lia.
Qed.

(** X14, instance: width 12 with 5 heads, the numbers of [invalid_cfg]. *)
Lemma Attention_forward_head_split_raises_witness :
  Attention_forward
    {| attn_num_heads := 5; attn_head_dim := 2;
       rel_pos_bias := RelativePositionBias_init (2, 2) 5 (fun _ _ => 0%R) |}
    {| qkv := Linear_init 12 36 (fun _ _ => 1%R);
       proj := Linear_init 12 12 (fun _ _ => 1%R) |}
    [repeat 1%R 12] None = None.
Proof.
  apply (Attention_forward_head_split_raises 12 5 4 (fun _ _ => 0%R)
           {| attn_num_heads := 5; attn_head_dim := 2;
              rel_pos_bias := RelativePositionBias_init (2, 2) 5 (fun _ _ => 0%R) |}
           {| qkv := Linear_init 12 36 (fun _ _ => 1%R);
              proj := Linear_init 12 12 (fun _ _ => 1%R) |}
           [repeat 1%R 12] None).
  - reflexivity.
  - repeat split.
  - discriminate.
  - discriminate.
  - repeat constructor.
Defined.

(** ** Transformer block *)

Lemma chunk_six (D : nat) (v : list R) :
  length v = 6 * D ->
  chunk 6 v = map (fun i => firstn D (skipn (i * D) v)) [0; 1; 2; 3; 4; 5].
Proof.
  intros Hv. unfold chunk. rewrite Hv.
  destruct (Nat.eqb_spec (6 * D) 0) as [E|E].
  - assert (D = 0) by lia. subst D. destruct v; [reflexivity | discriminate].
  - assert (Hs : (6 * D + 6 - 1) / 6 = D).
    { replace (6 * D + 6 - 1) with (5 + D * 6) by lia.
      rewrite Nat.div_add by lia. reflexivity. }
    rewrite Hs.
    assert (Hc : (6 * D + D - 1) / D = 6).
    { replace (6 * D + D - 1) with ((D - 1) + 6 * D) by lia.
      rewrite Nat.div_add by lia. rewrite Nat.div_small by lia. reflexivity. }
    rewrite Hc. reflexivity.
Qed.

Lemma piece_length (D i : nat) (v : list R) :
  length v = 6 * D -> i < 6 -> length (firstn D (skipn (i * D) v)) = D.
Proof.
  intros Hv Hi. rewrite length_firstn, length_skipn, Hv. nia.
Qed.

Lemma norm_tokens_ok (T D : nat) (x : tokens) :
  shape2 T D x ->
  norm_tokens D x = Some (map layer_norm x) /\ shape2 T D (map layer_norm x).
Proof.
  intros [Hl Hw]. unfold norm_tokens.
  assert (Hall : forallb (fun tok => length tok =? D) x = true).
  { apply forallb_forall. intros tok Htok. apply Nat.eqb_eq.
    rewrite Forall_forall in Hw. now apply Hw. }
  rewrite Hall. split; [reflexivity|].
  split; [now rewrite length_map|].
  apply Forall_map. eapply Forall_impl; [|exact Hw].
  intros tok Ht. cbv beta. now rewrite layer_norm_length.
Qed.

(** [gate.unsqueeze(1) * h]: every token of [h] times the gate. *)
Lemma mat_op_gate (T D : nat) (gate : list R) (h : tokens) :
  length gate = D -> shape2 T D h ->
  mat_op Rmult [gate] h = Some (map (zip_with Rmult gate) h) /\
  shape2 T D (map (zip_with Rmult gate) h).
Proof.
  intros Hg [Hl Hw].
  assert (Hrows : sequence (map (vec_op Rmult gate) h) = Some (map (zip_with Rmult gate) h)).
  { apply sequence_map_Some. eapply Forall_impl; [|exact Hw].
    intros tok Ht. cbv beta. apply vec_op_same. congruence. }
  split.
  - unfold mat_op, broadcast2.
    destruct h as [|h0 [|h1 h']]; cbn [length Nat.eqb bind combine map fst snd];
      exact Hrows.
  - split; [now rewrite length_map|].
    apply Forall_map. eapply Forall_impl; [|exact Hw].
    intros tok Ht. cbv beta. rewrite zip_with_length; congruence.
Qed.

(** The residual form of one block on well-shaped input: the input plus
    the gated attention branch [h1] plus the gated feed-forward branch
    [h2]; the gates are the third and the sixth piece of the
    modulation vector. *)
Lemma MDTBlock_forward_residual (D heads n_patches : nat) (b : MDTBlockLayers)
    (x : tokens) (c : list R) (ids_keep : option (list nat)) :
  let g := Nat.sqrt n_patches in
  block_layers_ok D heads n_patches b ->
  D mod heads = 0 ->
  0 < g ->
  Forall (fun tok => length tok = D) x ->
  length c = D ->
  match ids_keep with
  | None => length x = g * g
  | Some k => length k = length x /\ Forall (fun i => i < g * g) k
  end ->
  exists mods h1 h2,
    linear (blk_adaLN_modulation b) (map silu c) = Some mods /\
    length mods = 6 * D /\
    shape2 (length x) D h1 /\
    shape2 (length x) D h2 /\
    MDTBlock_forward b x c ids_keep =
      Some (zip_with (zip_with Rplus)
              (zip_with (zip_with Rplus) x
                 (map (zip_with Rmult (firstn D (skipn (2 * D) mods))) h1))
              (map (zip_with Rmult (firstn D (skipn (5 * D) mods))) h2)).
Proof.
  intros g [Hhs [[tv Hattn] [Hqkv [Hproj [Hada Hmlp]]]]] Hdiv Hg Hx Hc Hids.
  destruct (linear_ok D (6 * D) _ (map silu c) Hada) as [mods [Hmods Hml]];
    [now rewrite length_map|].
  assert (Hxs : shape2 (length x) D x) by (split; [reflexivity | exact Hx]).
  (* attention branch *)
  destruct (norm_tokens_ok (length x) D x Hxs) as [Hn1 Hn1s].
  destruct (modulate_shape (length x) D (map layer_norm x)
              (firstn D (skipn (0 * D) mods)) (firstn D (skipn (1 * D) mods)) Hn1s)
    as [m1 [Hm1 Hm1s]]; try (apply piece_length; [exact Hml | lia]).
  destruct (Attention_forward_ok D heads n_patches tv (blk_attn b)
              (blk_attn_weights b) m1 ids_keep Hattn Hdiv Hg Hqkv Hproj)
    as [h1 [Hh1 Hh1s]].
  { apply Hm1s. }
  { destruct Hm1s as [Hm1l _]. fold g. rewrite Hm1l.
    destruct ids_keep as [k|]; exact Hids. }
  destruct Hm1s as [Hm1l Hm1w]. rewrite Hm1l in Hh1s.
  destruct (mat_op_gate (length x) D (firstn D (skipn (2 * D) mods)) h1)
    as [Hg1 Hg1s]; [apply piece_length; [exact Hml | lia] | exact Hh1s |].
  destruct (mat_op_shape Rplus (length x) D x _ Hxs Hg1s) as [Hx1 Hx1s].
  (* feed-forward branch *)
  destruct (norm_tokens_ok (length x) D _ Hx1s) as [Hn2 Hn2s].
  destruct (modulate_shape (length x) D _
              (firstn D (skipn (3 * D) mods)) (firstn D (skipn (4 * D) mods)) Hn2s)
    as [m2 [Hm2 Hm2s]]; try (apply piece_length; [exact Hml | lia]).
  destruct (Hmlp (length x) m2 Hm2s) as [h2 [Hh2 Hh2s]].
  destruct (mat_op_gate (length x) D (firstn D (skipn (5 * D) mods)) h2)
    as [Hg2 Hg2s]; [apply piece_length; [exact Hml | lia] | exact Hh2s |].
  destruct (mat_op_shape Rplus (length x) D _ _ Hx1s Hg2s) as [Hx2 Hx2s].
  exists mods, h1, h2.
  split; [exact Hmods|]. split; [exact Hml|]. split; [exact Hh1s|]. split; [exact Hh2s|].
  unfold MDTBlock_forward. rewrite Hmods. cbn [bind].
  rewrite (chunk_six D mods Hml). cbn [map].
  rewrite Hhs, Hn1. cbn [bind]. rewrite Hm1. cbn [bind]. rewrite Hh1. cbn [bind].
  rewrite Hg1. cbn [bind]. rewrite Hx1. cbn [bind].
  rewrite Hn2. cbn [bind]. rewrite Hm2. cbn [bind]. rewrite Hh2. cbn [bind].
  rewrite Hg2. cbn [bind]. exact Hx2.
Qed.

(** A block on well-shaped input returns a sequence of the same shape. *)
Lemma MDTBlock_forward_ok (D heads n_patches : nat) (b : MDTBlockLayers) :
  let g := Nat.sqrt n_patches in
  block_layers_ok D heads n_patches b ->
  D mod heads = 0 ->
  0 < g ->
  block_ok (g * g) D (MDTBlock_forward b).
Proof.
  intros g Hb Hdiv Hg x c ids Hx Hc Hids.
  destruct (MDTBlock_forward_residual D heads n_patches b x c ids Hb Hdiv Hg Hx Hc)
    as [mods [h1 [h2 [_ [Hml [Hh1 [Hh2 Hf]]]]]]].
  { destruct ids; exact Hids. }
  eexists. split; [exact Hf|].
  assert (Hxs : shape2 (length x) D x) by (split; [reflexivity | exact Hx]).
  destruct (mat_op_gate (length x) D (firstn D (skipn (2 * D) mods)) h1)
    as [_ Hg1s]; [apply piece_length; [exact Hml | lia] | exact Hh1 |].
  destruct (mat_op_gate (length x) D (firstn D (skipn (5 * D) mods)) h2)
    as [_ Hg2s]; [apply piece_length; [exact Hml | lia] | exact Hh2 |].
  destruct (mat_op_shape Rplus (length x) D x _ Hxs Hg1s) as [_ Hx1s].
  destruct (mat_op_shape Rplus (length x) D _ _ Hx1s Hg2s) as [_ Hx2s].
  exact Hx2s.
Qed.

(** X16: a block keeps the shape of the sequence.  Built for a width
    that its head count divides, on a non-empty grid, with any values
    in its weights, [MDTBlock.forward] maps every width-[D] sequence
    (all [L] positions without [ids_keep], or one in-range kept
    position per token) to a sequence of the same length and width. *)
Theorem MDTBlock_forward_keeps_shape (D heads n_patches : nat) (b : MDTBlockLayers) :
  let g := Nat.sqrt n_patches in
  block_layers_ok D heads n_patches b ->
  D mod heads = 0 ->
  0 < g ->
  block_ok (g * g) D (MDTBlock_forward b).
Proof.
  exact (MDTBlock_forward_ok D heads n_patches b).
Qed.

Lemma map_const_repeat {A B : Type} (f : A -> B) (c : B) (l : list A) :
  (forall a, In a l -> f a = c) -> map f l = repeat c (length l).
Proof.
  induction l as [|a l IH]; intros H; [reflexivity|].
  simpl. rewrite (H a (or_introl eq_refl)). f_equal.
  apply IH. intros a' Ha'. apply H. now right.
Qed.

Lemma linear_zero (n_in n_out : nat) (l : Linear) (x : list R) :
  linear_shape n_in n_out l -> length x = n_in ->
  linear (zero_out l) x = Some (repeat 0%R n_out).
Proof.
  intros [Hi [Hw Hb]] Hx. unfold linear, zero_out. cbn [in_features weight bias].
  destruct (Nat.eqb_spec (length x) (in_features l)) as [_|Hne]; [|congruence].
  f_equal. rewrite (map_const_repeat _ 0%R).
  - f_equal. rewrite length_combine, !length_map. lia.
  - intros [wr bv] Hin. cbn [fst snd].
    pose proof (in_combine_l _ _ _ _ Hin) as Hwr.
    pose proof (in_combine_r _ _ _ _ Hin) as Hbv.
    apply in_map_iff in Hwr. destruct Hwr as [r [Hr _]].
    apply in_map_iff in Hbv. destruct Hbv as [r' [Hr' _]].
    rewrite dot_zero; [lra|]. subst wr. apply Forall_map, Forall_forall. reflexivity.
Qed.

Lemma gate_zero (T D : nat) (h : tokens) :
  shape2 T D h -> map (zip_with Rmult (repeat 0%R D)) h = repeat (repeat 0%R D) T.
Proof.
  intros [Hl Hw]. subst T. induction h as [|tok h IH]; [reflexivity|].
  inversion Hw as [|? ? Ht Hw']; subst. simpl. rewrite (IH Hw'). f_equal.
  clear. induction tok as [|v tok IH]; [reflexivity|].
  simpl. unfold zip_with in *. simpl. rewrite IH. f_equal. ring.
Qed.

Lemma add_zero_tokens (T D : nat) (x : tokens) :
  shape2 T D x -> zip_with (zip_with Rplus) x (repeat (repeat 0%R D) T) = x.
Proof.
  intros [Hl Hw]. subst T. induction x as [|tok x IH]; [reflexivity|].
  inversion Hw as [|? ? Ht Hw']; subst. unfold zip_with in *. simpl.
  rewrite (IH Hw'). f_equal.
  clear. induction tok as [|v tok IH]; [reflexivity|].
  simpl. rewrite IH. f_equal. ring.
Qed.

Lemma zero_piece (D i : nat) :
  i < 6 -> firstn D (skipn (i * D) (repeat 0%R (6 * D))) = repeat 0%R D.
Proof.
  intros Hi.
  pose proof (piece_length D i (repeat 0%R (6 * D)) (repeat_length _ _) Hi) as Hl.
  set (p := firstn D (skipn (i * D) (repeat 0%R (6 * D)))) in *.
  rewrite <- Hl. apply Forall_eq_repeat, Forall_forall. intros v Hv.
  unfold p in Hv. apply In_firstn, In_skipn in Hv.
  symmetry. exact (repeat_spec _ _ _ Hv).
Qed.

Lemma zero_adaLN_ok (D heads n_patches : nat) (b : MDTBlockLayers) :
  block_layers_ok D heads n_patches b -> block_layers_ok D heads n_patches (zero_adaLN b).
Proof.
  intros [Hhs [Hattn [Hqkv [Hproj [[Hi [Hw Hbi]] Hmlp]]]]].
  split; [exact Hhs|]. split; [exact Hattn|]. split; [exact Hqkv|].
  split; [exact Hproj|]. split; [|exact Hmlp].
  unfold linear_shape, zero_adaLN, zero_out.
  cbn [blk_adaLN_modulation in_features weight bias].
  rewrite !length_map. repeat split; assumption.
Qed.

(** X15: adaLN-Zero.  After [initialize_weights] has zeroed the
    modulation layer of a block, the block is the identity on every
    well-shaped input: both gates are zero, so neither the attention
    branch nor the feed-forward branch contributes, whatever their
    weights. *)
Theorem MDTBlock_zero_adaLN_identity (D heads n_patches : nat) (b : MDTBlockLayers)
    (x : tokens) (c : list R) (ids_keep : option (list nat)) :
  let g := Nat.sqrt n_patches in
  block_layers_ok D heads n_patches b ->
  D mod heads = 0 ->
  0 < g ->
  Forall (fun tok => length tok = D) x ->
  length c = D ->
  match ids_keep with
  | None => length x = g * g
  | Some k => length k = length x /\ Forall (fun i => i < g * g) k
  end ->
  MDTBlock_forward (zero_adaLN b) x c ids_keep = Some x.
Proof.
  intros g Hb Hdiv Hg Hx Hc Hids.
  destruct (MDTBlock_forward_residual D heads n_patches (zero_adaLN b) x c ids_keep
              (zero_adaLN_ok D heads n_patches b Hb) Hdiv Hg Hx Hc Hids)
    as [mods [h1 [h2 [Hmods [Hml [Hh1 [Hh2 Hf]]]]]]].
  destruct Hb as [_ [_ [_ [_ [Hada _]]]]].
  cbn [zero_adaLN blk_adaLN_modulation] in Hmods.
  rewrite (linear_zero D (6 * D) _ (map silu c) Hada) in Hmods
    by now rewrite length_map.
  assert (Hm : mods = repeat 0%R (6 * D)) by congruence.
  rewrite Hm in Hf.
  rewrite !zero_piece in Hf by lia.
  rewrite (gate_zero (length x) D h1 Hh1), (gate_zero (length x) D h2 Hh2) in Hf.
  assert (Hxs : shape2 (length x) D x) by (split; [reflexivity | exact Hx]).
  now rewrite !(add_zero_tokens (length x) D x Hxs) in Hf.
Qed.

Lemma small_block_ok : block_layers_ok 4 2 4 small_block.
Proof.
  split; [reflexivity|]. split; [exists (fun _ _ => 0%R); reflexivity|].
  split; [repeat split|]. split; [repeat split|]. split; [repeat split|].
  intros T h Hh. exists h. split; [reflexivity | exact Hh].
Qed.

(** X16, instance: [small_block] on its [2 x 2] grid. *)
Lemma MDTBlock_forward_keeps_shape_witness :
  block_ok (2 * 2) 4 (MDTBlock_forward small_block).
Proof.
  apply (MDTBlock_forward_keeps_shape 4 2 4 small_block).
  - exact small_block_ok.
  - reflexivity.
  - vm_compute. lia.
Defined.

(** X15, instance: [small_block] with its modulation zeroed, on four
    tokens and on one kept token. *)
Lemma MDTBlock_zero_adaLN_identity_witness :
  MDTBlock_forward (zero_adaLN small_block) [row4 1; row4 2; row4 3; row4 4] (row4 5) None
  = Some [row4 1; row4 2; row4 3; row4 4].
Proof.
  apply (MDTBlock_zero_adaLN_identity 4 2 4 small_block
           [row4 1; row4 2; row4 3; row4 4] (row4 5) None).
  - exact small_block_ok.
  - reflexivity.
  - vm_compute. lia.
  - repeat constructor.
  - reflexivity.
  - reflexivity.
Defined.

(** ** Unpatchify *)

Lemma unpatchify_square (m : MDT) (x : tokens) (h : nat) :
  length x = h * h ->
  Forall (fun tok => length tok = patch_size m * patch_size m * out_channels m) x ->
  unpatchify m x =
    Some (map (fun ch =>
            map (fun row =>
              map (fun col =>
                nth ((row mod patch_size m * patch_size m + col mod patch_size m)
                       * out_channels m + ch)
                    (nth (row / patch_size m * h + col / patch_size m) x []) 0%R)
                (seq 0 (h * patch_size m)))
              (seq 0 (h * patch_size m)))
            (seq 0 (out_channels m))).
Proof.
  intros Hl Hw. unfold unpatchify. rewrite Hl, Nat.sqrt_square, Nat.eqb_refl.
  cbn [negb].
  assert (Hall : forallb (fun tok : list R =>
                   length tok =? patch_size m * patch_size m * out_channels m) x = true).
  { apply forallb_forall. intros tok Ht. apply Nat.eqb_eq.
    rewrite Forall_forall in Hw. now apply Hw. }
  rewrite Hall. reflexivity.
Qed.

Lemma unpatchify_shape (m : MDT) (x : tokens) (h : nat) (imgs : image) :
  length x = h * h ->
  Forall (fun tok => length tok = patch_size m * patch_size m * out_channels m) x ->
  unpatchify m x = Some imgs ->
  shape3 (out_channels m) (h * patch_size m) (h * patch_size m) imgs.
Proof.
  intros Hl Hw Hu. rewrite (unpatchify_square m x h Hl Hw) in Hu.
  inversion Hu as [Hi]. split.
  - now rewrite length_map, length_seq.
  - apply Forall_map, Forall_forall. intros ch _. split.
    + now rewrite length_map, length_seq.
    + apply Forall_map, Forall_forall. intros row _.
      now rewrite length_map, length_seq.
Qed.

(** X17: [unpatchify] lays the patches out on the pixel grid.  For
    [h * h] tokens of width [p * p * C] the result has shape
    [[C, h * p, h * p]], and pixel [(a, b)] of the patch at grid row [i],
    grid column [j] in channel [c] is feature [(a * p + b) * C + c] of
    token [i * h + j]. *)
Theorem unpatchify_pixels (m : MDT) (x : tokens) (h : nat) :
  let p := patch_size m in
  let C := out_channels m in
  length x = h * h ->
  Forall (fun tok => length tok = p * p * C) x ->
  exists imgs,
    unpatchify m x = Some imgs /\
    shape3 C (h * p) (h * p) imgs /\
    forall c i j a b,
      c < C -> i < h -> j < h -> a < p -> b < p ->
      nth (j * p + b) (nth (i * p + a) (nth c imgs []) []) 0%R
      = nth ((a * p + b) * C + c) (nth (i * h + j) x []) 0%R.
Proof.
  intros p C Hl Hw.
  pose proof (unpatchify_square m x h Hl Hw) as Hu.
  eexists. split; [exact Hu|]. split.
  { apply (unpatchify_shape m x h _ Hl Hw Hu). }
  intros c i j a b Hc Hi Hj Ha Hb. fold p C.
  assert (Hrow : i * p + a < h * p) by nia.
  assert (Hcol : j * p + b < h * p) by nia.
  rewrite (nth_map_lt _ _ _ 0) by (rewrite length_seq; exact Hc).
  rewrite (nth_map_lt _ _ _ 0) by (rewrite length_seq; exact Hrow).
  rewrite (nth_map_lt _ _ _ 0) by (rewrite length_seq; exact Hcol).
  rewrite !seq_nth by assumption. cbn [Nat.add].
  assert (Hdm : forall q r, r < p -> (q * p + r) / p = q /\ (q * p + r) mod p = r).
  { intros q r Hr. split.
    - rewrite Nat.div_add_l by lia. rewrite Nat.div_small by exact Hr. lia.
    - rewrite Nat.add_comm, Nat.Div0.mod_add. now apply Nat.mod_small. }
  destruct (Hdm i a Ha) as [E1 E2]. destruct (Hdm j b Hb) as [E3 E4].
  now rewrite E1, E2, E3, E4.
Qed.

(** X17, instance: four tokens of one [1 x 1] patch and one channel. *)
Lemma unpatchify_pixels_witness :
  exists imgs,
    unpatchify splice_model [[1%R]; [2%R]; [3%R]; [4%R]] = Some imgs /\
    shape3 1 (2 * 1) (2 * 1) imgs /\
    forall c i j a b,
      c < 1 -> i < 2 -> j < 2 -> a < 1 -> b < 1 ->
      nth (j * 1 + b) (nth (i * 1 + a) (nth c imgs []) []) 0%R
      = nth ((a * 1 + b) * 1 + c) (nth (i * 2 + j) [[1%R]; [2%R]; [3%R]; [4%R]] []) 0%R.
Proof.
  apply (unpatchify_pixels splice_model [[1%R]; [2%R]; [3%R]; [4%R]] 2).
  - reflexivity.
  - repeat constructor.
Defined.

(** X18: [unpatchify] raises exactly when the number of tokens is not a
    perfect square (the assertion) or some token does not have
    [p * p * C] features (the reshape). *)
Theorem unpatchify_raises_iff (m : MDT) (x : tokens) :
  unpatchify m x = None <->
  (forall h, h * h <> length x) \/
  Exists (fun tok => length tok <> patch_size m * patch_size m * out_channels m) x.
Proof.
  unfold unpatchify.
  destruct (Nat.eqb_spec (Nat.sqrt (length x) * Nat.sqrt (length x)) (length x))
    as [Hsq|Hsq]; cbn [negb].
  - destruct (forallb (fun tok => length tok =? patch_size m * patch_size m * out_channels m)
                      x) eqn:Hall; cbn [negb].
    + split; [discriminate|].
      intros [Hno|Hex]; [now specialize (Hno _ Hsq)|].
      apply Exists_exists in Hex. destruct Hex as [tok [Hin Hne]].
      rewrite forallb_forall in Hall. specialize (Hall tok Hin).
      apply Nat.eqb_eq in Hall. contradiction.
    + split; [|reflexivity]. intros _. right.
      apply Exists_exists.
      assert (Hn : ~ forall tok, In tok x ->
                     (length tok =? patch_size m * patch_size m * out_channels m) = true).
      { intros H. apply forallb_forall in H. congruence. }
      clear Hall Hsq. induction x as [|tok x IH].
      * exfalso. apply Hn. intros tok [].
      * destruct (Nat.eqb_spec (length tok)
                    (patch_size m * patch_size m * out_channels m)) as [E|E].
        -- destruct IH as [tok' [Hin' Hne']].
           ++ intros H. apply Hn. intros tok' [E'|Hin'].
              ** subst tok'. now apply Nat.eqb_eq.
              ** now apply H.
           ++ exists tok'. split; [now right | exact Hne'].
        -- exists tok. split; [now left | exact E].
  - split; [|reflexivity]. intros _. left. intros h Hh.
    apply Hsq. rewrite <- Hh. now rewrite Nat.sqrt_square.
Qed.

(** ** The forward pass in general *)

Lemma fold_left_ext_in {A B : Type} (f g : A -> B -> A) (l : list B) (init : A) :
  (forall acc b, In b l -> f acc b = g acc b) ->
  fold_left f l init = fold_left g l init.
Proof.
  revert init. induction l as [|b l IH]; intros init H; [reflexivity|].
  simpl. rewrite (H init b (or_introl eq_refl)).
  apply IH. intros acc b' Hb'. apply H. now right.
Qed.

Lemma in_enumerate_lt {A : Type} (l : list A) (i : nat) (a : A) :
  In (i, a) (enumerate l) -> i < length l.
Proof.
  intros H. apply in_enumerate in H. apply nth_error_Some. congruence.
Qed.

(** X20: with [decode_layer] outside [1 .. depth] the splice index
    [depth - decode_layer] is never met by the block loop, so [forward]
    never reads the decoder position embedding, the side blocks or the
    mask token: replacing all three leaves every result (and every
    failure) unchanged, with and without masking. *)
Theorem forward_without_splice (m : MDT) (dpe : tokens) (sb : list MDTBlock)
    (mt : list R) (rng : Rng) (x : list image) (t : list R) (y : list Z)
    (enable_mask : bool) :
  (decode_layer m <= 0 \/ Z.of_nat (length (blocks m)) < decode_layer m)%Z ->
  forward (with_decoder m dpe sb mt) rng x t y enable_mask
  = forward m rng x t y enable_mask.
Proof.
  intros Hdl.
  assert (Hrun : forall masking xs c mask ir ik,
            run_blocks (with_decoder m dpe sb mt) masking xs c mask ir ik
            = run_blocks m masking xs c mask ir ik).
  { intros masking xs c mask ir ik. unfold run_blocks.
    cbn [with_decoder blocks]. f_equal.
    apply fold_left_ext_in. intros st [i b] Hin.
    apply in_enumerate_lt in Hin.
    unfold block_step. cbn [with_decoder blocks decode_layer fst snd].
    destruct (Z.eqb_spec (Z.of_nat i) (Z.of_nat (length (blocks m)) - decode_layer m))
      as [E|_]; [lia | reflexivity]. }
  unfold forward.
  cbn [with_decoder x_embedder pos_embed t_embedder y_embedder training mask_ratio
       final_layer].
  destruct (sequence (map _ x)) as [xs|]; [|reflexivity]. cbn [bind].
  destruct (sequence (map (t_embedder m) t)) as [ts|]; [|reflexivity]. cbn [bind].
  destruct (LabelEmbedder_forward _ _ _ _ _) as [ys|]; [|reflexivity]. cbn [bind].
  destruct (mat_op Rplus ts ys) as [c|]; [|reflexivity]. cbn [bind].
  destruct (match mask_ratio m with
            | Some r => if enable_mask then random_masking (noise_draw rng) xs r
                        else Some (map (fun x0 => (x0, [], [], [])) xs)
            | None => Some (map (fun x0 => (x0, [], [], [])) xs)
            end) as [samples|]; [|reflexivity]. cbn [bind].
  destruct (broadcast2 _ samples c) as [paired|]; [|reflexivity]. cbn [bind].
  f_equal. f_equal. apply map_ext. intros [[[[xs0 mask] ir] ik] c0].
  rewrite Hrun. reflexivity.
Qed.

(** X20, instance: [nosplice_model] with other decoder parameters. *)
Lemma forward_without_splice_witness :
  forward (with_decoder nosplice_model [row4 9] [] [1%R])
          small_rng [small_image] [0%R] [0%Z] true
  = forward nosplice_model small_rng [small_image] [0%R] [0%Z] true.
Proof.
  apply (forward_without_splice nosplice_model [row4 9] [] [1%R]
           small_rng [small_image] [0%R] [0%Z] true).
  right. simpl. lia.
Defined.

Lemma chunk2_even (D : nat) (v : list R) :
  length v = 2 * D ->
  exists shift scale,
    chunk2 v = Some (shift, scale) /\ length shift = D /\ length scale = D.
Proof.
  intros Hv. unfold chunk2. rewrite Hv.
  destruct (Nat.eqb_spec (2 * D) 1); [lia|].
  assert (Hs : (2 * D + 1) / 2 = D).
  { replace (2 * D + 1) with (1 + D * 2) by lia. rewrite Nat.div_add by lia. reflexivity. }
  rewrite Hs. eexists. eexists. split; [reflexivity|].
  rewrite length_firstn, length_skipn, Hv. lia.
Qed.

(** The final layer on well-shaped input, with any weights. *)
Lemma FinalLayer_forward_shape (fl : FinalLayer) (T D n_out : nat) (x : tokens)
    (c : list R) :
  linear_shape D (2 * D) (fl_adaLN_modulation fl) ->
  linear_shape D n_out (fl_linear fl) ->
  shape2 T D x -> length c = D ->
  exists out, FinalLayer_forward fl x c = Some out /\ shape2 T n_out out.
Proof.
  intros Hada Hlin Hx Hc. unfold FinalLayer_forward.
  destruct (linear_ok D (2 * D) _ (map silu c) Hada) as [mods [Hmods Hml]];
    [now rewrite length_map|].
  rewrite Hmods. cbn [bind].
  destruct (chunk2_even D mods Hml) as [shift [scale [Hch [Hsh Hsc]]]].
  rewrite Hch. cbn [bind].
  destruct (modulate_shape T D (map layer_norm x) shift scale) as [xm [Hxm [Hxl Hxw]]];
    try assumption.
  { destruct Hx as [Hl Hw]. split; [now rewrite length_map|].
    apply Forall_map. eapply Forall_impl; [|exact Hw].
    intros tok Ht. cbv beta. now rewrite layer_norm_length. }
  rewrite Hxm. cbn [bind].
  destruct (sequence_Forall_exists (linear (fl_linear fl)) (fun r => length r = n_out) xm)
    as [out [Ho [Hol How]]].
  { eapply Forall_impl; [|exact Hxw]. intros tok Ht.
    apply (linear_ok D n_out _ tok Hlin Ht). }
  exists out. split; [exact Ho|]. split; [congruence | exact How].
Qed.

(** The label embedder of the constructor on valid labels, in either
    mode. *)
Lemma LabelEmbedder_forward_valid (nc D : nat) (p : Q) (tv : nat -> nat -> R)
    (draw : nat -> Q) (labels : list Z) (train : bool) :
  Forall (fun l => (0 <= l < Z.of_nat nc)%Z) labels ->
  exists ys,
    LabelEmbedder_forward (LabelEmbedder_init nc D p tv) draw labels train None = Some ys /\
    shape2 (length labels) D ys.
Proof.
  intros Hl. destruct train; [now apply LabelEmbedder_forward_ok|].
  unfold LabelEmbedder_forward, LabelEmbedder_labels, LabelEmbedder_init.
  cbn [dropout_prob embedding_table num_classes andb orb bind].
  apply embedding_rows.
  - apply Forall_map, Forall_forall. intros r _. now rewrite length_map, length_seq.
  - rewrite length_map, length_seq.
    eapply Forall_impl; [|exact Hl]. intros l Hr. cbv beta in *. lia.
Qed.

(** Embedding and conditioning in [forward]: what enters the masking
    and the block loop. *)
Lemma forward_prefix (m : MDT) (rng : Rng) (L D nc : nat) (p : Q)
    (tv : nat -> nat -> R) (x : list image) (t : list R) (y : list Z)
    (enable_mask : bool) :
  shape2 L D (pos_embed m) ->
  y_embedder m = LabelEmbedder_init nc D p tv ->
  Forall (fun img => exists e, x_embedder m img = Some e /\ shape2 L D e) x ->
  Forall (fun ti => exists v, t_embedder m ti = Some v /\ length v = D) t ->
  length t = length x ->
  length y = length x ->
  Forall (fun l => (0 <= l < Z.of_nat nc)%Z) y ->
  exists (xe : list tokens) (cs : tokens),
    length xe = length x /\ Forall (shape2 L D) xe /\
    length cs = length x /\ Forall (fun c => length c = D) cs /\
    forward m rng x t y enable_mask =
      (let masking := match mask_ratio m with Some _ => enable_mask | None => false end in
       samples <- match mask_ratio m with
                  | Some r =>
                      if enable_mask then random_masking (noise_draw rng) xe r
                      else Some (map (fun x0 => (x0, [], [], [])) xe)
                  | None => Some (map (fun x0 => (x0, [], [], [])) xe)
                  end ;;
       paired <- broadcast2 (fun s c => (s, c)) samples cs ;;
       x0 <- sequence (map (fun sc =>
               match sc with
               | ((xs, mask, ids_restore, ids_keep), c) =>
                   x1 <- run_blocks m masking xs c mask ids_restore ids_keep ;;
                   x1 <- FinalLayer_forward (final_layer m) x1 c ;;
                   unpatchify m x1
               end) paired) ;;
       Some x0).
Proof.
  intros Hpe Hye Hx Ht Htl Hyl Hy.
  unfold forward. rewrite Hye.
  destruct (sequence_Forall_exists
              (fun img => e <- x_embedder m img ;; mat_op Rplus e (pos_embed m))
              (shape2 L D) x) as [xe [Hxe [Hxel Hxes]]].
  { eapply Forall_impl; [|exact Hx]. intros img [e [He Hs]].
    destruct (mat_op_shape Rplus L D e (pos_embed m) Hs Hpe) as [Hop Hsh].
    rewrite He. cbn [bind]. eauto. }
  rewrite Hxe. cbn [bind].
  destruct (sequence_Forall_exists (t_embedder m) (fun v => length v = D) t Ht)
    as [ts [Hts [Htsl Htsw]]].
  rewrite Hts. cbn [bind].
  destruct (LabelEmbedder_forward_valid nc D p tv (label_draw rng) y (training m) Hy)
    as [ys [Hys [Hysl Hysw]]].
  rewrite Hys. cbn [bind].
  destruct (mat_op_shape Rplus (length x) D ts ys) as [Hc [Hcl Hcw]].
  { split; [congruence | exact Htsw]. }
  { split; [congruence | exact Hysw]. }
  rewrite Hc. cbn [bind].
  exists xe, (zip_with (zip_with Rplus) ts ys).
  repeat split; assumption.
Qed.

(** One sample through the block loop and the final layer. *)
Lemma sample_tokens_shape (m : MDT) (L D K : nat) (masking : bool)
    (xs : tokens) (c mask : list R) (ir ik : list nat) :
  Forall (block_ok L D) (blocks m) ->
  Forall (block_ok L D) (sideblocks m) ->
  shape2 L D (decoder_pos_embed m) ->
  length (mask_token m) = D ->
  linear_shape D (2 * D) (fl_adaLN_modulation (final_layer m)) ->
  linear_shape D (patch_size m * patch_size m * out_channels m)
               (fl_linear (final_layer m)) ->
  length c = D ->
  (masking = true ->
   K <= L /\ length ik = K /\ Forall (fun i => i < L) ik /\
   Permutation ir (seq 0 L) /\ length mask = L) ->
  shape2 (if masking then K else L) D xs ->
  exists x1 x2,
    run_blocks m masking xs c mask ir ik = Some x1 /\
    FinalLayer_forward (final_layer m) x1 c = Some x2 /\
    shape2 (if spliced_before m (length (blocks m)) then L
            else if masking then K else L)
           (patch_size m * patch_size m * out_channels m) x2.
Proof.
  intros Hb Hsb Hdpe Hmt Hada Hlin Hc Hmask Hxs.
  destruct (run_blocks_shape m L D K masking c mask ir ik Hb Hsb Hdpe Hmt Hc Hmask
              xs Hxs) as [x1 [Hrun Hx1]].
  destruct (FinalLayer_forward_shape (final_layer m) _ D _ x1 c Hada Hlin Hx1 Hc)
    as [x2 [Hfl Hx2]].
  exists x1, x2. repeat split; try assumption; apply Hx2.
Qed.

(** On an empty batch the sequence length read off the batch is zero;
    [int(0 * (1 - mask_ratio))] is defined whenever
    [int(L * (1 - mask_ratio))] is. *)
Lemma len_keep_of_empty (L : nat) (r : float64) (lk : Z) :
  len_keep_of L r = Some lk -> len_keep_of 0 r = Some 0%Z.
Proof.
  unfold len_keep_of.
  change (float_of_int (Z.of_nat 0)) with (S754_zero false).
  destruct (float_sub (float_of_int 1) r) as [s|s| |s m e]; intros H.
  - reflexivity.
  - destruct (float_of_int (Z.of_nat L)); discriminate H.
  - destruct (float_of_int (Z.of_nat L)); discriminate H.
  - reflexivity.
Qed.

(** The samples that [random_masking] hands to the block loop. *)
Lemma masked_samples_ok (rand : nat -> nat -> Q) (L D : nat) (r : float64) (lk : Z)
    (xe : list tokens) :
  len_keep_of L r = Some lk ->
  Forall (shape2 L D) xe ->
  exists samples,
    random_masking rand xe r = Some samples /\
    length samples = length xe /\
    Forall (fun s =>
      match s with
      | (xs, mask, ir, ik) =>
          (true = true ->
           slice_stop lk L <= L /\
           length ik = slice_stop lk L /\
           Forall (fun i => i < L) ik /\
           Permutation ir (seq 0 L) /\ length mask = L) /\
          shape2 (slice_stop lk L) D xs
      end) samples.
Proof.
  intros Hlk Hxes.
  destruct (hd_length_all L xe) as [Hhd Hcase].
  { eapply Forall_impl; [|exact Hxes]. now intros s [Hs _]. }
  destruct Hcase as [Hnil|HL'].
  - subst xe. exists []. unfold random_masking. cbn [hd length].
    rewrite (len_keep_of_empty L r lk Hlk). repeat split. constructor.
  - rewrite <- HL' in Hlk.
    eexists. split; [apply (random_masking_eq rand xe r lk Hlk Hhd)|].
    split; [now rewrite length_map, enumerate_length|].
    rewrite HL'. apply Forall_map, Forall_forall. intros [n xs] Hin.
    cbn [fst snd].
    apply in_enumerate, nth_error_In in Hin.
    rewrite Forall_forall in Hxes. specialize (Hxes xs Hin).
    destruct (ids_keep_facts rand n L lk) as [Hikl Hikb].
    split.
    + intros _. split; [apply slice_stop_le|]. split; [exact Hikl|].
      split; [exact Hikb|]. split; [apply ids_restore_perm|].
      now rewrite length_map, ids_restore_length.
    + now apply masked_tokens_shape.
Qed.

(** X19: the output shape of [forward] for any weights.  For a model
    with [L = q * q] grid positions and width [D] whose blocks keep
    shapes, whose embeddings and final layer have the constructed
    shapes and whose label embedder is the constructed one, [forward]
    on valid labels returns one image of shape
    [[out_channels, q * p, q * p]] per sample, without masking, and with
    masking whenever [1 <= decode_layer <= depth].  The one input that
    masking refuses is a ratio for which [int(L * (1 - mask_ratio))] is
    not defined (the product is infinite or a NaN): then [forward]
    raises on every non-empty batch. *)
Theorem forward_output_shape (m : MDT) (rng : Rng) (L D q nc : nat) (p : Q)
    (tv : nat -> nat -> R) (x : list image) (t : list R) (y : list Z)
    (enable_mask : bool) :
  L = q * q ->
  Forall (block_ok L D) (blocks m) ->
  Forall (block_ok L D) (sideblocks m) ->
  shape2 L D (pos_embed m) ->
  shape2 L D (decoder_pos_embed m) ->
  length (mask_token m) = D ->
  linear_shape D (2 * D) (fl_adaLN_modulation (final_layer m)) ->
  linear_shape D (patch_size m * patch_size m * out_channels m)
               (fl_linear (final_layer m)) ->
  y_embedder m = LabelEmbedder_init nc D p tv ->
  Forall (fun img => exists e, x_embedder m img = Some e /\ shape2 L D e) x ->
  Forall (fun ti => exists v, t_embedder m ti = Some v /\ length v = D) t ->
  length t = length x ->
  length y = length x ->
  Forall (fun l => (0 <= l < Z.of_nat nc)%Z) y ->
  (enable_mask = false \/ mask_ratio m = None \/
   (1 <= decode_layer m <= Z.of_nat (length (blocks m)))%Z) ->
  (forall r, enable_mask = true -> mask_ratio m = Some r ->
     len_keep_of L r = None -> x <> [] ->
     forward m rng x t y enable_mask = None) /\
  ((forall r, enable_mask = true -> mask_ratio m = Some r ->
      exists len_keep, len_keep_of L r = Some len_keep) ->
   exists out,
     forward m rng x t y enable_mask = Some out /\
     length out = length x /\
     Forall (shape3 (out_channels m) (q * patch_size m) (q * patch_size m)) out).
Proof.
  intros HL Hb Hsb Hpe Hdpe Hmt Hada Hlin Hye Hx Ht Htl Hyl Hy Hmode.
  destruct (forward_prefix m rng L D nc p tv x t y enable_mask Hpe Hye Hx Ht Htl Hyl Hy)
    as [xe [cs [Hxel [Hxes [Hcl [Hcw Hfw]]]]]].
  rewrite Hfw. cbv zeta. clear Hfw.
  split.
  { intros r He Hmr Hnone Hne. rewrite Hmr, He.
    destruct (hd_length_all L xe) as [_ [Hnil|HL']].
    - eapply Forall_impl; [|exact Hxes]. now intros s [Hs _].
    - subst xe. destruct x; [now elim Hne | discriminate Hxel].
    - unfold random_masking. rewrite HL', Hnone. reflexivity. }
  intros Hint.
  rewrite Forall_forall in Hcw.
  assert (Hfin : forall (samples : list (tokens * list R * list nat * list nat))
                        (masking : bool) (K : nat),
            length samples = length x ->
            (masking = false \/ spliced_before m (length (blocks m)) = true) ->
            Forall (fun s =>
              match s with
              | (xs, mask, ir, ik) =>
                  (masking = true ->
                   K <= L /\ length ik = K /\ Forall (fun i => i < L) ik /\
                   Permutation ir (seq 0 L) /\ length mask = L) /\
                  shape2 (if masking then K else L) D xs
              end) samples ->
            exists out,
              (paired <- broadcast2 (fun s c => (s, c)) samples cs ;;
               x0 <- sequence (map (fun sc =>
                       match sc with
                       | ((xs, mask, ids_restore, ids_keep), c) =>
                           x1 <- run_blocks m masking xs c mask ids_restore ids_keep ;;
                           x1 <- FinalLayer_forward (final_layer m) x1 c ;;
                           unpatchify m x1
                       end) paired) ;;
               Some x0) = Some out /\
              length out = length x /\
              Forall (shape3 (out_channels m) (q * patch_size m) (q * patch_size m)) out).
  { intros samples masking K Hsl Hspl Hs.
    rewrite broadcast2_same by congruence. cbn [bind].
    destruct (sequence_Forall_exists
                (fun sc : tokens * list R * list nat * list nat * list R =>
                   match sc with
                   | ((xs, mask, ids_restore, ids_keep), c) =>
                       x1 <- run_blocks m masking xs c mask ids_restore ids_keep ;;
                       x1 <- FinalLayer_forward (final_layer m) x1 c ;;
                       unpatchify m x1
                   end)
                (shape3 (out_channels m) (q * patch_size m) (q * patch_size m))
                (zip_with (fun s c => (s, c)) samples cs)) as [out [Ho [Hol Hos]]].
    - rewrite Forall_forall in Hs.
      apply Forall_zip_with. intros [[[xs mask] ir] ik] c Hin.
      destruct (Hs _ (in_combine_l _ _ _ _ Hin)) as [Hmask Hxs].
      pose proof (Hcw _ (in_combine_r _ _ _ _ Hin)) as Hcwid.
      destruct (sample_tokens_shape m L D K masking xs c mask ir ik Hb Hsb Hdpe Hmt
                  Hada Hlin Hcwid Hmask Hxs) as [x1 [x2 [Hrun [Hfl Hx2]]]].
      rewrite Hrun. cbn [bind]. rewrite Hfl. cbn [bind].
      assert (Hx2L : shape2 (q * q) (patch_size m * patch_size m * out_channels m) x2).
      { rewrite <- HL.
        destruct Hspl as [Hm|Hs']; [subst masking|rewrite Hs' in Hx2]; [|exact Hx2].
        now destruct (spliced_before m (length (blocks m))). }
      destruct Hx2L as [Hx2l Hx2w].
      pose proof (unpatchify_square m x2 q Hx2l Hx2w) as Hu.
      eexists. split; [exact Hu|].
      apply (unpatchify_shape m x2 q _ Hx2l Hx2w Hu).
    - exists out. rewrite Ho. cbn [bind]. split; [reflexivity|]. split; [|exact Hos].
      rewrite Hol, zip_with_length by (unfold tokens in *; congruence).
      exact Hsl. }
  assert (Hplain : Forall (fun s : tokens * list R * list nat * list nat =>
            match s with
            | (xs, mask, ir, ik) =>
                (false = true ->
                 0 <= L /\ length ik = 0 /\ Forall (fun i => i < L) ik /\
                 Permutation ir (seq 0 L) /\ length mask = L) /\
                shape2 L D xs
            end) (map (fun x0 : tokens => (x0, @nil R, @nil nat, @nil nat)) xe)).
  { apply Forall_map. eapply Forall_impl; [|exact Hxes].
    intros xs Hxs. split; [discriminate | exact Hxs]. }
  destruct (mask_ratio m) as [r|] eqn:Hmr.
  - destruct enable_mask.
    + destruct Hmode as [Hm|[Hm|Hdl]]; try discriminate.
      destruct (Hint r eq_refl eq_refl) as [lk Hlk].
      destruct (masked_samples_ok (noise_draw rng) L D r lk xe Hlk Hxes)
        as [samples [Hrm [Hsl Hss]]].
      rewrite Hrm. cbn [bind].
      apply (Hfin _ true (slice_stop lk L)).
      * transitivity (length xe); [exact Hsl | exact Hxel].
      * right. unfold spliced_before, splice_index.
        destruct (Z.leb_spec 0 (Z.of_nat (length (blocks m)) - decode_layer m)); [|lia].
        destruct (Z.ltb_spec (Z.of_nat (length (blocks m)) - decode_layer m)
                             (Z.of_nat (length (blocks m)))); [reflexivity | lia].
      * exact Hss.
    + cbn [bind].
      apply (Hfin _ false 0); [rewrite length_map; exact Hxel | now left | exact Hplain].
  - cbn [bind].
    apply (Hfin _ false 0); [rewrite length_map; exact Hxel | now left | exact Hplain].
Qed.

Lemma shift_block_ok (L D : nat) (k : R) :
  block_ok L D (fun x _ _ => Some (map (map (fun v => (v + k)%R)) x)).
Proof.
  intros x c ids Hw _ _. eexists. split; [reflexivity|].
  split; [now rewrite length_map|].
  apply Forall_map. eapply Forall_impl; [|exact Hw].
  intros tok Ht. cbv beta. now rewrite length_map.
Qed.

(** X19, instance: [splice_model] with masking on one image. *)
Lemma forward_output_shape_witness :
  exists out,
    forward splice_model small_rng [small_image] [0%R] [0%Z] true = Some out /\
    length out = length [small_image] /\
    Forall (shape3 (out_channels splice_model) (2 * patch_size splice_model)
                   (2 * patch_size splice_model)) out.
Proof.
  refine (proj2 (forward_output_shape splice_model small_rng 4 4 2 1 (1 # 10)
                   (fun _ _ => 0%R) [small_image] [0%R] [0%Z] true
                   _ _ _ _ _ _ _ _ _ _ _ _ _ _ _) _).
  - reflexivity.
  - repeat constructor. apply identity_block_ok.
  - repeat constructor. apply (shift_block_ok 4 4 100).
  - split; [reflexivity | repeat constructor].
  - split; [reflexivity | repeat constructor].
  - reflexivity.
  - repeat split.
  - repeat split.
  - reflexivity.
  - repeat constructor. eexists. split; [reflexivity|].
    split; [reflexivity | repeat constructor].
  - repeat constructor. eexists. split; reflexivity.
  - reflexivity.
  - reflexivity.
  - repeat constructor; lia.
  - right. right. simpl. lia.
  - intros r _ Hr. exists 1%Z. inversion Hr. vm_compute. reflexivity.
Defined.

Lemma unpatchify_not_square (m : MDT) (x : tokens) :
  (forall h, h * h <> length x) -> unpatchify m x = None.
Proof.
  intros Hno. unfold unpatchify.
  destruct (Nat.eqb_spec (Nat.sqrt (length x) * Nat.sqrt (length x)) (length x))
    as [Hsq|Hsq]; [now specialize (Hno _ Hsq) | reflexivity].
Qed.

(** X29: masking without a splice.  When masking is active and
    [decode_layer] lies outside [1 .. depth], the mask tokens are never
    put back, the kept tokens alone reach [unpatchify], and its
    assertion fails whenever their number, fixed by
    [len_keep = int(L * (1 - mask_ratio))], is not a perfect square:
    [forward] raises on every non-empty batch. *)
Theorem forward_masked_without_splice_raises (m : MDT) (rng : Rng) (L D nc : nat)
    (p : Q) (r : float64) (lk : Z) (tv : nat -> nat -> R) (x : list image) (t : list R)
    (y : list Z) :
  Forall (block_ok L D) (blocks m) ->
  Forall (block_ok L D) (sideblocks m) ->
  shape2 L D (pos_embed m) ->
  shape2 L D (decoder_pos_embed m) ->
  length (mask_token m) = D ->
  linear_shape D (2 * D) (fl_adaLN_modulation (final_layer m)) ->
  linear_shape D (patch_size m * patch_size m * out_channels m)
               (fl_linear (final_layer m)) ->
  y_embedder m = LabelEmbedder_init nc D p tv ->
  Forall (fun img => exists e, x_embedder m img = Some e /\ shape2 L D e) x ->
  Forall (fun ti => exists v, t_embedder m ti = Some v /\ length v = D) t ->
  length t = length x ->
  length y = length x ->
  Forall (fun l => (0 <= l < Z.of_nat nc)%Z) y ->
  mask_ratio m = Some r ->
  len_keep_of L r = Some lk ->
  (decode_layer m <= 0 \/ Z.of_nat (length (blocks m)) < decode_layer m)%Z ->
  (forall h, h * h <> slice_stop lk L) ->
  x <> [] ->
  forward m rng x t y true = None.
Proof.
  intros Hb Hsb Hpe Hdpe Hmt Hada Hlin Hye Hx Ht Htl Hyl Hy Hmr Hlk Hdl Hns Hne.
  destruct (forward_prefix m rng L D nc p tv x t y true Hpe Hye Hx Ht Htl Hyl Hy)
    as [xe [cs [Hxel [Hxes [Hcl [Hcw Hfw]]]]]].
  rewrite Hfw. cbv zeta. clear Hfw. rewrite Hmr.
  destruct (masked_samples_ok (noise_draw rng) L D r lk xe Hlk Hxes)
    as [samples [Hrm [Hsl Hss]]].
  rewrite Hrm. cbn [bind].
  assert (Hsc : length samples = length cs).
  { transitivity (length xe); [exact Hsl|].
    transitivity (length x); [exact Hxel | symmetry; exact Hcl]. }
  rewrite broadcast2_same by exact Hsc. cbn [bind].
  assert (Hnone : sequence (map (fun sc : tokens * list R * list nat * list nat * list R =>
                     match sc with
                     | ((xs, mask, ids_restore, ids_keep), c) =>
                         x1 <- run_blocks m true xs c mask ids_restore ids_keep ;;
                         x1 <- FinalLayer_forward (final_layer m) x1 c ;;
                         unpatchify m x1
                     end) (zip_with (fun s c => (s, c)) samples cs)) = None);
    [|now rewrite Hnone].
  destruct samples as [|s samples].
  { destruct x; [congruence|]. destruct xe; discriminate. }
  destruct cs as [|c cs]; [discriminate|].
  destruct s as [[[xs mask] ir] ik].
  unfold zip_with. cbn [combine map fst snd].
  apply sequence_None_In. left.
  assert (Hs1 := Forall_inv Hss). cbv beta iota in Hs1. destruct Hs1 as [Hmask Hxs].
  assert (Hc := Forall_inv Hcw). cbv beta in Hc.
  destruct (sample_tokens_shape m L D (slice_stop lk L) true xs c mask ir ik
              Hb Hsb Hdpe Hmt Hada Hlin Hc Hmask Hxs) as [y1 [y2 [Hrun [Hfl Hx2]]]].
  rewrite Hrun. cbn [bind]. rewrite Hfl. cbn [bind].
  assert (Hnot : spliced_before m (length (blocks m)) = false).
  { unfold spliced_before, splice_index.
    destruct (Z.leb_spec 0 (Z.of_nat (length (blocks m)) - decode_layer m));
      [|reflexivity].
    destruct (Z.ltb_spec (Z.of_nat (length (blocks m)) - decode_layer m)
                         (Z.of_nat (length (blocks m)))); [lia | reflexivity]. }
  rewrite Hnot in Hx2. destruct Hx2 as [Hx2l _].
  apply unpatchify_not_square. intros h. rewrite Hx2l. apply Hns.
Qed.

(** X29, instance: [nosplice_model] keeps [int(4 * 0.5) = 2] tokens of
    four. *)
Lemma forward_masked_without_splice_raises_witness :
  forward nosplice_model small_rng [small_image] [0%R] [0%Z] true = None.
Proof.
  apply (forward_masked_without_splice_raises nosplice_model small_rng 4 4 1
           (1 # 10) (float_lit 1 2) 2 (fun _ _ => 0%R) [small_image] [0%R] [0%Z]).
  - repeat constructor. apply identity_block_ok.
  - repeat constructor. apply (shift_block_ok 4 4 100).
  - split; [reflexivity | repeat constructor].
  - split; [reflexivity | repeat constructor].
  - reflexivity.
  - repeat split.
  - repeat split.
  - reflexivity.
  - repeat constructor. eexists. split; [reflexivity|].
    split; [reflexivity | repeat constructor].
  - repeat constructor. eexists. split; reflexivity.
  - reflexivity.
  - reflexivity.
  - repeat constructor; lia.
  - reflexivity.
  - vm_compute. reflexivity.
  - right. simpl. lia.
  - intros h. change (slice_stop 2 4) with 2.
    destruct h as [|[|h]]; simpl; lia.
  - discriminate.
Defined.

(** ** Classifier-free guidance: batches and the scale schedule *)

Lemma sequence_length {A : Type} (l : list (option A)) (out : list A) :
  sequence l = Some out -> length out = length l.
Proof.
  intros H. apply sequence_Forall2 in H.
  symmetry. exact (Forall2_length H).
Qed.

Lemma broadcast2_length {A B C : Type} (f : A -> B -> C) (a : list A) (b : list B)
    (out : list C) :
  broadcast2 f a b = Some out ->
  (length a = length b /\ length out = length a) \/
  (length a = 1 /\ length out = length b) \/
  (length b = 1 /\ length out = length a).
Proof.
  unfold broadcast2.
  destruct (Nat.eqb_spec (length a) (length b)) as [E|E].
  - intros H. inversion H. left. split; [exact E|].
    rewrite length_map, length_combine. lia.
  - destruct a as [|a0 [|a1 a']].
    + destruct b as [|b0 [|b1 b']]; intros H; [simpl in E; lia| |discriminate].
      injection H as <-. right. right. split; reflexivity.
    + intros H. injection H as <-. right. left. split; [reflexivity | apply length_map].
    + destruct b as [|b0 [|b1 b']]; intros H; [discriminate| |discriminate].
      injection H as <-. right. right. split; [reflexivity|].
      apply (length_map (fun x => f x b0) (a0 :: a1 :: a')).
Qed.

Lemma mat_op_length (f : R -> R -> R) (a b c : tokens) :
  mat_op f a b = Some c ->
  (length a = length b /\ length c = length a) \/
  (length a = 1 /\ length c = length b) \/
  (length b = 1 /\ length c = length a).
Proof.
  unfold mat_op. destruct (broadcast2 (vec_op f) a b) as [rows|] eqn:E; [|discriminate].
  cbn [bind]. intros H. apply sequence_length in H.
  apply broadcast2_length in E. unfold tokens in *. lia.
Qed.

(** The number of samples that come out of [forward], and the batch
    sizes it accepts. *)
Lemma forward_batch (m : MDT) (rng : Rng) (x : list image) (t : list R) (y : list Z)
    (out : list image) :
  forward m rng x t y false = Some out ->
  exists nc,
    ((length t = length y /\ nc = length t) \/ (length t = 1 /\ nc = length y) \/
     (length y = 1 /\ nc = length t)) /\
    ((length x = nc /\ length out = length x) \/ (length x = 1 /\ length out = nc) \/
     (nc = 1 /\ length out = length x)).
Proof.
  unfold forward.
  destruct (sequence (map _ x)) as [xs|] eqn:Hxs; [|discriminate]. cbn [bind].
  destruct (sequence (map (t_embedder m) t)) as [ts|] eqn:Hts; [|discriminate].
  cbn [bind].
  destruct (LabelEmbedder_forward _ _ _ _ _) as [ys|] eqn:Hys; [|discriminate].
  cbn [bind].
  destruct (mat_op Rplus ts ys) as [c|] eqn:Hc; [|discriminate]. cbn [bind].
  assert (Hyl : length ys = length y).
  { unfold LabelEmbedder_forward in Hys.
    destruct (LabelEmbedder_labels _ _ _ _ _) as [labels'|] eqn:Hl; [|discriminate].
    cbn [bind] in Hys. apply sequence_length in Hys. rewrite length_map in Hys.
    unfold LabelEmbedder_labels in Hl. rewrite orb_false_r in Hl.
    destruct (training m && _).
    - unfold token_drop, where_drop in Hl. apply broadcast2_length in Hl.
      rewrite length_map, length_seq in Hl. lia.
    - inversion Hl. congruence. }
  apply sequence_length in Hxs, Hts. rewrite length_map in Hxs, Hts.
  apply mat_op_length in Hc.
  assert (Hrest : forall samples : list (tokens * list R * list nat * list nat),
            length samples = length x ->
            (paired <- broadcast2 (fun s c0 => (s, c0)) samples c ;;
             x0 <- sequence (map (fun sc =>
                     match sc with
                     | ((xs0, mask, ids_restore, ids_keep), c0) =>
                         x1 <- run_blocks m false xs0 c0 mask ids_restore ids_keep ;;
                         x1 <- FinalLayer_forward (final_layer m) x1 c0 ;;
                         unpatchify m x1
                     end) paired) ;;
             Some x0) = Some out ->
            exists nc,
              ((length t = length y /\ nc = length t) \/ (length t = 1 /\ nc = length y) \/
               (length y = 1 /\ nc = length t)) /\
              ((length x = nc /\ length out = length x) \/
               (length x = 1 /\ length out = nc) \/
               (nc = 1 /\ length out = length x))).
  { intros samples Hsl.
    destruct (broadcast2 _ samples c) as [paired|] eqn:Hp; [|discriminate]. cbn [bind].
    destruct (sequence (map _ paired)) as [imgs|] eqn:Hi; [|discriminate]. cbn [bind].
    intros H. inversion H. subst imgs.
    apply sequence_length in Hi. rewrite length_map in Hi.
    apply broadcast2_length in Hp.
    exists (length c). unfold tokens in *. split; lia. }
  destruct (mask_ratio m) as [r|]; cbv iota;
    apply Hrest; rewrite length_map; exact Hxs.
Qed.

(** X21: guidance needs pairs.  With one timestep per sample,
    [forward_with_cfg] with a [cfg_scale] raises on an empty batch and
    on every batch of odd size: the doubled first half no longer
    matches the conditioning, or, for fewer than two samples, the split
    into conditional and unconditional halves has nothing to split. *)
Theorem forward_with_cfg_needs_pairs (tensor_pow : R -> R -> R) (m : MDT) (rng : Rng)
    (x : list image) (t : list R) (y : list Z) (cfg_scale diffusion_steps scale_pow : R) :
  length t = length x ->
  length x = 0 \/ length x mod 2 = 1 ->
  forward_with_cfg tensor_pow m rng x t y (Some cfg_scale) diffusion_steps scale_pow
  = None.
Proof.
  intros Ht Hodd. unfold forward_with_cfg, guidance_at.
  set (half := firstn (length x / 2) x).
  destruct (forward m rng (half ++ half) t y false) as [model_out|] eqn:Hf;
    [|reflexivity].
  cbn [bind].
  assert (Hhalf : length (half ++ half) = 2 * (length x / 2)).
  { unfold half. rewrite length_app, length_firstn.
    assert (length x / 2 <= length x) by (apply Nat.Div0.div_le_upper_bound; lia).
    lia. }
  destruct (forward_batch m rng (half ++ half) t y model_out Hf) as [nc [Hnc Hout]].
  pose proof (Nat.div_mod_eq (length x) 2) as Hdm.
  pose proof (Nat.mod_upper_bound (length x) 2 ltac:(lia)) as Hub.
  assert (Hsplit : split_halves (map (firstn 3) model_out) = None).
  { unfold split_halves. cbv zeta. rewrite length_map.
    assert (Hcase : length model_out = 0 \/ length model_out mod 2 = 1).
    { destruct Hodd as [H0|H1].
      - rewrite H0 in *. simpl in Hhalf. rewrite Hhalf in Hout. lia.
      - rewrite Hhalf in Hout.
        destruct (Nat.eq_dec (length x) 1) as [E1|E1].
        + rewrite E1 in *. simpl in Hout. lia.
        + assert (Hnc' : nc = length x) by lia.
          assert (2 * (length x / 2) <> nc) by lia.
          assert (2 * (length x / 2) <> 1) by lia.
          assert (nc <> 1) by lia.
          lia. }
    unfold image, tokens in *.
    pose proof (Nat.div_mod_eq (length model_out) 2) as Hdm'.
    destruct (Nat.ltb_spec 0 (length model_out / 2)) as [Hpos|Hz]; cbn [andb];
      [|reflexivity].
    destruct (Nat.eqb_spec (length model_out) (2 * (length model_out / 2))) as [E|E];
      [lia | reflexivity]. }
  rewrite Hsplit. reflexivity.
Qed.

(** X21, instance: a batch of three. *)
Lemma forward_with_cfg_needs_pairs_witness :
  forward_with_cfg pow_one guidance_model small_rng
                   [guidance_image; guidance_image; guidance_image]
                   [0%R; 0%R; 0%R] [0%Z; 0%Z; 0%Z] (Some 2%R) 1%R 1%R
  = None.
Proof.
  apply (forward_with_cfg_needs_pairs pow_one guidance_model small_rng
           [guidance_image; guidance_image; guidance_image]
           [0%R; 0%R; 0%R] [0%Z; 0%Z; 0%Z] 2%R 1%R 1%R).
  - reflexivity.
  - right. reflexivity.
Defined.

(** X22: the side of the effective guidance scale.  Inside the
    schedule ([0 <= t <= diffusion_steps], a positive step count and a
    power that is not negative) the power-cosine factor
    [(1 - cos(..)) / 2] lies in [[0, 1]], and the effective scale stays
    on the side of 1 where [cfg_scale] is: at least 1 for
    [cfg_scale >= 1], at most 1 for [cfg_scale <= 1]. *)
Theorem real_cfg_scale_between (tensor_pow : R -> R -> R)
    (cfg_scale t diffusion_steps scale_pow : R) :
  (0 < diffusion_steps)%R ->
  (0 <= t <= diffusion_steps)%R ->
  (0 <= scale_pow)%R ->
  (0 <= scale_step tensor_pow t diffusion_steps scale_pow <= 1)%R /\
  ((1 <= cfg_scale)%R ->
   (1 <= real_cfg_scale tensor_pow cfg_scale t diffusion_steps scale_pow)%R) /\
  ((cfg_scale <= 1)%R ->
   (real_cfg_scale tensor_pow cfg_scale t diffusion_steps scale_pow <= 1)%R).
Proof.
  intros _ _ _.
  assert (Hs : (0 <= scale_step tensor_pow t diffusion_steps scale_pow <= 1)%R).
  { unfold scale_step.
    pose proof (COS_bound (tensor_pow (1 - t / diffusion_steps) scale_pow * PI)%R) as [H1 H2].
    lra. }
  split; [exact Hs|].
  unfold real_cfg_scale.
  set (s := scale_step tensor_pow t diffusion_steps scale_pow) in *.
  split; intros Hc; nra.
Qed.

(** X22, instance: halfway through 1000 steps, scale 4. *)
Lemma real_cfg_scale_between_witness :
  (0 <= scale_step pow_one 500 1000 1 <= 1)%R /\
  ((1 <= 4)%R -> (1 <= real_cfg_scale pow_one 4 500 1000 1)%R) /\
  ((4 <= 1)%R -> (real_cfg_scale pow_one 4 500 1000 1 <= 1)%R).
Proof.
  apply (real_cfg_scale_between pow_one 4 500 1000 1); lra.
Defined.



(** ** Sine/cosine position embedding *)

(** The encoding of one position: sines, then cosines. *)
Lemma sincos_1d_rows (D : nat) (pos : list R) :
  D mod 2 = 0 ->
  get_1d_sincos_pos_embed_from_grid D pos =
    Some (map (fun p =>
            map (fun o => sin (p * o))
                (map (fun i => (1 / Rpower 10000 (INR i / (INR D / 2)))%R) (seq 0 (D / 2)))
            ++ map (fun o => cos (p * o))
                (map (fun i => (1 / Rpower 10000 (INR i / (INR D / 2)))%R) (seq 0 (D / 2))))
          pos).
Proof.
  intros HD. unfold get_1d_sincos_pos_embed_from_grid. rewrite HD. reflexivity.
Qed.

Lemma zip_with_map_map {A B C D E : Type} (f : C -> D -> E) (g : A -> C) (h : B -> D)
    (a : list A) (b : list B) :
  zip_with f (map g a) (map h b) = zip_with (fun u v => f (g u) (h v)) a b.
Proof.
  now rewrite zip_with_map_l, zip_with_map_r.
Qed.

(** X24: the row of a grid position in the 2-D position embedding.
    For a width divisible by 4, the row of the position in grid row [r],
    grid column [c] is the 1-D encoding of the column index followed by
    the 1-D encoding of the row index, each of half the width: the
    column comes first. *)
Theorem pos_embed_rows (D g r c : nat) :
  D mod 4 = 0 -> r < g -> c < g ->
  exists pe enc_c enc_r,
    get_2d_sincos_pos_embed D g = Some pe /\
    length pe = g * g /\
    get_1d_sincos_pos_embed_from_grid (D / 2) [INR c] = Some [enc_c] /\
    get_1d_sincos_pos_embed_from_grid (D / 2) [INR r] = Some [enc_r] /\
    nth (r * g + c) pe [] = enc_c ++ enc_r.
Proof.
  intros HD Hr Hc.
  destruct (hidden_div4 D HD) as [H2 [H22 _]].
  unfold get_2d_sincos_pos_embed, get_2d_sincos_pos_embed_from_grid.
  rewrite H2. cbn [negb Nat.eqb fst snd].
  rewrite !(sincos_1d_rows (D / 2)) by exact H22. cbn [bind map].
  set (F := fun p : R => _ ++ _).
  set (grid0 := flat_map (fun _ : nat => map INR (seq 0 g)) (seq 0 g)).
  set (grid1 := flat_map (fun i : nat => repeat (INR i) g) (seq 0 g)).
  assert (Hl0 : length grid0 = g * g).
  { unfold grid0. rewrite (flat_map_const_length _ g), length_seq; [reflexivity|].
    intros a _. now rewrite length_map, length_seq. }
  assert (Hl1 : length grid1 = g * g).
  { unfold grid1. rewrite (flat_map_const_length _ g), length_seq; [reflexivity|].
    intros a _. apply repeat_length. }
  assert (Hidx : r * g + c < g * g) by nia.
  eexists. exists (F (INR c)), (F (INR r)).
  split; [reflexivity|]. split; [|split; [reflexivity|split; [reflexivity|]]].
  - rewrite zip_with_length; rewrite !length_map; congruence.
  - rewrite zip_with_map_map.
    rewrite (zip_with_nth _ _ _ _ 0%R 0%R []) by lia.
    f_equal; f_equal.
    + unfold grid0.
      rewrite (nth_flat_map_block _ _ g r c 0)
        by (try (intros a; now rewrite length_map, length_seq); try rewrite length_seq; lia).
      rewrite (nth_map_lt _ _ _ 0) by (rewrite length_seq; exact Hc).
      now rewrite seq_nth by exact Hc.
    + unfold grid1.
      rewrite (nth_flat_map_block _ _ g r c 0)
        by (try (intros a; apply repeat_length); try rewrite length_seq; lia).
      rewrite seq_nth by exact Hr. apply nth_repeat_lt. exact Hc.
Qed.

(** X24, instance: width 4 on a [2 x 2] grid, grid row 1, column 0. *)
Lemma pos_embed_rows_witness :
  exists pe enc_c enc_r,
    get_2d_sincos_pos_embed 4 2 = Some pe /\
    length pe = 2 * 2 /\
    get_1d_sincos_pos_embed_from_grid (4 / 2) [INR 0] = Some [enc_c] /\
    get_1d_sincos_pos_embed_from_grid (4 / 2) [INR 1] = Some [enc_r] /\
    nth (1 * 2 + 0) pe [] = enc_c ++ enc_r.
Proof.
  apply (pos_embed_rows 4 2 1 0); [reflexivity | lia | lia].
Defined.

Lemma sincos_2d_requires (D g : nat) (pe : tokens) :
  get_2d_sincos_pos_embed D g = Some pe -> D mod 4 = 0.
Proof.
  unfold get_2d_sincos_pos_embed, get_2d_sincos_pos_embed_from_grid.
  destruct (Nat.eqb_spec (D mod 2) 0) as [H2|]; [|discriminate].
  cbn [negb fst snd]. unfold get_1d_sincos_pos_embed_from_grid at 1.
  destruct (Nat.eqb_spec (D / 2 mod 2) 0) as [H22|]; [|discriminate].
  intros _.
  pose proof (Nat.div_mod_eq D 2) as E1.
  pose proof (Nat.div_mod_eq (D / 2) 2) as E2.
  rewrite H2 in E1. rewrite H22 in E2.
  replace D with (D / 2 / 2 * 4) by lia. apply Nat.Div0.mod_mul.
Qed.

(** What a successful construction implies about its arguments. *)
Lemma MDT_init_requires (ini : Initializer) (cfg : Config) (m : MDT) :
  MDT_init ini cfg = Some m ->
  cfg_decode_layer cfg <> None /\
  0 < cfg_num_heads cfg /\
  cfg_num_heads cfg <= cfg_hidden_size cfg /\
  cfg_hidden_size cfg mod 4 = 0.
Proof.
  unfold MDT_init.
  destruct (PatchEmbed_num_patches _ _) as [n_patches|]; [|discriminate]. cbn [bind].
  destruct (sequence (map _ (seq 0 (cfg_depth cfg)))) as [blks|]; [|discriminate].
  cbn [bind].
  destruct (sequence (map _ (seq 0 1))) as [sblks|] eqn:Hs; [|discriminate].
  cbn [bind].
  destruct (cfg_decode_layer cfg) as [dl|]; [|discriminate]. cbn [bind].
  destruct (get_2d_sincos_pos_embed _ _) as [pe|] eqn:Hpe; [|discriminate].
  intros _. split; [discriminate|].
  cbn [seq map sequence] in Hs. unfold MDTBlock_init in Hs.
  destruct (Attention_init _ _ _ _) as [a|] eqn:Ha; [|discriminate].
  destruct (Attention_init_fields _ _ _ _ a Ha) as [Hh [Hd _]].
  split; [exact Hh|]. split.
  - destruct (Nat.le_gt_cases (cfg_num_heads cfg) (cfg_hidden_size cfg)) as [Hle|Hgt];
      [exact Hle|].
    rewrite Nat.div_small in Hd by exact Hgt. lia.
  - apply (sincos_2d_requires _ _ pe Hpe).
Qed.

(** X26: what makes the constructor raise.  [MDT.__init__] fails when
    [decode_layer] is left at its default [None] ([int(None)]), when
    [num_heads] is zero or larger than [hidden_size] (the head width
    [hidden_size // num_heads] and its power [** -0.5] in the attention
    of the side block, built even for [depth = 0]), and when
    [hidden_size] is not divisible by 4 (the assertions of the
    sine/cosine position embedding). *)
Theorem MDT_init_raises (ini : Initializer) (cfg : Config) :
  cfg_decode_layer cfg = None \/
  cfg_num_heads cfg = 0 \/
  cfg_hidden_size cfg < cfg_num_heads cfg \/
  cfg_hidden_size cfg mod 4 <> 0 ->
  MDT_init ini cfg = None.
Proof.
  intros H. destruct (MDT_init ini cfg) as [m|] eqn:E; [|reflexivity].
  destruct (MDT_init_requires ini cfg m E) as [H1 [H2 [H3 H4]]].
  destruct H as [H|[H|[H|H]]]; [congruence | lia | lia | contradiction].
Qed.

(** X26, instance: [MDT_S_2] with default arguments. *)
Lemma MDT_init_raises_witness :
  MDT_S_2 small_ini no_kwargs = None.
Proof.
  apply (MDT_init_raises small_ini). left. reflexivity.
Defined.

(** X27: the twelve named configurations.  Each has a width divisible
    by its head count and by 4, and with [decode_layer] given (and a
    non-negative [mlp_ratio], at least one input channel and an input
    of at least one patch) each one builds a model with the listed
    depth, head count, patch size and width that stores [decode_layer]
    and [mask_ratio] as given. *)
Theorem named_configs_construct (ini : Initializer) (kw : Kwargs) (dl : Z) :
  (0 <= kw_mlp_ratio kw)%Q ->
  0 < kw_in_channels kw ->
  8 <= kw_input_size kw ->
  kw_decode_layer kw = Some dl ->
  Forall (fun e =>
    match e with
    | (depth, hidden_size, patch, heads, make) =>
        hidden_size mod heads = 0 /\
        hidden_size mod 4 = 0 /\
        exists m,
          make ini kw = Some m /\
          length (blocks m) = depth /\
          num_heads m = heads /\
          patch_size m = patch /\
          length (mask_token m) = hidden_size /\
          decode_layer m = dl /\
          mask_ratio m = kw_mask_ratio kw
    end) named_configs.
Proof.
  intros Hr _ _ Hdl.
  assert (Hone : forall depth hidden_size patch heads,
            0 < patch -> 0 < heads -> heads <= hidden_size -> hidden_size mod 4 = 0 ->
            exists m,
              MDT_with depth hidden_size patch heads ini kw = Some m /\
              length (blocks m) = depth /\
              num_heads m = heads /\
              patch_size m = patch /\
              length (mask_token m) = hidden_size /\
              decode_layer m = dl /\
              mask_ratio m = kw_mask_ratio kw).
  { intros depth hidden_size patch heads Hp Hh Hle H4. unfold MDT_with.
    match goal with |- context [MDT_init ini ?c] => set (cfg := c) end.
    destruct (MDT_init_fields ini cfg dl Hp Hh Hle H4 Hr Hdl)
      as [m [pe [blks [sblks [Hm F]]]]].
    exists m. split; [exact Hm|].
    split; [rewrite (fields_blocks F), length_map;
            apply (fields_depth F)|].
    split; [apply (fields_num_heads F)|].
    split; [apply (fields_patch_size F)|].
    split; [apply (fields_mask_token F)|].
    split; [apply (fields_decode_layer F)|].
    apply (fields_mask_ratio F). }
  unfold named_configs.
  repeat (apply Forall_cons; [split; [reflexivity|]; split; [reflexivity|];
                              apply Hone; [lia | lia | lia | reflexivity]|]).
  apply Forall_nil.
Qed.

(** X27, instance: the keyword arguments of the [__main__] block. *)
Lemma named_configs_construct_witness :
  Forall (fun e =>
    match e with
    | (depth, hidden_size, patch, heads, make) =>
        hidden_size mod heads = 0 /\
        hidden_size mod 4 = 0 /\
        exists m,
          make small_ini main_kwargs = Some m /\
          length (blocks m) = depth /\
          num_heads m = heads /\
          patch_size m = patch /\
          length (mask_token m) = hidden_size /\
          decode_layer m = 2%Z /\
          mask_ratio m = kw_mask_ratio main_kwargs
    end) named_configs.
Proof.
  apply (named_configs_construct small_ini main_kwargs 2%Z).
  - discriminate.
  - simpl. lia.
  - simpl. lia.
  - reflexivity.
Defined.

(** ** The forward pass of a fresh model *)

Lemma Linear_init_shape (n_in n_out : nat) (w : nat -> nat -> R) :
  linear_shape n_in n_out (Linear_init n_in n_out w).
Proof.
  unfold linear_shape, Linear_init. cbn [in_features weight bias].
  split; [reflexivity|]. split; [now rewrite length_map, length_seq | apply repeat_length].
Qed.

(** The timestep embedder of the constructor returns a vector of the
    hidden width for every timestep. *)
Lemma TimestepEmbedder_init_ok (ini : Initializer) (D : nat) (ti : R) :
  exists v,
    TimestepEmbedder_forward_one (TimestepEmbedder_init ini D) ti = Some v /\ length v = D.
Proof.
  unfold TimestepEmbedder_forward_one, TimestepEmbedder_forward, TimestepEmbedder_init.
  cbn [frequency_embedding_size mlp_0 mlp_2].
  destruct (timestep_embedding_rows [ti] 256 10000 ltac:(lra)) as [emb [He [Hel Hew]]].
  rewrite He. cbn [bind].
  destruct emb as [|row [|row' emb]]; try discriminate Hel.
  pose proof (Forall_inv Hew) as Hrow. cbv beta in Hrow.
  change (256 =? 1) with false in Hrow. cbv iota in Hrow.
  destruct (linear_ok 256 D _ row (Linear_init_shape 256 D (initial_values ini P_t_mlp_0))
              Hrow) as [h [Hh Hhl]].
  destruct (linear_ok D D _ (map silu h)
              (Linear_init_shape D D (initial_values ini P_t_mlp_2)))
    as [v [Hv Hvl]]; [now rewrite length_map|].
  cbn [map sequence]. rewrite Hh. cbn [bind]. rewrite Hv. cbn [bind hd_error].
  exists v. split; [reflexivity | exact Hvl].
Qed.

(** The layers of a block as the constructor builds them. *)
Lemma MDTBlock_init_layers (ini : Initializer) (side : bool) (k D heads : nat)
    (mlp_ratio : Q) (n_patches : nat) (b : MDTBlockLayers) :
  MDTBlock_init ini side k D heads mlp_ratio n_patches = Some b ->
  (forall (T : nat) (h : tokens), shape2 T D h ->
     exists h', mlp_forward ini side k h = Some h' /\ shape2 T D h') ->
  block_layers_ok D heads n_patches b.
Proof.
  unfold MDTBlock_init.
  destruct (Attention_init D heads n_patches _) as [a|] eqn:Ha; [|discriminate].
  cbn [bind]. unfold Mlp_init.
  destruct (_ <? 0)%Z; [discriminate|]. cbn [bind].
  intros H Hmlp. inversion H; subst b. clear H.
  unfold block_layers_ok.
  cbn [blk_hidden_size blk_attn blk_attn_weights blk_mlp blk_adaLN_modulation qkv proj].
  split; [reflexivity|]. split; [eexists; exact Ha|].
  split; [replace (3 * D) with (D * 3) by lia; apply Linear_init_shape|].
  split; [apply Linear_init_shape|]. split; [apply Linear_init_shape|].
  exact Hmlp.
Qed.

(** One sample after embedding and masking, in a model whose final
    layer is zeroed: the block loop, the final layer and unpatchify give
    the all-zero image. *)
Lemma fresh_sample_zero (m : MDT) (L D : nat) (w1 w2 : nat -> nat -> R)
    (masking : bool) (K q : nat) (x : tokens) (c mask : list R) (ir ik : list nat) :
  Forall (block_ok L D) (blocks m) ->
  Forall (block_ok L D) (sideblocks m) ->
  shape2 L D (decoder_pos_embed m) ->
  length (mask_token m) = D ->
  final_layer m =
    {| fl_linear :=
         zero_out (Linear_init D (patch_size m * patch_size m * out_channels m) w1);
       fl_adaLN_modulation := zero_out (Linear_init D (2 * D) w2) |} ->
  length c = D ->
  (masking = true ->
   K <= L /\ length ik = K /\ Forall (fun i => i < L) ik /\
   Permutation ir (seq 0 L) /\ length mask = L) ->
  shape2 (if masking then K else L) D x ->
  (if spliced_before m (length (blocks m)) then L else if masking then K else L)
    = q * q ->
  (x <- run_blocks m masking x c mask ir ik ;;
   x <- FinalLayer_forward (final_layer m) x c ;;
   unpatchify m x)
  = Some (zeros_image (out_channels m) (q * patch_size m) (q * patch_size m)).
Proof.
  intros Hb Hsb Hdpe Hmt Hfl Hc Hmask Hx Hq.
  destruct (run_blocks_shape m L D K masking c mask ir ik Hb Hsb Hdpe Hmt Hc Hmask x Hx)
    as [x' [Hrun [Hl Hw]]].
  rewrite Hrun. cbn [bind]. rewrite Hfl.
  rewrite (FinalLayer_forward_fresh D _ _ _ x' c Hw Hc). cbn [bind].
  rewrite Hl, Hq. apply unpatchify_zero.
Qed.

Section FreshForward.
Variable ini : Initializer.
Variable cfg : Config.
Variable rng : Rng.
Variable dl : Z.

Let g := cfg_input_size cfg / cfg_patch_size cfg.
Let D := cfg_hidden_size cfg.
Let L := g * g.
Let out_ch :=
  if cfg_learn_sigma cfg then cfg_in_channels cfg * 2 else cfg_in_channels cfg.

Hypothesis patch_pos : 0 < cfg_patch_size cfg.
Hypothesis grid_pos : cfg_patch_size cfg <= cfg_input_size cfg.
Hypothesis heads_pos : 0 < cfg_num_heads cfg.
Hypothesis hidden_pos : 0 < cfg_hidden_size cfg.
Hypothesis heads_div : cfg_hidden_size cfg mod cfg_num_heads cfg = 0.
Hypothesis hidden_4 : cfg_hidden_size cfg mod 4 = 0.
Hypothesis mlp_ratio_nonneg : (0 <= cfg_mlp_ratio cfg)%Q.
Hypothesis decode_given : cfg_decode_layer cfg = Some dl.
Hypothesis mlp_fine :
  forall (side : bool) (k T : nat) (h : tokens), shape2 T D h ->
    exists h', mlp_forward ini side k h = Some h' /\ shape2 T D h'.

Lemma heads_le_hidden : cfg_num_heads cfg <= cfg_hidden_size cfg.
Proof.
  apply Nat.Div0.mod_divides in heads_div. destruct heads_div as [c Hc].
  rewrite Hc in *. destruct c; [lia | nia].
Qed.

Lemma grid_positive : 0 < g.
Proof.
  unfold g. apply Nat.div_str_pos. lia.
Qed.

(** The blocks of a fresh model keep shapes. *)
Lemma fresh_blocks_ok (side : bool) (blks : list MDTBlockLayers) :
  Forall (fun b => exists k,
            MDTBlock_init ini side k D (cfg_num_heads cfg) (cfg_mlp_ratio cfg) L = Some b)
         blks ->
  Forall (block_ok L D) (map (fun b => MDTBlock_forward (zero_adaLN b)) blks).
Proof.
  intros H. apply Forall_map. eapply Forall_impl; [|exact H].
  intros b [k Hb]. cbv beta.
  pose proof (MDTBlock_init_layers ini side k D (cfg_num_heads cfg) (cfg_mlp_ratio cfg)
                L b Hb (mlp_fine side k)) as Hok.
  pose proof (MDTBlock_forward_ok D (cfg_num_heads cfg) L (zero_adaLN b)) as Hblk.
  cbv zeta in Hblk. unfold L in Hblk at 2 3 4. rewrite Nat.sqrt_square in Hblk.
  apply Hblk; [apply zero_adaLN_ok; exact Hok | exact heads_div | exact grid_positive].
Qed.

Lemma spliced_before_depth (m : MDT) :
  length (blocks m) = cfg_depth cfg -> decode_layer m = dl ->
  spliced_before m (length (blocks m)) =
  ((1 <=? dl) && (dl <=? Z.of_nat (cfg_depth cfg)))%Z.
Proof.
  intros Hb Hd. unfold spliced_before, splice_index. rewrite Hb, Hd.
  destruct (Z.leb_spec 0 (Z.of_nat (cfg_depth cfg) - dl)),
    (Z.ltb_spec (Z.of_nat (cfg_depth cfg) - dl) (Z.of_nat (cfg_depth cfg))),
    (Z.leb_spec 1 dl), (Z.leb_spec dl (Z.of_nat (cfg_depth cfg)));
    simpl; try reflexivity; lia.
Qed.

Variable x : list image.
Variable t : list R.
Variable y : list Z.
Variable enable_mask : bool.

Hypothesis embed_fine :
  Forall (fun img => exists e, patch_embed ini img = Some e /\ shape2 L D e) x.
Hypothesis t_batch : length t = length x.
Hypothesis y_batch : length y = length x.
Hypothesis labels_valid :
  Forall (fun l => (0 <= l < Z.of_nat (cfg_num_classes cfg))%Z) y.

(** Construction succeeds and [forward] returns one all-zero image per
    sample; its side is [q] patches when [q * q] tokens reach the final
    layer. *)
Lemma forward_fresh (q : nat) (lk : Z) :
  (forall r, cfg_mask_ratio cfg = Some r -> enable_mask = true ->
             len_keep_of L r = Some lk) ->
  final_tokens cfg dl enable_mask lk = q * q ->
  exists m,
    MDT_init ini cfg = Some m /\
    forward m rng x t y enable_mask =
      Some (repeat (zeros_image out_ch (q * cfg_patch_size cfg) (q * cfg_patch_size cfg))
                   (length x)).
Proof.
  intros Hlk Hq.
  destruct (MDT_init_fields ini cfg dl patch_pos heads_pos heads_le_hidden hidden_4
              mlp_ratio_nonneg decode_given) as [m [pe [blks [sblks [Hm F]]]]].
  exists m. split; [exact Hm|].
  pose proof (fields_pe_shape F) as Hpe. fold g in Hpe. fold L D in Hpe.
  pose proof (fields_blks F) as Hblks. fold g in Hblks. fold L D in Hblks.
  pose proof (fields_sblks F) as Hsblks. fold g in Hsblks. fold L D in Hsblks.
  pose proof (fields_mask_token F) as Hmt. fold D in Hmt.
  pose proof (fields_y_embedder F) as Hye. fold D in Hye.
  pose proof (fields_final_layer F) as Hfl. fold D out_ch in Hfl.
  pose proof (fields_out_channels F) as Hoc. fold out_ch in Hoc.
  pose proof (fields_patch_size F) as Hps.
  assert (Hpos : shape2 L D (pos_embed m)) by (rewrite (fields_pos_embed F); exact Hpe).
  assert (Hdpe : shape2 L D (decoder_pos_embed m))
    by (rewrite (fields_decoder_pos_embed F); exact Hpe).
  assert (Hb : Forall (block_ok L D) (blocks m))
    by (rewrite (fields_blocks F); apply (fresh_blocks_ok false); exact Hblks).
  assert (Hsb : Forall (block_ok L D) (sideblocks m))
    by (rewrite (fields_sideblocks F); apply (fresh_blocks_ok true); exact Hsblks).
  assert (Hdepth : length (blocks m) = cfg_depth cfg)
    by (rewrite (fields_blocks F), length_map; apply (fields_depth F)).
  pose proof (spliced_before_depth m Hdepth (fields_decode_layer F)) as Hspl.
  assert (Hx : Forall (fun img => exists e, x_embedder m img = Some e /\ shape2 L D e) x)
    by (rewrite (fields_x_embedder F); exact embed_fine).
  assert (Ht : Forall (fun ti => exists v, t_embedder m ti = Some v /\ length v = D) t).
  { rewrite (fields_t_embedder F). apply Forall_forall. intros ti _.
    apply TimestepEmbedder_init_ok. }
  destruct (forward_prefix m rng L D (cfg_num_classes cfg) (cfg_class_dropout_prob cfg)
              (initial_values ini P_embedding_table) x t y enable_mask
              Hpos Hye Hx Ht t_batch y_batch labels_valid)
    as [xe [cs [Hxel [Hxes [Hcl [Hcw Hfw]]]]]].
  rewrite Hfw. cbv zeta. clear Hfw. rewrite (fields_mask_ratio F).
  rewrite Forall_forall in Hcw.
  assert (Hfin : forall (samples : list (tokens * list R * list nat * list nat))
                        (masking : bool) (K : nat),
            length samples = length x ->
            (if (1 <=? dl)%Z && (dl <=? Z.of_nat (cfg_depth cfg))%Z then L
             else if masking then K else L) = q * q ->
            Forall (fun s =>
              match s with
              | (xs, mask, ir, ik) =>
                  (masking = true ->
                   K <= L /\ length ik = K /\ Forall (fun i => i < L) ik /\
                   Permutation ir (seq 0 L) /\ length mask = L) /\
                  shape2 (if masking then K else L) D xs
              end) samples ->
            (paired <- broadcast2 (fun s c => (s, c)) samples cs ;;
             x0 <- sequence (map (fun sc =>
                     match sc with
                     | ((xs, mask, ids_restore, ids_keep), c) =>
                         x1 <- run_blocks m masking xs c mask ids_restore ids_keep ;;
                         x1 <- FinalLayer_forward (final_layer m) x1 c ;;
                         unpatchify m x1
                     end) paired) ;;
             Some x0)
            = Some (repeat (zeros_image out_ch (q * cfg_patch_size cfg)
                                        (q * cfg_patch_size cfg)) (length x))).
  { intros samples masking K Hsl HqK Hs.
    rewrite broadcast2_same by congruence. cbn [bind].
    rewrite (sequence_map_Some _
               (fun _ => zeros_image out_ch (q * cfg_patch_size cfg)
                                     (q * cfg_patch_size cfg))).
    - cbn [bind]. rewrite map_const, zip_with_length by congruence.
      f_equal. f_equal. exact Hsl.
    - rewrite Forall_forall in Hs.
      apply Forall_zip_with. intros [[[xs mask] ir] ik] c Hin.
      pose proof (Hs _ (in_combine_l _ _ _ _ Hin)) as [Hmask Hxs].
      pose proof (Hcw _ (in_combine_r _ _ _ _ Hin)) as Hcwid.
      rewrite <- Hoc, <- Hps.
      apply (fresh_sample_zero m L D (initial_values ini P_final_linear)
               (initial_values ini P_final_adaLN) masking K q xs c mask ir ik);
        try assumption.
      + now rewrite Hps, Hoc.
      + now rewrite Hspl. }
  unfold final_tokens in Hq. fold g in Hq. fold L in Hq.
  assert (Hplain : Forall (fun s : tokens * list R * list nat * list nat =>
            match s with
            | (xs, mask, ir, ik) =>
                (false = true ->
                 0 <= L /\ length ik = 0 /\ Forall (fun i => i < L) ik /\
                 Permutation ir (seq 0 L) /\ length mask = L) /\
                shape2 L D xs
            end) (map (fun x0 : tokens => (x0, @nil R, @nil nat, @nil nat)) xe)).
  { apply Forall_map. eapply Forall_impl; [|exact Hxes].
    intros xs Hxs. split; [discriminate | exact Hxs]. }
  destruct (cfg_mask_ratio cfg) as [r|].
  - destruct enable_mask.
    + destruct (masked_samples_ok (noise_draw rng) L D r lk xe (Hlk r eq_refl eq_refl) Hxes)
        as [samples [Hrm [Hsl Hss]]].
      rewrite Hrm. cbn [bind]. cbn [andb] in Hq.
      apply (Hfin _ true (slice_stop lk L)).
      * transitivity (length xe); [exact Hsl | exact Hxel].
      * destruct ((1 <=? dl)%Z && (dl <=? Z.of_nat (cfg_depth cfg))%Z);
          cbn [negb] in Hq; exact Hq.
      * exact Hss.
    + cbn [bind]. cbn [andb] in Hq.
      apply (Hfin _ false 0); [rewrite length_map; exact Hxel | | exact Hplain].
      now destruct ((1 <=? dl)%Z && (dl <=? Z.of_nat (cfg_depth cfg))%Z).
  - cbn [bind].
    apply (Hfin _ false 0); [rewrite length_map; exact Hxel | | exact Hplain].
    now destruct ((1 <=? dl)%Z && (dl <=? Z.of_nat (cfg_depth cfg))%Z).
Qed.
End FreshForward.

(** X31: a fresh model returns zeros.  For a model as the constructor
    and [initialize_weights] leave it, with a width that the head count
    and 4 divide, a grid of whole patches and library parts (patch
    embedding, feed-forward networks) that keep shapes, [forward] on
    valid labels returns, for every sample, the all-zero image of shape
    [[out_channels, input_size, input_size]]: without masking, and with
    masking when the model has no mask ratio or the splice index lies
    inside the block loop ([1 <= decode_layer <= depth]) and
    [int(L * (1 - mask_ratio))] is defined. *)
Theorem fresh_forward_zero (ini : Initializer) (cfg : Config) (rng : Rng) (dl : Z)
    (x : list image) (t : list R) (y : list Z) :
  let g := cfg_input_size cfg / cfg_patch_size cfg in
  let D := cfg_hidden_size cfg in
  let out_ch :=
    if cfg_learn_sigma cfg then cfg_in_channels cfg * 2 else cfg_in_channels cfg in
  let zero := zeros_image out_ch (cfg_input_size cfg) (cfg_input_size cfg) in
  0 < cfg_patch_size cfg ->
  cfg_patch_size cfg <= cfg_input_size cfg ->
  cfg_input_size cfg mod cfg_patch_size cfg = 0 ->
  0 < cfg_in_channels cfg ->
  0 < cfg_num_heads cfg ->
  0 < cfg_hidden_size cfg ->
  cfg_hidden_size cfg mod cfg_num_heads cfg = 0 ->
  cfg_hidden_size cfg mod 4 = 0 ->
  (0 <= cfg_mlp_ratio cfg)%Q ->
  cfg_decode_layer cfg = Some dl ->
  (forall (side : bool) (k T : nat) (h : tokens), shape2 T D h ->
     exists h', mlp_forward ini side k h = Some h' /\ shape2 T D h') ->
  Forall (fun img => exists e, patch_embed ini img = Some e /\ shape2 (g * g) D e) x ->
  length t = length x ->
  length y = length x ->
  Forall (fun l => (0 <= l < Z.of_nat (cfg_num_classes cfg))%Z) y ->
  exists m,
    MDT_init ini cfg = Some m /\
    forward m rng x t y false = Some (repeat zero (length x)) /\
    (cfg_mask_ratio cfg = None \/
     ((1 <= dl <= Z.of_nat (cfg_depth cfg))%Z /\
      forall r, cfg_mask_ratio cfg = Some r ->
                exists lk, len_keep_of (g * g) r = Some lk) ->
     forward m rng x t y true = Some (repeat zero (length x))).
Proof.
  intros g D out_ch zero Hp Hgp Hdiv _ Hh HD Hhd H4 Hr Hdl Hmlp He Hlt Hly Hy.
  assert (Hg : g * cfg_patch_size cfg = cfg_input_size cfg).
  { unfold g. symmetry. rewrite Nat.mul_comm. now apply Nat.Div0.div_exact. }
  destruct (forward_fresh ini cfg rng dl Hp Hgp Hh HD Hhd H4 Hr Hdl Hmlp x t y false
              He Hlt Hly Hy g 0%Z) as [m [Hm Hf]].
  { intros r _ Hfalse. discriminate Hfalse. }
  { unfold final_tokens. fold g. now destruct (cfg_mask_ratio cfg). }
  exists m. split; [exact Hm|]. fold out_ch in Hf. rewrite Hg in Hf.
  split; [exact Hf|].
  intros Hsplice.
  assert (Hlk : exists lk, forall r, cfg_mask_ratio cfg = Some r -> true = true ->
                             len_keep_of (g * g) r = Some lk).
  { destruct (cfg_mask_ratio cfg) as [r0|] eqn:Hmr.
    - destruct Hsplice as [Hn|[_ Hint]]; [discriminate|].
      destruct (Hint r0 eq_refl) as [lk Hlk]. exists lk.
      intros r Hr' _. inversion Hr'; subst r. exact Hlk.
    - exists 0%Z. intros r Hr'. discriminate Hr'. }
  destruct Hlk as [lk Hlk].
  destruct (forward_fresh ini cfg rng dl Hp Hgp Hh HD Hhd H4 Hr Hdl Hmlp x t y true
              He Hlt Hly Hy g lk Hlk) as [m' [Hm' Hf']].
  { unfold final_tokens. fold g. destruct (cfg_mask_ratio cfg) as [r|]; [|reflexivity].
    destruct Hsplice as [Hn|[[H1 H2] _]]; [discriminate|].
    destruct (Z.leb_spec 1 dl); [|lia].
    destruct (Z.leb_spec dl (Z.of_nat (cfg_depth cfg))); [|lia]. reflexivity. }
  rewrite Hm in Hm'. inversion Hm'; subst m'.
  fold out_ch in Hf'. rewrite Hg in Hf'. exact Hf'.
Qed.

Lemma small_mlp_fine (side : bool) (k T : nat) (h : tokens) :
  shape2 T 4 h -> exists h', mlp_forward small_ini side k h = Some h' /\ shape2 T 4 h'.
Proof.
  intros Hh. exists h. split; [reflexivity | exact Hh].
Qed.

Lemma small_embed_fine (x : list image) :
  Forall (fun img => exists e,
            patch_embed small_ini img = Some e /\ shape2 (2 / 1 * (2 / 1)) 4 e) x.
Proof.
  apply Forall_forall. intros img _. eexists. split; [reflexivity|].
  split; [reflexivity | repeat constructor].
Qed.

(** X31, instance: [small_cfg], whose splice index is 1. *)
Lemma fresh_forward_zero_witness :
  exists m,
    MDT_init small_ini small_cfg = Some m /\
    forward m small_rng [small_image] [0%R] [3%Z] false
      = Some (repeat (zeros_image 1 2 2) 1) /\
    (cfg_mask_ratio small_cfg = None \/
     ((1 <= 1 <= Z.of_nat (cfg_depth small_cfg))%Z /\
      forall r, cfg_mask_ratio small_cfg = Some r ->
                exists lk, len_keep_of (2 / 1 * (2 / 1)) r = Some lk) ->
     forward m small_rng [small_image] [0%R] [3%Z] true
       = Some (repeat (zeros_image 1 2 2) 1)).
Proof.
  apply (fresh_forward_zero small_ini small_cfg small_rng 1%Z
           [small_image] [0%R] [3%Z]).
  - simpl. lia.
  - simpl. lia.
  - reflexivity.
  - simpl. lia.
  - simpl. lia.
  - simpl. lia.
  - reflexivity.
  - reflexivity.
  - discriminate.
  - reflexivity.
  - exact small_mlp_fine.
  - apply small_embed_fine.
  - reflexivity.
  - reflexivity.
  - repeat constructor; simpl; lia.
Defined.

(** C4, at the failing input: a fresh model with [decode_layer = 0]
    ([nosplice_cfg]: a [2 x 2] grid of one-pixel patches, width 4, two
    blocks, [mask_ratio = 0.75]), whatever the random draws and the
    library parts are, as long as these keep shapes.  With
    [enable_mask] the splice index [depth - 0] is never reached by the
    loop, the single kept token ([int(4 * (1 - 0.75)) = 1]) goes to the
    final layer, and [forward] returns a [1 x 1] image where the input,
    and the result without masking, are [2 x 2]. *)
Theorem fresh_forward_decode_layer_zero (ini : Initializer) (rng : Rng) :
  (forall (side : bool) (k T : nat) (h : tokens), shape2 T 4 h ->
     exists h', mlp_forward ini side k h = Some h' /\ shape2 T 4 h') ->
  (exists e, patch_embed ini small_image = Some e /\ shape2 4 4 e) ->
  exists m,
    MDT_init ini nosplice_cfg = Some m /\
    forward m rng [small_image] [0%R] [3%Z] true = Some [zeros_image 1 1 1] /\
    forward m rng [small_image] [0%R] [3%Z] true <> Some [zeros_image 1 2 2] /\
    forward m rng [small_image] [0%R] [3%Z] false = Some [zeros_image 1 2 2].
Proof.
  intros Hmlp He.
  assert (Hx : Forall (fun img => exists e,
                 patch_embed ini img = Some e /\
                 shape2 (cfg_input_size nosplice_cfg / cfg_patch_size nosplice_cfg
                         * (cfg_input_size nosplice_cfg / cfg_patch_size nosplice_cfg))
                        (cfg_hidden_size nosplice_cfg) e) [small_image])
    by (constructor; [exact He | constructor]).
  assert (Hy : Forall (fun l => (0 <= l < Z.of_nat (cfg_num_classes nosplice_cfg))%Z) [3%Z])
    by (repeat constructor; simpl; lia).
  destruct (forward_fresh ini nosplice_cfg rng 0%Z) with
    (x := [small_image]) (t := [0%R]) (y := [3%Z]) (enable_mask := true) (q := 1)
    (lk := 1%Z) as [m [Hm Hf]];
    try (simpl; lia); try reflexivity; try discriminate; try assumption.
  { intros r Hr _. inversion Hr. vm_compute. reflexivity. }
  destruct (forward_fresh ini nosplice_cfg rng 0%Z) with
    (x := [small_image]) (t := [0%R]) (y := [3%Z]) (enable_mask := false) (q := 2)
    (lk := 1%Z) as [m' [Hm' Hf']];
    try (simpl; lia); try reflexivity; try discriminate; try assumption.
  rewrite Hm in Hm'. inversion Hm'; subst m'.
  exists m. split; [exact Hm|]. split; [exact Hf|]. split; [|exact Hf'].
  rewrite Hf. discriminate.
Qed.

(** C4, instance: the statement above for the library parts of
    [small_ini] and the draws of [small_rng]. *)
Lemma fresh_forward_decode_layer_zero_witness :
  exists m,
    MDT_init small_ini nosplice_cfg = Some m /\
    forward m small_rng [small_image] [0%R] [3%Z] true = Some [zeros_image 1 1 1] /\
    forward m small_rng [small_image] [0%R] [3%Z] true <> Some [zeros_image 1 2 2] /\
    forward m small_rng [small_image] [0%R] [3%Z] false = Some [zeros_image 1 2 2].
Proof.
  apply (fresh_forward_decode_layer_zero small_ini small_rng).
  - exact small_mlp_fine.
  - eexists. split; [reflexivity|]. split; [reflexivity | repeat constructor].
Defined.
